(** * SpecForge: the Qwen3 Eagle3 draft model and the JSONL sampler

    A shallow embedding of [specforge/modeling/draft/qwen3_eagle.py] and
    [scripts/jsonl_sample.py].

    Tensors are a shape together with an indexing function; every torch
    operation checks shapes the way torch does and raises otherwise.
    Arithmetic is kept abstract in a class [Scalar], so that statements
    about the structure of a computation hold for any element type,
    floating point included; statements that need algebra are proved
    for scalars obeying the laws they use, and instantiated at the real
    numbers. *)

From Stdlib Require Import String List ZArith Arith Bool Lia Reals Lra Sorted.
From Stdlib Require PrimFloat.
Import ListNotations.

Set Implicit Arguments.

(** ** Python exceptions and fallible computations *)

Inductive error : Type :=
| ValueError (msg : string)
| AssertionError
| RuntimeError        (* raised by torch: incompatible sizes or dtypes *)
| IndexError
| ZeroDivisionError
| AttributeError
| TypeError
| KeyError.

Inductive result (A : Type) : Type :=
| Ok (a : A)
| Err (e : error).

Arguments Ok {A} a.
Arguments Err {A} e.

Definition bind {A B} (m : result A) (k : A -> result B) : result B :=
  match m with
  | Ok a => k a
  | Err e => Err e
  end.

Declare Scope result_scope.
Delimit Scope result_scope with result.
Notation "x <- m ;; k" := (bind m (fun x => k))
  (at level 61, m at next level, right associativity) : result_scope.
Notation "' pat <- m ;; k" := (bind m (fun x => match x with pat => k end))
  (at level 61, pat pattern, m at next level, right associativity) : result_scope.
Open Scope result_scope.

Definition is_ok {A} (r : result A) : bool :=
  match r with Ok _ => true | Err _ => false end.

Definition guard (b : bool) (e : error) : result unit :=
  if b then Ok tt else Err e.

(** ** Scalars

    The element type of floating tensors with the operations the model
    uses.  [to_float32] is [.float()] / [.to(torch.float32)], [to_dtype]
    is the cast back to the working dtype. *)

Class Scalar (F : Type) : Type := {
  fzero : F;
  fone : F;
  fadd : F -> F -> F;
  fmul : F -> F -> F;
  fdiv : F -> F -> F;
  fneg : F -> F;
  fexp : F -> F;
  fcos : F -> F;
  fsin : F -> F;
  fsqrt : F -> F;
  frsqrt : F -> F;
  of_int : Z -> F;
  to_float32 : F -> F;
  to_dtype : F -> F
}.

Declare Scope scalar_scope.
Delimit Scope scalar_scope with fl.
Notation "x + y" := (fadd x y) : scalar_scope.
Notation "x * y" := (fmul x y) : scalar_scope.
Notation "x / y" := (fdiv x y) : scalar_scope.
Notation "- x" := (fneg x) : scalar_scope.

(** An entry of an additive attention mask, or of a row of attention
    scores once a mask was added: a finite bias or minus infinity. *)
Inductive score (F : Type) : Type :=
| NegInf
| Fin (x : F).

Arguments NegInf {F}.
Arguments Fin {F} x.

(** ** Tensors of rank 1 to 4 *)

Record T1 (A : Type) : Type := mkT1 { len1 : nat; at1 : nat -> A }.

Record T2 (A : Type) : Type :=
  mkT2 { rows2 : nat; cols2 : nat; at2 : nat -> nat -> A }.

Record T3 (A : Type) : Type :=
  mkT3 { dim3_0 : nat; dim3_1 : nat; dim3_2 : nat;
         at3 : nat -> nat -> nat -> A }.

Record T4 (A : Type) : Type :=
  mkT4 { dim4_0 : nat; dim4_1 : nat; dim4_2 : nat; dim4_3 : nat;
         at4 : nat -> nat -> nat -> nat -> A }.

Definition shape3 {A} (t : T3 A) : nat * nat * nat :=
  (dim3_0 t, dim3_1 t, dim3_2 t).

Definition shape4 {A} (t : T4 A) : nat * nat * nat * nat :=
  (dim4_0 t, dim4_1 t, dim4_2 t, dim4_3 t).

(** Two tensors are the same tensor when they have the same shape and
    the same entry at every index inside it. *)
Definition teq3 {A} (a b : T3 A) : Prop :=
  shape3 a = shape3 b /\
  forall i j k, i < dim3_0 a -> j < dim3_1 a -> k < dim3_2 a ->
    at3 a i j k = at3 b i j k.

Definition teq4 {A} (a b : T4 A) : Prop :=
  shape4 a = shape4 b /\
  forall i j k l,
    i < dim4_0 a -> j < dim4_1 a -> k < dim4_2 a -> l < dim4_3 a ->
    at4 a i j k l = at4 b i j k l.

(** Broadcasting of one dimension: equal sizes, or one of them is 1. *)
Definition bdim (a b : nat) : result nat :=
  if a =? b then Ok a
  else if a =? 1 then Ok b
  else if b =? 1 then Ok a
  else Err RuntimeError.

(** Index into a dimension of size [d] of an operand that was broadcast. *)
Definition bidx (d i : nat) : nat := if d =? 1 then 0 else i.

(** Elementwise binary operation on rank-4 tensors, with broadcasting. *)
Definition bin4 {A B C} (op : A -> B -> C) (a : T4 A) (b : T4 B)
  : result (T4 C) :=
  d0 <- bdim (dim4_0 a) (dim4_0 b) ;;
  d1 <- bdim (dim4_1 a) (dim4_1 b) ;;
  d2 <- bdim (dim4_2 a) (dim4_2 b) ;;
  d3 <- bdim (dim4_3 a) (dim4_3 b) ;;
  Ok (mkT4 d0 d1 d2 d3 (fun i j k l =>
        op (at4 a (bidx (dim4_0 a) i) (bidx (dim4_1 a) j)
                  (bidx (dim4_2 a) k) (bidx (dim4_3 a) l))
           (at4 b (bidx (dim4_0 b) i) (bidx (dim4_1 b) j)
                  (bidx (dim4_2 b) k) (bidx (dim4_3 b) l)))).

Definition bin3 {A B C} (op : A -> B -> C) (a : T3 A) (b : T3 B)
  : result (T3 C) :=
  d0 <- bdim (dim3_0 a) (dim3_0 b) ;;
  d1 <- bdim (dim3_1 a) (dim3_1 b) ;;
  d2 <- bdim (dim3_2 a) (dim3_2 b) ;;
  Ok (mkT3 d0 d1 d2 (fun i j k =>
        op (at3 a (bidx (dim3_0 a) i) (bidx (dim3_1 a) j)
                  (bidx (dim3_2 a) k))
           (at3 b (bidx (dim3_0 b) i) (bidx (dim3_1 b) j)
                  (bidx (dim3_2 b) k)))).

Definition map4 {A B} (f : A -> B) (a : T4 A) : T4 B :=
  mkT4 (dim4_0 a) (dim4_1 a) (dim4_2 a) (dim4_3 a)
       (fun i j k l => f (at4 a i j k l)).

Definition map3 {A B} (f : A -> B) (a : T3 A) : T3 B :=
  mkT3 (dim3_0 a) (dim3_1 a) (dim3_2 a) (fun i j k => f (at3 a i j k)).

(** [t.unsqueeze(1)] of a rank-3 tensor. *)
Definition unsqueeze1 {A} (t : T3 A) : T4 A :=
  mkT4 (dim3_0 t) 1 (dim3_1 t) (dim3_2 t) (fun i _ k l => at3 t i k l).

(** [t[..., None]] of a rank-3 tensor. *)
Definition unsqueeze_last {A} (t : T3 A) : T4 A :=
  mkT4 (dim3_0 t) (dim3_1 t) (dim3_2 t) 1 (fun i j k _ => at3 t i j k).

(** [t.transpose(1, 2)] and [t.transpose(2, 3)]. *)
Definition transpose12 {A} (t : T4 A) : T4 A :=
  mkT4 (dim4_0 t) (dim4_2 t) (dim4_1 t) (dim4_3 t)
       (fun i j k l => at4 t i k j l).

Definition transpose23 {A} (t : T4 A) : T4 A :=
  mkT4 (dim4_0 t) (dim4_1 t) (dim4_3 t) (dim4_2 t)
       (fun i j k l => at4 t i j l k).

(** [torch.cat((a, b), dim=-1)]: every other dimension has to agree. *)
Definition cat4_last {A} (a b : T4 A) : result (T4 A) :=
  if (dim4_0 a =? dim4_0 b) && (dim4_1 a =? dim4_1 b)
     && (dim4_2 a =? dim4_2 b)
  then Ok (mkT4 (dim4_0 a) (dim4_1 a) (dim4_2 a) (dim4_3 a + dim4_3 b)
             (fun i j k l => if l <? dim4_3 a then at4 a i j k l
                             else at4 b i j k (l - dim4_3 a)))
  else Err RuntimeError.

Definition cat3_last {A} (a b : T3 A) : result (T3 A) :=
  if (dim3_0 a =? dim3_0 b) && (dim3_1 a =? dim3_1 b)
  then Ok (mkT3 (dim3_0 a) (dim3_1 a) (dim3_2 a + dim3_2 b)
             (fun i j k => if k <? dim3_2 a then at3 a i j k
                           else at3 b i j (k - dim3_2 a)))
  else Err RuntimeError.

(** [t[..., :n]]: slicing clamps at the size of the dimension. *)
Definition slice_last_to {A} (n : nat) (t : T4 A) : T4 A :=
  mkT4 (dim4_0 t) (dim4_1 t) (dim4_2 t) (Nat.min n (dim4_3 t)) (at4 t).

(** [t[..., n]] with [n >= 0]: out of range raises. *)
Definition index_last {A} (n : nat) (t : T4 A) : result (T3 A) :=
  if n <? dim4_3 t
  then Ok (mkT3 (dim4_0 t) (dim4_1 t) (dim4_2 t)
             (fun i j k => at4 t i j k n))
  else Err IndexError.

(** ** Computations over a mutable store

    An exception leaves the store as it was when it was raised. *)

Definition M (St A : Type) : Type := St -> result A * St.

Definition retM {St A} (a : A) : M St A := fun h => (Ok a, h).

Definition bindM {St A B} (m : M St A) (k : A -> M St B) : M St B :=
  fun h => match m h with
           | (Ok a, h') => k a h'
           | (Err e, h') => (Err e, h')
           end.

Definition liftM {St A} (r : result A) : M St A := fun h => (r, h).

Notation "x <~ m ;; k" := (bindM m (fun x => k))
  (at level 61, m at next level, right associativity) : result_scope.
Notation "' pat <~ m ;; k" :=
  (bindM m (fun x => match x with pat => k end))
  (at level 61, pat pattern, m at next level, right associativity)
  : result_scope.

Fixpoint set_nth {A} (l : list A) (i : nat) (x : A) : list A :=
  match l, i with
  | [], _ => []
  | _ :: t, O => x :: t
  | y :: t, S j => y :: set_nth t j x
  end.

(** ** Configuration and collaborators *)

(** The fields of [Qwen3Config] the draft model reads.  [head_dim] and
    [target_hidden_size] may be absent; [rope_scaling], when present,
    holds the values under its keys [rope_type] and [type]. *)
Record Qwen3Config (F : Type) : Type := mkConfig {
  hidden_size : nat;
  intermediate_size : nat;
  num_attention_heads : nat;
  num_key_value_heads : nat;
  config_head_dim : option nat;
  max_position_embeddings : nat;
  rms_norm_eps : F;
  rope_scaling : option (option string * option string);
  vocab_size : nat;
  draft_vocab_size : nat;
  target_hidden_size : option nat;
  hidden_act : string
}.

(** The attention mask argument: the additive rank-4 mask, or the
    integer rank-2 padding mask straight from the data loader. *)
Inductive mask (F : Type) : Type :=
| AdditiveMask (m : T4 (score F))
| PaddingMask (m : T2 Z).

Arguments PaddingMask {F} m.

(** What [attention_mask.sum(dim=-1)] is, by the kind of mask. *)
Inductive lengths (F : Type) : Type :=
| Lengths1 (t : T1 Z)
| Lengths3 (t : T3 (score F)).

Arguments Lengths1 {F} t.

(** The [cache_kwargs] dictionary handed to the paged cache. *)
Record CacheKwargs (F : Type) : Type :=
  mkCacheKwargs { kw_sin : T3 F; kw_cos : T3 F; kw_cache_position : T1 Z }.

(** What the draft model calls but does not define: the rope
    initialisation table, the cache and the flex attention kernels of
    torch and transformers, [torch.nn.functional], the mask generator of
    [specforge.modeling.draft.flex_attention] and
    [prepare_decoder_attention_mask] of the base class
    [Eagle3DraftModel]. *)
Class Collaborators (F : Type) : Type := {
  ROPE_INIT_FUNCTIONS : option string -> option (Qwen3Config F -> T1 F * F);
  PagedCache : Type;
  get_seq_length : PagedCache -> nat;
  cache_update :
    PagedCache -> T4 F -> T4 F -> nat -> CacheKwargs F ->
    (T4 F * T4 F) * PagedCache;
  MaskMod : Type;
  BlockMask : Type;
  generate_eagle3_mask : lengths F -> nat -> nat -> nat -> MaskMod;
  create_block_mask : MaskMod -> nat -> nat -> nat -> nat -> result BlockMask;
  compile_friendly_create_block_mask :
    MaskMod -> nat -> nat -> nat -> nat -> result BlockMask;
  flex_attention : T4 F -> T4 F -> T4 F -> BlockMask -> bool -> result (T4 F);
  compile_friendly_flex_attention :
    T4 F -> T4 F -> T4 F -> BlockMask -> bool -> result (T4 F);
  F_silu : F -> F;
  F_getattr : string -> option (T3 F -> result (T3 F));
  prepare_decoder_attention_mask :
    T2 bool -> T3 F -> nat -> nat -> nat -> result (mask F)
}.

(** ** The model *)

Section Model.

Context {F : Type} {SF : Scalar F} {EX : Collaborators F}.

(** Sum of [f 0 .. f (n-1)], accumulated from the left starting at zero. *)
Fixpoint sumf (n : nat) (f : nat -> F) : F :=
  match n with
  | O => fzero
  | S k => (sumf k f + f k)%fl
  end.

(** [torch.matmul] on rank-4 tensors: the inner sizes have to agree, the
    two leading dimensions broadcast. *)
Definition matmul4 (a b : T4 F) : result (T4 F) :=
  _ <- guard (dim4_3 a =? dim4_2 b) RuntimeError ;;
  d0 <- bdim (dim4_0 a) (dim4_0 b) ;;
  d1 <- bdim (dim4_1 a) (dim4_1 b) ;;
  Ok (mkT4 d0 d1 (dim4_2 a) (dim4_3 b) (fun i j k l =>
        sumf (dim4_3 a) (fun c =>
          at4 a (bidx (dim4_0 a) i) (bidx (dim4_1 a) j) k c
          * at4 b (bidx (dim4_0 b) i) (bidx (dim4_1 b) j) c l)%fl)).

Definition matmul3 (a b : T3 F) : result (T3 F) :=
  _ <- guard (dim3_2 a =? dim3_1 b) RuntimeError ;;
  d0 <- bdim (dim3_0 a) (dim3_0 b) ;;
  Ok (mkT3 d0 (dim3_1 a) (dim3_2 b) (fun i j k =>
        sumf (dim3_2 a) (fun c =>
          at3 a (bidx (dim3_0 a) i) j c
          * at3 b (bidx (dim3_0 b) i) c k)%fl)).

(** [t.sum(-1)]. *)
Definition sum_last (t : T4 F) : T3 F :=
  mkT3 (dim4_0 t) (dim4_1 t) (dim4_2 t)
       (fun i j k => sumf (dim4_3 t) (fun c => at4 t i j k c)).

(** [t[..., n:]]. *)
Definition slice_last_from {A} (n : nat) (t : T4 A) : T4 A :=
  mkT4 (dim4_0 t) (dim4_1 t) (dim4_2 t) (dim4_3 t - n)
       (fun i j k l => at4 t i j k (l + n)).

(** *** nn.Linear without bias: [y = x W^T] *)

Record Linear : Type :=
  mkLinear { in_features : nat; out_features : nat;
             weight : nat -> nat -> F }.

Definition Linear_forward (m : Linear) (x : T3 F) : result (T3 F) :=
  _ <- guard (dim3_2 x =? in_features m) RuntimeError ;;
  Ok (mkT3 (dim3_0 x) (dim3_1 x) (out_features m) (fun b t o =>
        sumf (in_features m) (fun c => at3 x b t c * weight m o c)%fl)).

(** *** repeat_kv *)

Definition repeat_kv (hidden_states : T4 F) (n_rep : nat) : T4 F :=
  if n_rep =? 1 then hidden_states
  else mkT4 (dim4_0 hidden_states) (dim4_1 hidden_states * n_rep)
            (dim4_2 hidden_states) (dim4_3 hidden_states)
            (fun b h s d => at4 hidden_states b (h / n_rep) s d).

(** *** rotate_half and apply_rotary_pos_emb *)

Definition rotate_half (x : T4 F) : result (T4 F) :=
  let x1 := slice_last_to (dim4_3 x / 2) x in
  let x2 := slice_last_from (dim4_3 x / 2) x in
  cat4_last (map4 fneg x2) x1.

Definition apply_rotary_pos_emb (q k : T4 F) (cos sin : T3 F)
  : result (T4 F * T4 F) :=
  let cos := unsqueeze1 cos in
  let sin := unsqueeze1 sin in
  qc <- bin4 fmul q cos ;;
  rq <- rotate_half q ;;
  qs <- bin4 fmul rq sin ;;
  q_embed <- bin4 fadd qc qs ;;
  kc <- bin4 fmul k cos ;;
  rk <- rotate_half k ;;
  ks <- bin4 fmul rk sin ;;
  k_embed <- bin4 fadd kc ks ;;
  Ok (q_embed, k_embed).

(** *** Qwen3RMSNorm *)

Record Qwen3RMSNorm : Type :=
  mkRMSNorm { norm_weight : T1 F; variance_epsilon : F }.

(** The normalised entry: cast up, scale by the reciprocal root of the
    mean square plus epsilon, cast back. *)
Definition rms_entry (m : Qwen3RMSNorm) (d : nat) (row : nat -> F) (l : nat)
  : F :=
  let hs := fun c => to_float32 (row c) in
  let variance := (sumf d (fun c => hs c * hs c) / of_int (Z.of_nat d))%fl in
  to_dtype (hs l * frsqrt (variance + variance_epsilon m))%fl.

Definition Qwen3RMSNorm_forward4 (m : Qwen3RMSNorm) (x : T4 F)
  : result (T4 F) :=
  d <- bdim (len1 (norm_weight m)) (dim4_3 x) ;;
  Ok (mkT4 (dim4_0 x) (dim4_1 x) (dim4_2 x) d (fun i j k l =>
        at1 (norm_weight m) (bidx (len1 (norm_weight m)) l)
        * rms_entry m (dim4_3 x) (at4 x i j k) (bidx (dim4_3 x) l))%fl).

Definition Qwen3RMSNorm_forward3 (m : Qwen3RMSNorm) (x : T3 F)
  : result (T3 F) :=
  d <- bdim (len1 (norm_weight m)) (dim3_2 x) ;;
  Ok (mkT3 (dim3_0 x) (dim3_1 x) d (fun i j l =>
        at1 (norm_weight m) (bidx (len1 (norm_weight m)) l)
        * rms_entry m (dim3_2 x) (at3 x i j) (bidx (dim3_2 x) l))%fl).

(** *** Qwen3RotaryEmbedding

    [inv_freq] and [attention_scaling] are what the rope initialisation
    function of the configured rope type returned at construction; the
    other fields are what [__init__] keeps beside them. *)

Record Qwen3RotaryEmbedding : Type := mkRotary {
  rope_type : option string;
  max_seq_len_cached : nat;
  original_max_seq_len : nat;
  inv_freq : T1 F;
  attention_scaling : F;
  original_inv_freq : T1 F
}.

(** ["dynamic" in s]. *)
Definition contains (needle s : string) : bool :=
  match String.index 0 needle s with Some _ => true | None => false end.

(** Lines 89-90: [forward] is wrapped by [dynamic_rope_update] of
    transformers.  The wrapper reads [rope_type]: when it contains
    "dynamic" or is "longrope" it first recomputes the frequencies from
    the largest position id, in place; for every other rope type it
    calls the function as written.  [static_rope] holds of the rope
    types of the second kind, for which [Qwen3RotaryEmbedding_forward]
    below, the function as written, is the whole call. *)
Definition static_rope (m : Qwen3RotaryEmbedding) : bool :=
  match rope_type m with
  | Some r => negb (contains "dynamic" r) && negb (String.eqb r "longrope")
  | None => false
  end.

Definition rotary_freqs (m : Qwen3RotaryEmbedding) (position_ids : T2 Z)
  : result (T3 F) :=
  let inv_freq_expanded :=
    mkT3 (rows2 position_ids) (len1 (inv_freq m)) 1
         (fun _ l _ => to_float32 (at1 (inv_freq m) l)) in
  let position_ids_expanded :=
    mkT3 (rows2 position_ids) 1 (cols2 position_ids)
         (fun b _ t => to_float32 (of_int (at2 position_ids b t))) in
  fr <- matmul3 (map3 to_float32 inv_freq_expanded)
                (map3 to_float32 position_ids_expanded) ;;
  Ok (mkT3 (dim3_0 fr) (dim3_2 fr) (dim3_1 fr)
        (fun b t l => at3 fr b l t)).

Definition Qwen3RotaryEmbedding_forward (m : Qwen3RotaryEmbedding)
    (position_ids : T2 Z) : result (T3 F * T3 F) :=
  freqs <- rotary_freqs m position_ids ;;
  emb <- cat3_last freqs freqs ;;
  let cos := map3 (fun e => fcos e * attention_scaling m)%fl emb in
  let sin := map3 (fun e => fsin e * attention_scaling m)%fl emb in
  Ok (map3 to_dtype cos, map3 to_dtype sin).

(** [x.view(d0, d1, d2, d3)] of a contiguous rank-3 tensor: the number
    of elements has to agree, entries keep their row-major position. *)
Definition view4 {A} (d0 d1 d2 d3 : nat) (x : T3 A) : result (T4 A) :=
  _ <- guard (d0 * d1 * d2 * d3 =? dim3_0 x * dim3_1 x * dim3_2 x)
             RuntimeError ;;
  Ok (mkT4 d0 d1 d2 d3 (fun i j k l =>
        let flat := ((i * d1 + j) * d2 + k) * d3 + l in
        at3 x (flat / (dim3_1 x * dim3_2 x))
              ((flat / dim3_2 x) mod dim3_1 x)
              (flat mod dim3_2 x))).

(** [x.contiguous().reshape(d0, d1, d2)] of a rank-4 tensor. *)
Definition reshape3 {A} (d0 d1 d2 : nat) (x : T4 A) : result (T3 A) :=
  _ <- guard (d0 * d1 * d2 =? dim4_0 x * dim4_1 x * dim4_2 x * dim4_3 x)
             RuntimeError ;;
  Ok (mkT3 d0 d1 d2 (fun i j k =>
        let flat := (i * d1 + j) * d2 + k in
        at4 x (flat / (dim4_1 x * dim4_2 x * dim4_3 x))
              ((flat / (dim4_2 x * dim4_3 x)) mod dim4_1 x)
              ((flat / dim4_3 x) mod dim4_2 x)
              (flat mod dim4_3 x))).

(** *** Softmax over the last axis

    [exp] of minus infinity is zero; every entry is divided by the sum
    of the row. *)

Definition score_exp (s : score F) : F :=
  match s with
  | NegInf => fzero
  | Fin x => fexp x
  end.

Definition score_map (f : F -> F) (s : score F) : score F :=
  match s with
  | NegInf => NegInf
  | Fin x => Fin (f x)
  end.

(** Adding an entry of an additive mask to a finite attention weight. *)
Definition add_mask (w : F) (m : score F) : score F :=
  match m with
  | NegInf => NegInf
  | Fin b => Fin (w + b)%fl
  end.

Definition softmax_last (t : T4 (score F)) : T4 F :=
  mkT4 (dim4_0 t) (dim4_1 t) (dim4_2 t) (dim4_3 t) (fun i j k l =>
    (score_exp (at4 t i j k l)
     / sumf (dim4_3 t) (fun c => score_exp (at4 t i j k c)))%fl).

(** *** Python lists and loops *)

Definition list_get {A} (l : list A) (i : nat) : result A :=
  match nth_error l i with
  | Some x => Ok x
  | None => Err IndexError
  end.

(** [for i in xs: s = body(i, s)], stopping at the first exception. *)
Fixpoint for_each {S} (xs : list nat) (body : nat -> S -> result S) (s : S)
  : result S :=
  match xs with
  | [] => Ok s
  | i :: rest => s' <- body i s ;; for_each rest body s'
  end.

(** [range(1, n)]. *)
Definition range1 (n : nat) : list nat := seq 1 (n - 1).

(** *** The objects shared by reference

    [cache_hidden] is a Python list of two lists, shared by reference
    between the caller and the attention layer.  The store maps a
    reference to the (key list, value list) it currently holds; the
    inner lists are only ever replaced, never mutated in place.
    [past_key_values] is a cache object of the transformers library,
    whose state the store holds as well. *)

Definition cache : Type := (list (T4 F) * list (T4 F))%type.
Definition loc : Type := nat.

Record world : Type :=
  mkWorld { caches : list cache; paged : list PagedCache }.

(** Reading and writing the object behind a reference.  A reference
    outside the store does not exist in a Python program; the model
    answers it with an error. *)
Definition read_cache (l : loc) : M world cache :=
  fun h => match nth_error (caches h) l with
           | Some c => (Ok c, h)
           | None => (Err KeyError, h)
           end.

Definition write_cache (l : loc) (c : cache) : M world unit :=
  fun h => (Ok tt, mkWorld (set_nth (caches h) l c) (paged h)).

(** [[[], []]]: a new object, at a reference not in use before. *)
Definition new_cache : M world loc :=
  fun h => (Ok (length (caches h)),
            mkWorld (caches h ++ [([], [])]) (paged h)).

(** Python floor division of non-negative integers. *)
Definition floordiv (a b : nat) : result nat :=
  if b =? 0 then Err ZeroDivisionError else Ok (a / b).

Definition Qwen3RMSNorm_init (size : nat) (eps : F) : Qwen3RMSNorm :=
  mkRMSNorm (mkT1 size (fun _ => fone)) eps.

(** *** Construction *)

Definition Qwen3RotaryEmbedding_init (config : Qwen3Config F)
  : result Qwen3RotaryEmbedding :=
  let rope_type :=
    match rope_scaling config with
    | Some (rope_type, type) =>
        match rope_type with Some r => Some r | None => type end
    | None => Some "default"%string
    end in
  match ROPE_INIT_FUNCTIONS rope_type with
  | None => Err KeyError
  | Some rope_init_fn =>
      let '(inv_freq, attention_scaling) := rope_init_fn config in
      Ok (mkRotary rope_type (max_position_embeddings config)
            (max_position_embeddings config) inv_freq attention_scaling
            inv_freq)
  end.

(** *** Qwen3Attention *)

Record Qwen3Attention : Type := mkAttention {
  attn_hidden_size : nat;
  num_heads : nat;
  attn_num_key_value_heads : nat;
  num_key_value_groups : nat;
  head_dim : nat;
  q_proj : Linear;
  k_proj : Linear;
  v_proj : Linear;
  o_proj : Linear;
  q_norm : Qwen3RMSNorm;
  k_norm : Qwen3RMSNorm;
  rotary_emb : Qwen3RotaryEmbedding
}.

(** The initial values of the four projection matrices. *)
Record AttentionInit : Type := mkAttentionInit {
  init_q : nat -> nat -> F;
  init_k : nat -> nat -> F;
  init_v : nat -> nat -> F;
  init_o : nat -> nat -> F
}.

Definition Qwen3Attention_init (config : Qwen3Config F) (w : AttentionInit)
  : result Qwen3Attention :=
  let hidden := hidden_size config in
  let heads := num_attention_heads config in
  let kv_heads := num_key_value_heads config in
  groups <- floordiv heads kv_heads ;;
  default_head_dim <- floordiv hidden heads ;;
  let hd := match config_head_dim config with
            | Some d => d
            | None => default_head_dim
            end in
  let in_features := hidden * 2 in
  rotary <- Qwen3RotaryEmbedding_init config ;;
  Ok (mkAttention hidden heads kv_heads groups hd
        (mkLinear in_features (heads * hd) (init_q w))
        (mkLinear in_features (kv_heads * hd) (init_k w))
        (mkLinear in_features (kv_heads * hd) (init_v w))
        (mkLinear (heads * hd) hidden (init_o w))
        (Qwen3RMSNorm_init hd (rms_norm_eps config))
        (Qwen3RMSNorm_init hd (rms_norm_eps config))
        rotary).

(** Lines 157-169 of [Qwen3Attention.forward] (and 256-270 of the flex
    variant): project, split into heads, normalise query and key. *)
Definition project_heads (self : Qwen3Attention) (hidden_states : T3 F)
  : result (T4 F * T4 F * T4 F) :=
  let bsz := dim3_0 hidden_states in
  let q_len := dim3_1 hidden_states in
  query_states <- Linear_forward (q_proj self) hidden_states ;;
  key_states <- Linear_forward (k_proj self) hidden_states ;;
  value_states <- Linear_forward (v_proj self) hidden_states ;;
  query_states <- view4 bsz q_len (num_heads self) (head_dim self)
                        query_states ;;
  let query_states := transpose12 query_states in
  key_states <- view4 bsz q_len (attn_num_key_value_heads self)
                      (head_dim self) key_states ;;
  let key_states := transpose12 key_states in
  value_states <- view4 bsz q_len (attn_num_key_value_heads self)
                        (head_dim self) value_states ;;
  let value_states := transpose12 value_states in
  query_states <- Qwen3RMSNorm_forward4 (q_norm self) query_states ;;
  key_states <- Qwen3RMSNorm_forward4 (k_norm self) key_states ;;
  Ok (query_states, key_states, value_states).

(** [position_ids + lck]. *)
Definition add_offset (position_ids : T2 Z) (lck : nat) : T2 Z :=
  mkT2 (rows2 position_ids) (cols2 position_ids)
       (fun b t => (at2 position_ids b t + Z.of_nat lck)%Z).

(** Rotary tables at [position_ids], applied to query and key. *)
Definition rotate (self : Qwen3Attention) (query_states key_states : T4 F)
    (position_ids : T2 Z) : result (T4 F * T4 F) :=
  '(cos, sin) <- Qwen3RotaryEmbedding_forward (rotary_emb self)
                   position_ids ;;
  apply_rotary_pos_emb query_states key_states cos sin.

(** An integer rank-2 mask as an operand of a rank-4 float addition:
    aligned on the right, promoted to float. *)
Definition as_additive (m : mask F) : T4 (score F) :=
  match m with
  | AdditiveMask m => m
  | PaddingMask m =>
      mkT4 1 1 (rows2 m) (cols2 m) (fun _ _ i j => Fin (of_int (at2 m i j)))
  end.

(** [self.head_dim ** 0.5]. *)
Definition sqrt_head_dim (self : Qwen3Attention) : F :=
  fsqrt (of_int (Z.of_nat (head_dim self))).

(** [torch.nn.functional.scaled_dot_product_attention] without dropout,
    as torch documents it: [softmax(q k^T * scale + bias) v] with
    [scale = 1 / sqrt(E)]; the bias is the additive mask, or the lower
    triangular causal pattern when [is_causal]. *)
Definition scaled_dot_product_attention (query key value : T4 F)
    (attn_mask : option (T4 (score F))) (is_causal : bool)
  : result (T4 F) :=
  let scale := (fone / fsqrt (of_int (Z.of_nat (dim4_3 query))))%fl in
  attn_weight <- matmul4 query (transpose23 key) ;;
  let attn_weight := map4 (fun x => x * scale)%fl attn_weight in
  attn_bias <-
    (if is_causal then
       match attn_mask with
       | Some _ => Err AssertionError
       | None =>
           Ok (mkT4 1 1 (dim4_2 query) (dim4_2 key) (fun _ _ t c =>
                 if c <=? t then Fin fzero else NegInf))
       end
     else
       match attn_mask with
       | Some m => Ok m
       | None =>
           Ok (mkT4 1 1 (dim4_2 query) (dim4_2 key)
                 (fun _ _ _ _ => Fin fzero))
       end) ;;
  attn_weight <- bin4 add_mask attn_weight attn_bias ;;
  let attn_weight := softmax_last attn_weight in
  matmul4 attn_weight value.

(** Lines 200-228: attention over the accumulated cache. *)
Definition cached_attention (self : Qwen3Attention) (query_states : T4 F)
    (cache_k cache_v : list (T4 F))
    (attention_mask : option (mask F)) (q_len : nat)
  : result (T4 F) :=
  k0 <- list_get cache_k 0 ;;
  v0 <- list_get cache_v 0 ;;
  attn_weights <- matmul4 query_states (transpose23 k0) ;;
  let attn_weights :=
    map4 (fun x => x / sqrt_head_dim self)%fl attn_weights in
  let lck := length cache_k in
  attention_mask <- match attention_mask with
                    | Some m => Ok (as_additive m)
                    | None => Err TypeError
                    end ;;
  attn_weights <- bin4 add_mask attn_weights attention_mask ;;
  attn_weights <-
    for_each (range1 lck) (fun i attn_weights =>
      ki <- list_get cache_k i ;;
      let qi := query_states in
      let kiq := ki in
      prod <- bin4 fmul qi kiq ;;
      let attn_weightsi :=
        map3 (fun x => x / sqrt_head_dim self)%fl (sum_last prod) in
      cat4_last attn_weights (map4 Fin (unsqueeze_last attn_weightsi)))
      attn_weights ;;
  let attn_weights :=
    map4 to_dtype
         (softmax_last (map4 (score_map to_float32) attn_weights)) in
  let attn_weights0 := slice_last_to q_len attn_weights in
  attn_output <- matmul4 attn_weights0 v0 ;;
  for_each (range1 lck) (fun i attn_output =>
    vi <- list_get cache_v i ;;
    attn_weightsi <- index_last (q_len + i - 1) attn_weights ;;
    attn_outputi <- bin4 fmul (unsqueeze_last attn_weightsi) vi ;;
    bin4 fadd attn_output attn_outputi)
    attn_output.

(** Lines 230-232: merge the heads and project. *)
Definition merge_heads (self : Qwen3Attention) (bsz q_len : nat)
    (attn_output : T4 F) : result (T3 F) :=
  let attn_output := transpose12 attn_output in
  attn_output <- reshape3 bsz q_len (head_dim self * num_heads self)
                          attn_output ;;
  Linear_forward (o_proj self) attn_output.

(** Lines 172-187: the branch without a cache. *)
Definition attention_without_cache (self : Qwen3Attention)
    (query_states key_states value_states : T4 F)
    (attention_mask : option (mask F)) (position_ids : option (T2 Z))
  : result (T4 F) :=
  position_ids <- match position_ids with
                  | Some p => Ok p
                  | None => Err AttributeError
                  end ;;
  '(query_states, key_states) <-
     rotate self query_states key_states position_ids ;;
  let key_states := repeat_kv key_states (num_key_value_groups self) in
  let value_states := repeat_kv value_states (num_key_value_groups self) in
  match attention_mask with
  | None =>
      scaled_dot_product_attention query_states key_states value_states
        None true
  | Some (AdditiveMask m) =>
      scaled_dot_product_attention query_states key_states value_states
        (Some m) false
  | Some (PaddingMask _) =>
      (* an integer mask is neither boolean nor of the query dtype *)
      Err RuntimeError
  end.

(** Lines 189-228: the branch that accumulates into [cache_hidden]. *)
Definition attention_with_cache (self : Qwen3Attention)
    (query_states key_states value_states : T4 F) (cache_hidden : loc)
    (attention_mask : option (mask F)) (position_ids : option (T2 Z))
    (q_len : nat) : M world (T4 F) :=
  '(keys, values) <~ read_cache cache_hidden ;;
  let lck := length keys in
  position_ids <~ liftM match position_ids with
                        | Some p => Ok (add_offset p lck)
                        | None => Err TypeError
                        end ;;
  '(query_states, key_states) <~
     liftM (rotate self query_states key_states position_ids) ;;
  let key_states := repeat_kv key_states (num_key_value_groups self) in
  let value_states := repeat_kv value_states (num_key_value_groups self) in
  _ <~ write_cache cache_hidden
         (keys ++ [key_states], values ++ [value_states]) ;;
  '(cache_k, cache_v) <~ read_cache cache_hidden ;;
  liftM (cached_attention self query_states cache_k cache_v
           attention_mask q_len).

Definition Qwen3Attention_forward (self : Qwen3Attention)
    (hidden_states : T3 F) (cache_hidden : option loc)
    (attention_mask : option (mask F))
    (position_ids : option (T2 Z)) : M world (T3 F) :=
  let bsz := dim3_0 hidden_states in
  let q_len := dim3_1 hidden_states in
  '(query_states, key_states, value_states) <~
     liftM (project_heads self hidden_states) ;;
  attn_output <~
    match cache_hidden with
    | None =>
        liftM (attention_without_cache self query_states key_states
                 value_states attention_mask position_ids)
    | Some cache_hidden =>
        attention_with_cache self query_states key_states value_states
          cache_hidden attention_mask position_ids q_len
    end ;;
  liftM (merge_heads self bsz q_len attn_output).

(** *** Qwen3FlexAttention

    The transformers cache, the mask generator of
    [specforge.modeling.draft.flex_attention] and the flex attention
    kernels are collaborators outside this file. *)

Definition read_paged (l : loc) : M world PagedCache :=
  fun h => match nth_error (paged h) l with
           | Some c => (Ok c, h)
           | None => (Err KeyError, h)
           end.

Definition write_paged (l : loc) (c : PagedCache) : M world unit :=
  fun h => (Ok tt, mkWorld (caches h) (set_nth (paged h) l c)).

Fixpoint sumZ (n : nat) (f : nat -> Z) : Z :=
  match n with
  | O => 0%Z
  | S k => (sumZ k f + f k)%Z
  end.

Definition score_add (a b : score F) : score F :=
  match a, b with
  | Fin x, Fin y => Fin (x + y)%fl
  | _, _ => NegInf
  end.

Fixpoint sum_scores (n : nat) (f : nat -> score F) : score F :=
  match n with
  | O => Fin fzero
  | S k => score_add (sum_scores k f) (f k)
  end.

(** [seq_lengths = attention_mask.sum(dim=-1); seq_lengths -= lck]. *)
Definition seq_lengths_of (attention_mask : mask F) (lck : nat) : lengths F :=
  match attention_mask with
  | PaddingMask m =>
      Lengths1 (mkT1 (rows2 m) (fun b =>
        (sumZ (cols2 m) (fun t => at2 m b t) - Z.of_nat lck)%Z))
  | AdditiveMask m =>
      Lengths3 (mkT3 (dim4_0 m) (dim4_1 m) (dim4_2 m) (fun i j k =>
        score_map (fun x => x + - of_int (Z.of_nat lck))%fl
                  (sum_scores (dim4_3 m) (fun c => at4 m i j k c))))
  end.

Definition Qwen3FlexAttention_forward (self : Qwen3Attention)
    (hidden_states : T3 F) (attention_mask : option (mask F))
    (position_ids : option (T2 Z)) (past_key_values : option loc)
  : M world (T3 F) :=
  let bsz := dim3_0 hidden_states in
  let q_len := dim3_1 hidden_states in
  past_seen_tokens <~
    match past_key_values with
    | Some p => c <~ read_paged p ;; retM (get_seq_length c)
    | None => retM 0
    end ;;
  '(query_states, key_states, value_states) <~
     liftM (project_heads self hidden_states) ;;
  lck <~ liftM (floordiv past_seen_tokens q_len) ;;
  position_ids <~ liftM match position_ids with
                        | Some p => Ok (add_offset p lck)
                        | None => Err TypeError
                        end ;;
  '(cos, sin) <~ liftM (Qwen3RotaryEmbedding_forward (rotary_emb self)
                          position_ids) ;;
  '(query_states, key_states) <~
     liftM (apply_rotary_pos_emb query_states key_states cos sin) ;;
  let cache_position :=
    mkT1 q_len (fun i => Z.of_nat (past_seen_tokens + i)) in
  let cache_kwargs := mkCacheKwargs sin cos cache_position in
  '(key_cache, value_cache) <~
    match past_key_values with
    | Some p =>
        c <~ read_paged p ;;
        let '(kv, c') :=
          cache_update c key_states value_states 0 cache_kwargs in
        _ <~ write_paged p c' ;;
        retM kv
    | None => liftM (Err AttributeError)
    end ;;
  attention_mask <~ liftM match attention_mask with
                          | Some m => Ok m
                          | None => Err AttributeError
                          end ;;
  let seq_lengths := seq_lengths_of attention_mask lck in
  let '(create_block_mask_func, flex_attention_func) :=
    if q_len <=? 128
    then (create_block_mask, flex_attention)
    else (compile_friendly_create_block_mask,
          compile_friendly_flex_attention) in
  block_mask <~ liftM
    (create_block_mask_func
       (generate_eagle3_mask seq_lengths q_len (dim4_2 key_cache) lck)
       bsz 1 q_len (dim4_2 key_cache)) ;;
  attn_output <~ liftM
    (flex_attention_func query_states key_cache value_cache block_mask
                         true) ;;
  liftM (merge_heads self bsz q_len attn_output).

(** *** Qwen3MLP

    The activation is a function on tensors: [F.silu] works entry by
    entry, but [getattr(F, hidden_act)] is whatever attribute of
    [torch.nn.functional] has that name, which may raise, change the
    shape or mix positions. *)

Record Qwen3MLP : Type := mkMLP {
  gate_proj : Linear;
  up_proj : Linear;
  down_proj : Linear;
  act_fn : T3 F -> result (T3 F)
}.

Definition Qwen3MLP_init (config : Qwen3Config F)
    (w_gate w_up w_down : nat -> nat -> F) : result Qwen3MLP :=
  act <- (if String.eqb (hidden_act config) "silu"
          then Ok (fun t => Ok (map3 F_silu t))
          else match F_getattr (hidden_act config) with
               | Some f => Ok f
               | None => Err AttributeError
               end) ;;
  Ok (mkMLP
        (mkLinear (hidden_size config) (intermediate_size config) w_gate)
        (mkLinear (hidden_size config) (intermediate_size config) w_up)
        (mkLinear (intermediate_size config) (hidden_size config) w_down)
        act).

Definition Qwen3MLP_forward (self : Qwen3MLP) (x : T3 F) : result (T3 F) :=
  g <- Linear_forward (gate_proj self) x ;;
  a <- act_fn self g ;;
  u <- Linear_forward (up_proj self) x ;;
  gu <- bin3 fmul a u ;;
  Linear_forward (down_proj self) gu.

(** An activation that works entry by entry, as [F.silu], [F.gelu] or
    [F.relu] do: it returns a tensor of the shape of its argument whose
    entries are [f] of the argument's. *)
Definition acts_entrywise (act : T3 F -> result (T3 F)) (f : F -> F) : Prop :=
  forall t, exists y,
    act t = Ok y
    /\ shape3 y = shape3 t
    /\ forall i j k, i < dim3_0 t -> j < dim3_1 t -> k < dim3_2 t ->
         at3 y i j k = f (at3 t i j k).

Definition entrywise (act : T3 F -> result (T3 F)) : Prop :=
  exists f, acts_entrywise act f.

(** *** Qwen3DecoderLayer *)

(** The attention backend a layer holds. *)
Inductive backend : Type :=
| StandardAttention (attn : Qwen3Attention)
| BlockSparseAttention (attn : Qwen3Attention).

Record Qwen3DecoderLayer : Type := mkDecoderLayer {
  layer_hidden_size : nat;
  self_attn : backend;
  mlp : Qwen3MLP;
  hidden_norm : Qwen3RMSNorm;
  input_layernorm : Qwen3RMSNorm;
  post_attention_layernorm : Qwen3RMSNorm
}.

Record LayerInit : Type := mkLayerInit {
  init_attn : AttentionInit;
  init_gate : nat -> nat -> F;
  init_up : nat -> nat -> F;
  init_down : nat -> nat -> F
}.

Definition Qwen3DecoderLayer_init (config : Qwen3Config F)
    (attention_backend : string) (w : LayerInit)
  : result Qwen3DecoderLayer :=
  attn <-
    (if String.eqb attention_backend "sdpa" then
       a <- Qwen3Attention_init config (init_attn w) ;;
       Ok (StandardAttention a)
     else if String.eqb attention_backend "flex_attention" then
       a <- Qwen3Attention_init config (init_attn w) ;;
       Ok (BlockSparseAttention a)
     else
       Err (ValueError ("Unknown attention backend " ++ attention_backend))) ;;
  mlp <- Qwen3MLP_init config (init_gate w) (init_up w) (init_down w) ;;
  Ok (mkDecoderLayer (hidden_size config) attn mlp
        (Qwen3RMSNorm_init (hidden_size config) (rms_norm_eps config))
        (Qwen3RMSNorm_init (hidden_size config) (rms_norm_eps config))
        (Qwen3RMSNorm_init (hidden_size config) (rms_norm_eps config))).

Definition self_attn_forward (attn : backend) (hidden_states : T3 F)
    (cache_hidden : option loc) (attention_mask : option (mask F))
    (position_ids : option (T2 Z)) (past_key_values : option loc)
  : M world (T3 F) :=
  match attn with
  | StandardAttention a =>
      Qwen3Attention_forward a hidden_states cache_hidden attention_mask
                             position_ids
  | BlockSparseAttention a =>
      Qwen3FlexAttention_forward a hidden_states attention_mask
                                 position_ids past_key_values
  end.

Definition Qwen3DecoderLayer_forward (self : Qwen3DecoderLayer)
    (input_emb hidden_states : T3 F) (cache_hidden : option loc)
    (attention_mask : option (mask F)) (position_ids : option (T2 Z))
    (past_key_values : option loc) : M world (T3 F) :=
  let residual := hidden_states in
  hidden_states <~
    liftM (Qwen3RMSNorm_forward3 (hidden_norm self) hidden_states) ;;
  input_emb <~
    liftM (Qwen3RMSNorm_forward3 (input_layernorm self) input_emb) ;;
  hidden_states <~ liftM (cat3_last input_emb hidden_states) ;;
  hidden_states <~
    self_attn_forward (self_attn self) hidden_states cache_hidden
                      attention_mask position_ids past_key_values ;;
  hidden_states <~ liftM (bin3 fadd residual hidden_states) ;;
  let residual := hidden_states in
  liftM (
    hidden_states <-
      Qwen3RMSNorm_forward3 (post_attention_layernorm self) hidden_states ;;
    hidden_states <- Qwen3MLP_forward (mlp self) hidden_states ;;
    bin3 fadd residual hidden_states).

(** *** Qwen3ForCausalLMEagle3 *)

Record Qwen3ForCausalLMEagle3 : Type := mkEagle3 {
  config : Qwen3Config F;
  midlayer : Qwen3DecoderLayer;
  fc : Linear;
  norm : Qwen3RMSNorm;
  lm_head : Linear
}.

Record ModelInit : Type := mkModelInit {
  init_layer : LayerInit;
  init_fc : nat -> nat -> F;
  init_lm_head : nat -> nat -> F
}.

Definition Qwen3ForCausalLMEagle3_init (config : Qwen3Config F)
    (attention_backend : string) (w : ModelInit)
  : result Qwen3ForCausalLMEagle3 :=
  midlayer <- Qwen3DecoderLayer_init config attention_backend
                (init_layer w) ;;
  let fc :=
    match target_hidden_size config with
    | Some target => mkLinear (target * 3) (hidden_size config) (init_fc w)
    | None =>
        mkLinear (hidden_size config * 3) (hidden_size config) (init_fc w)
    end in
  Ok (mkEagle3 config midlayer fc
        (Qwen3RMSNorm_init (hidden_size config) (rms_norm_eps config))
        (mkLinear (hidden_size config) (draft_vocab_size config)
                  (init_lm_head w))).

(** Lines 414-419: no cache for a single step, a new empty one else. *)
Definition make_cache_hidden (ttt_length : Z) : M world (option loc) :=
  if (ttt_length =? 1)%Z
  then retM None
  else l <~ new_cache ;; retM (Some l).

Definition Qwen3ForCausalLMEagle3_forward (self : Qwen3ForCausalLMEagle3)
    (hidden_states inputs_embeds : T3 F)
    (attention_mask : option (T2 bool)) (ttt_length : Z)
  : M world (T3 F) :=
  cache_hidden <~ make_cache_hidden ttt_length ;;
  let batch_size := dim3_0 hidden_states in
  let seq_length := dim3_1 hidden_states in
  (* [arange(0, seq_length).unsqueeze(0).view(-1, seq_length)]: the
     view is ambiguous for an empty sequence *)
  _ <~ liftM (guard (negb (seq_length =? 0)) RuntimeError) ;;
  let position_ids := mkT2 1 seq_length (fun _ t => Z.of_nat t) in
  let attention_mask :=
    match attention_mask with
    | Some m => m
    | None => mkT2 batch_size seq_length (fun _ _ => true)
    end in
  attention_mask <~
    liftM (prepare_decoder_attention_mask attention_mask hidden_states
             batch_size seq_length 0) ;;
  hidden_states <~ liftM (Linear_forward (fc self) hidden_states) ;;
  hidden_states <~
    Qwen3DecoderLayer_forward (midlayer self) inputs_embeds hidden_states
      cache_hidden (Some attention_mask) (Some position_ids) None ;;
  liftM (Qwen3RMSNorm_forward3 (norm self) hidden_states).

Definition project_hidden_states (self : Qwen3ForCausalLMEagle3)
    (hidden_states : T3 F) : result (T3 F) :=
  _ <- guard (dim3_2 hidden_states =? hidden_size (config self) * 3)
             AssertionError ;;
  Linear_forward (fc self) hidden_states.

Definition compute_logits (self : Qwen3ForCausalLMEagle3)
    (hidden_states : T3 F) : result (T3 F) :=
  norm_hidden_states <- Qwen3RMSNorm_forward3 (norm self) hidden_states ;;
  Linear_forward (lm_head self) norm_hidden_states.

Definition backbone (self : Qwen3ForCausalLMEagle3)
    (input_embeds hidden_states : T3 F) (cache_hidden : option loc)
    (attention_mask : option (mask F)) (position_ids : option (T2 Z))
    (past_key_values : option loc) : M world (T3 F) :=
  Qwen3DecoderLayer_forward (midlayer self) input_embeds hidden_states
    cache_hidden attention_mask position_ids past_key_values.

End Model.

Arguments Linear : clear implicits.
Arguments Qwen3RMSNorm : clear implicits.
Arguments Qwen3RotaryEmbedding : clear implicits.
Arguments Qwen3Attention : clear implicits.
Arguments AttentionInit : clear implicits.
Arguments Qwen3MLP : clear implicits.
Arguments backend : clear implicits.
Arguments Qwen3DecoderLayer : clear implicits.
Arguments LayerInit : clear implicits.
Arguments Qwen3ForCausalLMEagle3 : clear implicits.
Arguments ModelInit : clear implicits.


(** ** Rollouts

    A rollout is a sequence of calls of the attention layer in
    cache-accumulation mode, all on the same cache. *)

Section Rollout.

Context {F : Type} {SF : Scalar F} {EX : Collaborators F}.

Fixpoint rollout (self : Qwen3Attention F) (steps : list (T3 F))
    (cache_hidden : loc) (attention_mask : option (mask F))
    (position_ids : option (T2 Z)) : M world (list (T3 F)) :=
  match steps with
  | [] => retM []
  | hidden_states :: rest =>
      out <~ Qwen3Attention_forward self hidden_states (Some cache_hidden)
               attention_mask position_ids ;;
      outs <~ rollout self rest cache_hidden attention_mask position_ids ;;
      retM (out :: outs)
  end.

End Rollout.

(** ** The attention over the cache, as the specification words it

    Entry by entry: the weights of step 0 are query times key-0
    transposed, scaled, plus the mask; step [i >= 1] contributes one
    weight per query position, the scaled dot product of the query with
    key [i] at that position; one softmax in float32 over all of them,
    cast back; the output is the first [q_len] weights times value-0
    plus, for each step [i >= 1], its weight times value [i]. *)

Section CachedAttentionSpec.

Context {F : Type} {SF : Scalar F}.

Definition empty4 : T4 F := mkT4 0 0 0 0 (fun _ _ _ _ => fzero).

Definition spec_dot (d : nat) (x y : nat -> F) : F :=
  sumf d (fun e => x e * y e)%fl.

Definition spec_scores (self : Qwen3Attention F) (q : T4 F)
    (cache_k : list (T4 F)) (m : T4 (score F)) (q_len : nat)
    (b h t c : nat) : score F :=
  if c <? q_len then
    add_mask
      (spec_dot (dim4_3 q) (at4 q b h t) (at4 (nth 0 cache_k empty4) b h c)
       / sqrt_head_dim self)%fl
      (at4 m (bidx (dim4_0 m) b) (bidx (dim4_1 m) h)
             (bidx (dim4_2 m) t) (bidx (dim4_3 m) c))
  else
    Fin (spec_dot (dim4_3 q) (at4 q b h t)
           (at4 (nth (c - q_len + 1) cache_k empty4) b h t)
         / sqrt_head_dim self)%fl.

Definition spec_weights (self : Qwen3Attention F) (q : T4 F)
    (cache_k : list (T4 F)) (m : T4 (score F)) (q_len : nat)
    (b h t c : nat) : F :=
  let e := fun c =>
    score_exp (score_map to_float32
                 (spec_scores self q cache_k m q_len b h t c)) in
  to_dtype (e c / sumf (q_len + (length cache_k - 1)) e)%fl.

Definition spec_cached_attention (self : Qwen3Attention F) (q : T4 F)
    (cache_k cache_v : list (T4 F)) (m : T4 (score F)) (q_len : nat)
  : T4 F :=
  mkT4 (dim4_0 q) (dim4_1 q) q_len (dim4_3 q) (fun b h t e =>
    let w := spec_weights self q cache_k m q_len b h t in
    fold_left
      (fun acc i => (acc + w (q_len + i - 1)
                           * at4 (nth i cache_v empty4) b h t e)%fl)
      (range1 (length cache_k))
      (sumf q_len (fun c => w c * at4 (nth 0 cache_v empty4) b h c e)%fl)).

(** One dimension of a mask that broadcasts to size [d]. *)
Definition broadcasts_to (size d : nat) : Prop := size = d \/ size = 1.

End CachedAttentionSpec.

(** ** Rotating there and back

    Apply the rotary embedding to [x], then apply it to the result with
    the sine table negated. *)

Section RotaryRoundTrip.

Context {F : Type} {SF : Scalar F}.

Definition rotary_round_trip (rotary : Qwen3RotaryEmbedding F)
    (position_ids : T2 Z) (x : T4 F) : result (T4 F) :=
  '(cos, sin) <- Qwen3RotaryEmbedding_forward rotary position_ids ;;
  '(y, _) <- apply_rotary_pos_emb x x cos sin ;;
  '(z, _) <- apply_rotary_pos_emb y y cos (map3 fneg sin) ;;
  Ok z.

(** The angle of the rotary tables at a position and a column. *)
Definition rotary_angle (rotary : Qwen3RotaryEmbedding F)
    (position_ids : T2 Z) (b t c : nat) : F :=
  let l := if c <? len1 (inv_freq rotary) then c
           else c - len1 (inv_freq rotary) in
  sumf 1 (fun _ =>
    to_float32 (to_float32 (at1 (inv_freq rotary) l))
    * to_float32 (to_float32 (of_int (at2 position_ids b t))))%fl.

(** One rotated entry. *)
Definition rotated_entry (x : T4 F) (cos sin : T3 F) (pb L : nat)
    (i j t l : nat) : F :=
  (at4 x i j t l * at3 cos (bidx pb i) t l
   + (if l <? L then - at4 x i j t (l + L) else at4 x i j t (l - L))
     * at3 sin (bidx pb i) t l)%fl.

End RotaryRoundTrip.

(** ** One rollout of single-token steps against one causal pass *)

(** Arithmetic without rounding: what the exact comparison of two
    differently ordered floating computations takes for granted. *)
Class ExactScalar (F : Type) {SF : Scalar F} : Prop := {
  add_zero_r : forall x : F, (x + fzero)%fl = x;
  mul_zero_l : forall x : F, (fzero * x)%fl = fzero;
  div_zero_l : forall x : F, (fzero / x)%fl = fzero;
  mul_recip : forall x y : F, (x * (fone / y))%fl = (x / y)%fl;
  float32_exact : forall x : F, to_float32 x = x;
  dtype_exact : forall x : F, to_dtype x = x
}.

Arguments ExactScalar F {SF}.

Section SingleTokenRollout.

Context {F : Type} {SF : Scalar F}.

(** [x[:, i:i+1, :]]: the fused hidden state of token [i]. *)
Definition token (x : T3 F) (i : nat) : T3 F :=
  mkT3 (dim3_0 x) 1 (dim3_2 x) (fun b _ c => at3 x b i c).

Definition tokens (x : T3 F) : list (T3 F) :=
  map (token x) (seq 0 (dim3_1 x)).

(** [arange(base, base + n)] as a batch of one row of position ids. *)
Definition arange_positions (base : Z) (n : nat) : T2 Z :=
  mkT2 1 n (fun _ t => (base + Z.of_nat t)%Z).

(** The additive causal mask of [n] positions. *)
Definition causal_mask (bsz n : nat) : mask F :=
  AdditiveMask (mkT4 bsz 1 n n (fun _ _ t c =>
                  if c <=? t then Fin fzero else NegInf)).

(** [torch.cat((a, b), dim=1)] and [torch.cat(ts, dim=1)]. *)
Definition cat3_middle {A} (a b : T3 A) : result (T3 A) :=
  if (dim3_0 a =? dim3_0 b) && (dim3_2 a =? dim3_2 b)
  then Ok (mkT3 (dim3_0 a) (dim3_1 a + dim3_1 b) (dim3_2 a)
             (fun i j k => if j <? dim3_1 a then at3 a i j k
                           else at3 b i (j - dim3_1 a) k))
  else Err RuntimeError.

Fixpoint cat_onto {A} (acc : T3 A) (ts : list (T3 A)) : result (T3 A) :=
  match ts with
  | [] => Ok acc
  | t :: rest => acc' <- cat3_middle acc t ;; cat_onto acc' rest
  end.

Definition cat_dim1 {A} (ts : list (T3 A)) : result (T3 A) :=
  match ts with
  | [] => Err RuntimeError
  | t :: rest => cat_onto t rest
  end.

(** The sizes of the submodules fit together the way
    [Qwen3Attention.__init__] builds them, for an even head_dim that
    the rotary tables cover and a number of heads that the key/value
    heads divide. *)
Record attention_well_shaped (self : Qwen3Attention F) : Prop := {
  k_proj_in : in_features (k_proj self) = in_features (q_proj self);
  v_proj_in : in_features (v_proj self) = in_features (q_proj self);
  q_proj_out : out_features (q_proj self) = num_heads self * head_dim self;
  k_proj_out :
    out_features (k_proj self)
    = attn_num_key_value_heads self * head_dim self;
  v_proj_out :
    out_features (v_proj self)
    = attn_num_key_value_heads self * head_dim self;
  o_proj_in : in_features (o_proj self) = head_dim self * num_heads self;
  q_norm_len : len1 (norm_weight (q_norm self)) = head_dim self;
  k_norm_len : len1 (norm_weight (k_norm self)) = head_dim self;
  rotary_covers :
    head_dim self
    = len1 (inv_freq (rotary_emb self)) + len1 (inv_freq (rotary_emb self));
  heads_grouped :
    num_heads self
    = attn_num_key_value_heads self * num_key_value_groups self
}.

(** An entry of a linear layer applied to one row, and of a projected
    and normalised head of that row. *)
Definition linear_entry (m : Linear F) (row : nat -> F) (o : nat) : F :=
  sumf (in_features m) (fun c => row c * weight m o c)%fl.

Definition normed_head (m : Linear F) (nrm : Qwen3RMSNorm F) (hd : nat)
    (row : nat -> F) (h c : nat) : F :=
  (at1 (norm_weight nrm) c
   * rms_entry nrm hd (fun c' => linear_entry m row (h * hd + c')) c)%fl.

Definition empty3 : T3 F := mkT3 0 0 0 (fun _ _ _ => fzero).

(** The output projection applied to the merged heads of an attention
    output given entry by entry. *)
Definition projected_entry (self : Qwen3Attention F)
    (a : nat -> nat -> nat -> nat -> F) (b t o : nat) : F :=
  sumf (head_dim self * num_heads self) (fun c =>
    a b (c / head_dim self)%nat t (c mod head_dim self)%nat
    * weight (o_proj self) o c)%fl.

(** The list [entries] holds, one token per entry, the first [i]
    positions of the sequence tensor [whole]. *)
Definition cache_matches (self : Qwen3Attention F) (B i : nat)
    (entries : list (T4 F)) (whole : T4 F) : Prop :=
  length entries = i
  /\ Forall (fun t => shape4 t = (B, num_heads self, 1, head_dim self))
            entries
  /\ forall j b h c,
       j < i -> b < B -> h < num_heads self -> c < head_dim self ->
       at4 (nth j entries empty4) b h 0 c = at4 whole b h j c.

(** An entry of [x] rotated by the tables of [position_ids]. *)
Definition rotary_value (rotary : Qwen3RotaryEmbedding F)
    (position_ids : T2 Z) (x : T4 F) (i j t l : nat) : F :=
  let a := rotary_angle rotary position_ids
             (bidx (rows2 position_ids) i) t l in
  let L := len1 (inv_freq rotary) in
  (at4 x i j t l * to_dtype (fcos a * attention_scaling rotary)
   + (if l <? L then - at4 x i j t (l + L) else at4 x i j t (l - L))
     * to_dtype (fsin a * attention_scaling rotary))%fl.

(** The row of attention weights of the pass without cache, and its
    output entry: the softmax of the masked scaled scores, times the
    values. *)
Definition sdpa_score (q k : T4 F) (m : T4 (score F)) (b h t c : nat)
  : score F :=
  add_mask
    (sumf (dim4_3 q) (fun e => at4 q b h t e * at4 k b h c e)
     * (fone / fsqrt (of_int (Z.of_nat (dim4_3 q)))))%fl
    (at4 m (bidx (dim4_0 m) b) (bidx (dim4_1 m) h)
           (bidx (dim4_2 m) t) (bidx (dim4_3 m) c)).

Definition sdpa_entry (q k v : T4 F) (m : T4 (score F)) (b h t e : nat)
  : F :=
  sumf (dim4_2 k) (fun c =>
    score_exp (sdpa_score q k m b h t c)
    / sumf (dim4_2 k) (fun c' => score_exp (sdpa_score q k m b h t c'))
    * at4 v b h c e)%fl.

End SingleTokenRollout.

(** ** Freshly allocated caches *)

Section FreshCache.

Context {F : Type} {SF : Scalar F} {EX : Collaborators F}.


End FreshCache.

(** ** The JSONL sampler *)

(** Python's [random] module and [json.loads], as the sampler uses
    them: a generator state set by [random.seed], [random.randint(a, b)]
    drawing from it, and whether a line parses as JSON. *)
Class SamplerEnv : Type := {
  rng : Type;
  random_seed : Z -> rng;
  random_randint : Z -> Z -> rng -> Z * rng;
  json_loads_ok : string -> bool
}.

Section Sampler.

Context {ENV : SamplerEnv}.

(** [iter_lines]: the lines of the file with their 1-based position. *)
Definition iter_lines (file : list string) : list (nat * string) :=
  combine (seq 1 (length file)) file.

Definition validate_jsonl_line (raw_line : string) : bool :=
  json_loads_ok raw_line.

(** [l[i] = x] for a Python list: negative indices count from the end,
    anything outside raises. *)
Definition list_assign {A} (l : list A) (i : Z) (x : A) : result (list A) :=
  let n := Z.of_nat (length l) in
  if (0 <=? i)%Z && (i <? n)%Z then Ok (set_nth l (Z.to_nat i) x)
  else if (- n <=? i)%Z && (i <? 0)%Z then Ok (set_nth l (Z.to_nat (n + i)) x)
  else Err IndexError.

Record sampler : Type := mkSampler {
  reservoir : list (nat * string);
  valid_seen : Z;
  total_seen : Z;
  generator : rng
}.

(** One iteration of the loop at lines 51-62. *)
Definition sample_step (sample_size : Z) (validate : bool)
    (st : sampler) (item : nat * string) : result sampler :=
  let '(pos, raw) := item in
  let total_seen := (total_seen st + 1)%Z in
  if validate && negb (validate_jsonl_line raw) then
    Ok (mkSampler (reservoir st) (valid_seen st) total_seen (generator st))
  else
    let valid_seen := (valid_seen st + 1)%Z in
    if (Z.of_nat (length (reservoir st)) <? sample_size)%Z then
      Ok (mkSampler (reservoir st ++ [(pos, raw)]) valid_seen total_seen
            (generator st))
    else
      let '(j, g) := random_randint 1 valid_seen (generator st) in
      if (j <=? sample_size)%Z then
        r <- list_assign (reservoir st) (j - 1) (pos, raw) ;;
        Ok (mkSampler r valid_seen total_seen g)
      else
        Ok (mkSampler (reservoir st) valid_seen total_seen g).

Fixpoint sample_loop (sample_size : Z) (validate : bool)
    (items : list (nat * string)) (st : sampler) : result sampler :=
  match items with
  | [] => Ok st
  | item :: rest =>
      st' <- sample_step sample_size validate st item ;;
      sample_loop sample_size validate rest st'
  end.

(** [list.sort(key=lambda x: x[0])]: a stable sort on the position. *)
Fixpoint insert_by_pos (x : nat * string) (l : list (nat * string))
  : list (nat * string) :=
  match l with
  | [] => [x]
  | y :: t => if fst x <=? fst y then x :: y :: t
              else y :: insert_by_pos x t
  end.

Definition sort_by_pos (l : list (nat * string)) : list (nat * string) :=
  fold_right insert_by_pos [] l.

(** [sample_fixed_size]: the lines written to the output file, in the
    order of the writes, and the two counters returned. *)
Definition sample_fixed_size (input : list string) (sample_size : Z)
    (seed : Z) (validate : bool) : result (list string * (Z * Z)) :=
  let g := random_seed seed in
  st <- sample_loop sample_size validate (iter_lines input)
          (mkSampler [] 0 0 g) ;;
  let reservoir := sort_by_pos (reservoir st) in
  Ok (map snd reservoir, (total_seen st, valid_seen st)).

(** The lines the sampler takes into account. *)
Definition valid_lines (validate : bool) (input : list string) : list string :=
  filter (fun raw => negb (validate && negb (validate_jsonl_line raw))) input.

(** The processed items that count as valid. *)
Definition valid_items (validate : bool) (items : list (nat * string))
  : list (nat * string) :=
  filter (fun it => negb (validate && negb (validate_jsonl_line (snd it))))
         items.

(** What holds of the sampler state once the items [done] went by. *)
Definition sampler_invariant (sample_size : Z) (validate : bool)
    (done : list (nat * string)) (st : sampler) : Prop :=
  total_seen st = Z.of_nat (length done)
  /\ valid_seen st = Z.of_nat (length (valid_items validate done))
  /\ length (reservoir st)
     = Nat.min (Z.to_nat sample_size) (length (valid_items validate done))
  /\ incl (reservoir st) (valid_items validate done)
  /\ NoDup (map fst (reservoir st)).

(** Positions grow strictly along a list of items. *)
Definition increasing (items : list (nat * string)) : Prop :=
  StronglySorted (fun a b => fst a < fst b) items.

End Sampler.

(** [l1] is [l2] with some elements left out, the others in place. *)
Inductive subseq {A : Type} : list A -> list A -> Prop :=
| subseq_nil : subseq [] []
| subseq_skip x l1 l2 : subseq l1 l2 -> subseq l1 (x :: l2)
| subseq_take x l1 l2 : subseq l1 l2 -> subseq (x :: l1) (x :: l2).

(** ** The attention logits after the rotary embedding *)

Section RotaryScores.

Context {F : Type} {SF : Scalar F}.

(** Lines 173-175 and 190-192 followed by the product of line 206: the
    attention logits of a query and a key rotated at [position_ids]. *)
Definition rotary_scores (rotary : Qwen3RotaryEmbedding F)
    (position_ids : T2 Z) (q k : T4 F) : result (T4 F) :=
  '(cos, sin) <- Qwen3RotaryEmbedding_forward rotary position_ids ;;
  '(q', k') <- apply_rotary_pos_emb q k cos sin ;;
  matmul4 q' (transpose23 k').

End RotaryScores.

(** ** The fraction sampler and the command line *)

(** [random.random()]: the next float of the generator, in [0.0, 1.0),
    and the new state. *)
Class RandomFloat (ENV : SamplerEnv) : Type := {
  random_random : rng -> PrimFloat.float * rng
}.

Section FractionSampler.

Context {ENV : SamplerEnv} {RF : RandomFloat ENV}.

(** The state of the loop of [sample_fraction]: the lines written to
    the output file so far, the three counters and the generator. *)
Record fraction_sampler : Type := mkFraction {
  written_lines : list string;
  fraction_total_seen : Z;
  fraction_valid_seen : Z;
  written : Z;
  fraction_generator : rng
}.

(** One iteration of the loop at lines 96-103. *)
Definition fraction_step (fraction : PrimFloat.float) (validate : bool)
    (st : fraction_sampler) (item : nat * string) : fraction_sampler :=
  let '(_, raw) := item in
  let total_seen := (fraction_total_seen st + 1)%Z in
  if validate && negb (validate_jsonl_line raw) then
    mkFraction (written_lines st) total_seen (fraction_valid_seen st)
               (written st) (fraction_generator st)
  else
    let valid_seen := (fraction_valid_seen st + 1)%Z in
    let '(r, g) := random_random (fraction_generator st) in
    if PrimFloat.ltb r fraction then
      mkFraction (written_lines st ++ [raw]) total_seen valid_seen
                 (written st + 1)%Z g
    else
      mkFraction (written_lines st) total_seen valid_seen (written st) g.

(** [0.0 < fraction <= 1.0]. *)
Definition fraction_in_range (fraction : PrimFloat.float) : bool :=
  PrimFloat.ltb PrimFloat.zero fraction
  && PrimFloat.leb fraction PrimFloat.one.

(** [sample_fraction]: the lines written to the output file, in the
    order of the writes, and the three counters returned. *)
Definition sample_fraction (input : list string) (fraction : PrimFloat.float)
    (seed : Z) (validate : bool) : result (list string * (Z * Z * Z)) :=
  _ <- guard (fraction_in_range fraction) AssertionError ;;
  let g := random_seed seed in
  let st := fold_left (fraction_step fraction validate) (iter_lines input)
                      (mkFraction [] 0 0 0 g) in
  Ok (written_lines st,
      (fraction_total_seen st, fraction_valid_seen st, written st)).

(** The parsed command line, as [main] reads it: [--size] and
    [--fraction] exclude each other and one of them is required. *)
Record Namespace : Type := mkNamespace {
  args_size : option Z;
  args_fraction : option PrimFloat.float;
  args_seed : Z;
  args_validate : bool
}.

(** The numbers [main] prints. *)
Inductive report : Type :=
| FixedReport (size wrote valid total : Z)
| FractionReport (fraction : PrimFloat.float) (wrote valid total : Z).

(** [main] after [parse_args], on the lines of the input file: the
    lines of the output file and the report printed. *)
Definition main (args : Namespace) (input : list string)
  : result (list string * report) :=
  match args_size args with
  | Some size =>
      '(out, (total_seen, valid_seen)) <-
        sample_fixed_size input size (args_seed args) (args_validate args) ;;
      Ok (out, FixedReport size (Z.min size valid_seen) valid_seen total_seen)
  | None =>
      match args_fraction args with
      | Some fraction =>
          '(out, (total_seen, valid_seen, written)) <-
            sample_fraction input fraction (args_seed args)
                            (args_validate args) ;;
          Ok (out, FractionReport fraction written valid_seen total_seen)
      | None => Err TypeError
      end
  end.

End FractionSampler.

Section SameSample.

Context {ENV : SamplerEnv}.

(** Two runs whose reservoirs hold the same lines at positions related
    by [R], with the same count of valid lines and the same generator. *)
Definition same_sample (R : nat * string -> nat * string -> Prop)
    (st st' : sampler) : Prop :=
  Forall2 R (reservoir st) (reservoir st')
  /\ valid_seen st = valid_seen st'
  /\ generator st = generator st'.

End SameSample.

(** ** Instances used to exercise the statements *)

(** Exact arithmetic on the real numbers; casts change nothing. *)
Definition R_scalar : Scalar R := {|
  fzero := 0%R;
  fone := 1%R;
  fadd := Rplus;
  fmul := Rmult;
  fdiv := Rdiv;
  fneg := Ropp;
  fexp := Rtrigo_def.exp;
  fcos := Rtrigo_def.cos;
  fsin := Rtrigo_def.sin;
  fsqrt := R_sqrt.sqrt;
  frsqrt := fun x => (/ R_sqrt.sqrt x)%R;
  of_int := IZR;
  to_float32 := fun x => x;
  to_dtype := fun x => x
|}.

(** Collaborators that do as little as possible: one rope type whose
    attention scaling is [scaling], a paged cache that counts tokens and
    returns what it is given, kernels that return the query. *)
Definition simple_collaborators (scaling : R) : Collaborators R := {|
  ROPE_INIT_FUNCTIONS := fun rope_type =>
    match rope_type with
    | Some _ => Some (fun config : Qwen3Config R =>
        (mkT1 (match config_head_dim config with
               | Some d => d / 2
               | None => 0
               end) (fun _ => 1%R), scaling))
    | None => None
    end;
  PagedCache := nat;
  get_seq_length := fun c => c;
  cache_update := fun c k v _ _ => ((k, v), c + dim4_2 k);
  MaskMod := unit;
  BlockMask := unit;
  generate_eagle3_mask := fun _ _ _ _ => tt;
  create_block_mask := fun _ _ _ _ _ => Ok tt;
  compile_friendly_create_block_mask := fun _ _ _ _ _ => Ok tt;
  flex_attention := fun q _ _ _ _ => Ok q;
  compile_friendly_flex_attention := fun q _ _ _ _ => Ok q;
  F_silu := fun x => (x / (1 + Rtrigo_def.exp (- x)))%R;
  F_getattr := fun _ => None;
  prepare_decoder_attention_mask := fun m _ b s _ =>
    Ok (AdditiveMask (mkT4 b 1 s s (fun i _ t c =>
          if (c <=? t) && at2 m i c then Fin 0%R else NegInf)))
|}.

(** A linear congruential generator standing for [random]. *)
Definition lcg_env : SamplerEnv := {|
  rng := Z;
  random_seed := fun seed => seed;
  random_randint := fun a b g =>
    ((a + g mod (b - a + 1))%Z, ((g * 1103515245 + 12345) mod 2147483648)%Z);
  json_loads_ok := fun raw => String.prefix "{" raw
|}.

Definition toy_config : Qwen3Config R :=
  mkConfig 2 4 1 1 (Some 2) 16 (1 / 1000000)%R None 8 4 (Some 3) "silu".

Definition toy_init : ModelInit R :=
  mkModelInit
    (mkLayerInit (mkAttentionInit (fun _ _ => 1%R) (fun _ _ => 1%R)
                                  (fun _ _ => 1%R) (fun _ _ => 1%R))
                 (fun _ _ => 1%R) (fun _ _ => 1%R) (fun _ _ => 1%R))
    (fun _ _ => 1%R) (fun _ _ => 1%R).

Definition toy_attention : Qwen3Attention R :=
  mkAttention 2 1 1 1 2
    (mkLinear 4 2 (fun _ _ => 1%R)) (mkLinear 4 2 (fun _ _ => 1%R))
    (mkLinear 4 2 (fun _ _ => 1%R)) (mkLinear 2 2 (fun _ _ => 1%R))
    (mkRMSNorm (mkT1 2 (fun _ => 1%R)) (1 / 1000000)%R)
    (mkRMSNorm (mkT1 2 (fun _ => 1%R)) (1 / 1000000)%R)
    (mkRotary (Some "default"%string) 16 16 (mkT1 1 (fun _ => 1%R)) 1%R
              (mkT1 1 (fun _ => 1%R))).


Definition toy_heads : T4 R := mkT4 1 1 1 2 (fun _ _ _ _ => 1%R).

Definition toy_step_mask : mask R :=
  AdditiveMask (mkT4 1 1 1 1 (fun _ _ _ _ => Fin 0%R)).

Definition toy_collaborators : Collaborators R := simple_collaborators 1.

Definition toy_wide_input : T3 R := mkT3 1 1 9 (fun _ _ _ => 1%R).

Definition empty_world : world (EX := toy_collaborators) := mkWorld [] [].

(** A world whose only cache is empty, and one that holds one step. *)
Definition fresh_world : world (EX := toy_collaborators) :=
  mkWorld [([], [])] [].

Definition one_step_world : world (EX := toy_collaborators) :=
  mkWorld [([toy_heads], [toy_heads])] [].

Definition toy_step : T3 R := mkT3 1 1 4 (fun _ _ _ => 1%R).

Definition toy_long_step : T3 R := mkT3 1 2 4 (fun _ _ _ => 1%R).

Definition toy_positions : T2 Z := mkT2 1 1 (fun _ _ => 0%Z).

(** A rotary encoder whose rope type scales attention by 2. *)
Definition yarn_config : Qwen3Config R :=
  mkConfig 2 4 1 1 (Some 2) 16 (1 / 1000000)%R (Some (Some "yarn"%string, None))
           8 4 None "silu".

Definition yarn_rotary : Qwen3RotaryEmbedding R :=
  mkRotary (Some "yarn"%string) 16 16 (mkT1 1 (fun _ => 1%R)) 2%R
           (mkT1 1 (fun _ => 1%R)).

(** A world with one paged cache that has seen no token, and a padding
    mask of one valid position. *)
Definition paged_world : world (EX := toy_collaborators) :=
  mkWorld (EX := toy_collaborators) [] ([0] : list nat).

Definition toy_padding : mask R := PaddingMask (mkT2 1 1 (fun _ _ => 1%Z)).

(** Ten lines of JSON. *)
Definition ten_lines : list string :=
  ["{0}"; "{1}"; "{2}"; "{3}"; "{4}"; "{5}"; "{6}"; "{7}"; "{8}"; "{9}"]%string.

(** A generator of floats that alternates between 0.25 and 0.75. *)
Definition quarter : PrimFloat.float :=
  PrimFloat.div PrimFloat.one
    (PrimFloat.add (PrimFloat.add PrimFloat.one PrimFloat.one)
                   (PrimFloat.add PrimFloat.one PrimFloat.one)).

Definition lcg_random (g : Z) : PrimFloat.float * Z :=
  (if Z.even g then quarter else PrimFloat.sub PrimFloat.one quarter,
   ((g * 1103515245 + 12345) mod 2147483648)%Z).

Definition lcg_floats : RandomFloat lcg_env :=
  Build_RandomFloat lcg_env lcg_random.

Definition toy_embeds : T3 R := mkT3 1 1 2 (fun _ _ _ => 1%R).

Definition toy_two_embeds : T3 R := mkT3 1 2 2 (fun _ _ _ => 1%R).

(** The model the constructor builds from [toy_config] and [toy_init],
    with the standard and with the block-sparse attention. *)
Definition toy_mlp : Qwen3MLP R :=
  mkMLP (mkLinear 2 4 (fun _ _ => 1%R)) (mkLinear 2 4 (fun _ _ => 1%R))
        (mkLinear 4 2 (fun _ _ => 1%R))
        (fun t => Ok (map3 (F_silu (Collaborators := toy_collaborators)) t)).

Definition toy_norm : Qwen3RMSNorm R :=
  mkRMSNorm (mkT1 2 (fun _ => 1%R)) (1 / 1000000)%R.

Definition toy_sdpa_layer : Qwen3DecoderLayer R :=
  mkDecoderLayer 2 (StandardAttention toy_attention) toy_mlp
                 toy_norm toy_norm toy_norm.

Definition toy_flex_layer : Qwen3DecoderLayer R :=
  mkDecoderLayer 2 (BlockSparseAttention toy_attention) toy_mlp
                 toy_norm toy_norm toy_norm.

Definition toy_sdpa_model : Qwen3ForCausalLMEagle3 R :=
  mkEagle3 toy_config toy_sdpa_layer (mkLinear 9 2 (fun _ _ => 1%R))
           toy_norm (mkLinear 2 4 (fun _ _ => 1%R)).

Definition toy_flex_model : Qwen3ForCausalLMEagle3 R :=
  mkEagle3 toy_config toy_flex_layer (mkLinear 9 2 (fun _ _ => 1%R))
           toy_norm (mkLinear 2 4 (fun _ _ => 1%R)).

(** The additive masks of one and of two positions. *)
Definition toy_mask1 : T4 (score R) :=
  mkT4 1 1 1 1 (fun i _ t c =>
    if (c <=? t) && at2 (mkT2 1 1 (fun _ _ => true)) i c
    then Fin 0%R else NegInf).

Definition toy_mask2 : T4 (score R) :=
  mkT4 1 1 2 2 (fun _ _ t c => if c <=? t then Fin 0%R else NegInf).

(** Three lines, the second of which is not JSON. *)
Definition mixed_lines : list string := ["{0}"; "oops"; "{2}"]%string.

Definition size_three : Namespace := mkNamespace (Some 3%Z) None 42 false.

(** One half, as a sampling fraction. *)
Definition one_half : PrimFloat.float :=
  PrimFloat.div PrimFloat.one (PrimFloat.add PrimFloat.one PrimFloat.one).


(** A layer whose two output projections are zero. *)
Definition toy_zero_out_init : LayerInit R :=
  mkLayerInit (mkAttentionInit (fun _ _ => 1%R) (fun _ _ => 1%R)
                               (fun _ _ => 1%R) (fun _ _ => 0%R))
              (fun _ _ => 1%R) (fun _ _ => 1%R) (fun _ _ => 0%R).

Definition toy_zero_out_attention : Qwen3Attention R :=
  mkAttention 2 1 1 1 2
    (mkLinear 4 2 (fun _ _ => 1%R)) (mkLinear 4 2 (fun _ _ => 1%R))
    (mkLinear 4 2 (fun _ _ => 1%R)) (mkLinear 2 2 (fun _ _ => 0%R))
    (mkRMSNorm (mkT1 2 (fun _ => 1%R)) (1 / 1000000)%R)
    (mkRMSNorm (mkT1 2 (fun _ => 1%R)) (1 / 1000000)%R)
    (mkRotary (Some "default"%string) 16 16 (mkT1 1 (fun _ => 1%R)) 1%R
              (mkT1 1 (fun _ => 1%R))).

Definition toy_zero_out_layer : Qwen3DecoderLayer R :=
  mkDecoderLayer 2 (StandardAttention toy_zero_out_attention)
    (mkMLP (mkLinear 2 4 (fun _ _ => 1%R)) (mkLinear 2 4 (fun _ _ => 1%R))
           (mkLinear 4 2 (fun _ _ => 0%R))
           (fun t =>
              Ok (map3 (F_silu (Collaborators := toy_collaborators)) t)))
    toy_norm toy_norm toy_norm.

(** A batch of one sequence of no position. *)
Definition toy_empty_input : T3 R := mkT3 1 0 9 (fun _ _ _ => 1%R).

(** * Properties *)

Unset Implicit Arguments.

(** ** Construction and the assertion of project_hidden_states *)

Section Construction.

Context {F : Type} {SF : Scalar F} {EX : Collaborators F}.

Lemma bind_ok_inv {A B} (m : result A) (k : A -> result B) (b : B) :
  bind m k = Ok b -> exists a, m = Ok a /\ k a = Ok b.
Proof.
  destruct m as [a | e]; simpl; intros H.
  - exists a. split; [reflexivity | exact H].
  - discriminate.
Qed.

Lemma guard_ok_inv (b : bool) (e : error) (u : unit) :
  guard b e = Ok u -> b = true.
Proof. destruct b; simpl; [reflexivity | discriminate]. Qed.

Lemma bindM_ok {St A B} (m : M St A) (k : A -> M St B) (h h' : St) (a : A) :
  m h = (Ok a, h') -> bindM m k h = k a h'.
Proof. intros H. unfold bindM. rewrite H. reflexivity. Qed.

Lemma bindM_err {St A B} (m : M St A) (k : A -> M St B) (h h' : St) e :
  m h = (Err e, h') -> bindM m k h = (Err e, h').
Proof. intros H. unfold bindM. rewrite H. reflexivity. Qed.

Lemma bindM_lift_ok {St A B} (a : A) (k : A -> M St B) :
  bindM (liftM (Ok a)) k = k a.
Proof. reflexivity. Qed.

Lemma bindM_lift_err {St A B} (e : error) (k : A -> M St B) (h : St) :
  bindM (liftM (Err e)) k h = (Err e, h).
Proof. reflexivity. Qed.

(** C6. An attention backend name other than "sdpa" and
    "flex_attention" makes the construction of the decoder layer itself
    raise ValueError, so no layer exists on which forward could be
    called; "sdpa" selects the standard attention and "flex_attention"
    the block-sparse one. *)
Theorem decoder_layer_backend_checked_at_construction
    (config : Qwen3Config F) (attention_backend : string) (w : LayerInit F) :
  (attention_backend <> "sdpa"%string ->
   attention_backend <> "flex_attention"%string ->
   Qwen3DecoderLayer_init config attention_backend w
     = Err (ValueError ("Unknown attention backend " ++ attention_backend))
   /\ forall layer,
        Qwen3DecoderLayer_init config attention_backend w <> Ok layer)
  /\ (forall layer, Qwen3DecoderLayer_init config "sdpa" w = Ok layer ->
        exists a, self_attn layer = StandardAttention a)
  /\ (forall layer,
        Qwen3DecoderLayer_init config "flex_attention" w = Ok layer ->
        exists a, self_attn layer = BlockSparseAttention a).
Proof.
  repeat split.
  - unfold Qwen3DecoderLayer_init.
    destruct (String.eqb_spec attention_backend "sdpa"); [contradiction |].
    destruct (String.eqb_spec attention_backend "flex_attention");
      [contradiction |].
    reflexivity.
  - intros layer. unfold Qwen3DecoderLayer_init.
    destruct (String.eqb_spec attention_backend "sdpa"); [contradiction |].
    destruct (String.eqb_spec attention_backend "flex_attention");
      [contradiction |].
    simpl. discriminate.
  - intros layer Hinit. unfold Qwen3DecoderLayer_init in Hinit.
    simpl in Hinit.
    apply bind_ok_inv in Hinit. destruct Hinit as (attn & Hattn & Hrest).
    apply bind_ok_inv in Hattn. destruct Hattn as (a & _ & Ha).
    apply bind_ok_inv in Hrest. destruct Hrest as (m & _ & Hlayer).
    injection Ha as <-. injection Hlayer as <-. exists a. reflexivity.
  - intros layer Hinit. unfold Qwen3DecoderLayer_init in Hinit.
    simpl in Hinit.
    apply bind_ok_inv in Hinit. destruct Hinit as (attn & Hattn & Hrest).
    apply bind_ok_inv in Hattn. destruct Hattn as (a & _ & Ha).
    apply bind_ok_inv in Hrest. destruct Hrest as (m & _ & Hlayer).
    injection Ha as <-. injection Hlayer as <-. exists a. reflexivity.
Qed.

(** C10. project_hidden_states raises AssertionError exactly when the
    last dimension of its input is not three times the hidden size of
    the configuration; a model built with a target_hidden_size other
    than hidden_size has a fusion layer fc that takes inputs three
    target sizes wide, and project_hidden_states rejects every such
    input. *)
Theorem project_hidden_states_asserts_hidden_width
    (self : Qwen3ForCausalLMEagle3 F) (hidden_states : T3 F) :
  (project_hidden_states self hidden_states = Err AssertionError
   <-> dim3_2 hidden_states <> hidden_size (config self) * 3)
  /\ (forall cfg attention_backend w target,
        Qwen3ForCausalLMEagle3_init cfg attention_backend w = Ok self ->
        target_hidden_size cfg = Some target ->
        target <> hidden_size cfg ->
        in_features (fc self) = target * 3
        /\ (dim3_2 hidden_states = target * 3 ->
            (exists y, Linear_forward (fc self) hidden_states = Ok y)
            /\ project_hidden_states self hidden_states
                 = Err AssertionError)).
Proof.
  assert (Hiff : project_hidden_states self hidden_states = Err AssertionError
                 <-> dim3_2 hidden_states <> hidden_size (config self) * 3).
  { unfold project_hidden_states.
    destruct (Nat.eqb_spec (dim3_2 hidden_states)
                (hidden_size (config self) * 3)) as [E | E]; simpl.
    - split; [| contradiction].
      unfold Linear_forward.
      destruct (dim3_2 hidden_states =? in_features (fc self));
        simpl; discriminate.
    - split; [intros _; exact E | reflexivity]. }
  split; [exact Hiff |].
  intros cfg attention_backend w target Hinit Htarget Hneq.
  unfold Qwen3ForCausalLMEagle3_init in Hinit.
  apply bind_ok_inv in Hinit. destruct Hinit as (layer & _ & Hself).
  rewrite Htarget in Hself. injection Hself as <-. simpl.
  split; [reflexivity |].
  intros Hwidth. split.
  - unfold Linear_forward. simpl. rewrite Hwidth, Nat.eqb_refl. simpl.
    eexists. reflexivity.
  - apply Hiff. simpl. rewrite Hwidth. lia.
Qed.

End Construction.

Section ConstructionWitnesses.

Local Existing Instance R_scalar.
Local Existing Instance toy_collaborators.

Lemma decoder_layer_backend_checked_at_construction_witness :
  ("bogus" <> "sdpa" /\ "bogus" <> "flex_attention"
   /\ Qwen3DecoderLayer_init toy_config "bogus" (init_layer toy_init)
      = Err (ValueError "Unknown attention backend bogus"))%string
  /\ (exists layer,
        Qwen3DecoderLayer_init toy_config "sdpa" (init_layer toy_init)
          = Ok layer
        /\ exists a, self_attn layer = StandardAttention a)
  /\ (exists layer,
        Qwen3DecoderLayer_init toy_config "flex_attention"
          (init_layer toy_init) = Ok layer
        /\ exists a, self_attn layer = BlockSparseAttention a).
Proof.
  split; [| split].
  - split; [discriminate | split; [discriminate |]].
    apply (decoder_layer_backend_checked_at_construction
             toy_config "bogus" (init_layer toy_init)); discriminate.
  - eexists. split; [reflexivity |].
    apply (decoder_layer_backend_checked_at_construction
             toy_config "bogus" (init_layer toy_init)). reflexivity.
  - eexists. split; [reflexivity |].
    apply (decoder_layer_backend_checked_at_construction
             toy_config "bogus" (init_layer toy_init)). reflexivity.
Defined.

Lemma project_hidden_states_asserts_hidden_width_witness :
  exists model,
    Qwen3ForCausalLMEagle3_init toy_config "sdpa" toy_init = Ok model
    /\ target_hidden_size toy_config = Some 3
    /\ 3 <> hidden_size toy_config
    /\ dim3_2 toy_wide_input = 3 * 3
    /\ in_features (fc model) = 3 * 3
    /\ (exists y, Linear_forward (fc model) toy_wide_input = Ok y)
    /\ project_hidden_states model toy_wide_input = Err AssertionError.
Proof.
  eexists. split; [reflexivity |].
  split; [reflexivity |]. split; [simpl; lia |]. split; [reflexivity |].
  match goal with
  | |- in_features (fc ?m) = _ /\ _ =>
      destruct (project_hidden_states_asserts_hidden_width m toy_wide_input)
        as [_ H];
      destruct (H toy_config "sdpa"%string toy_init 3 eq_refl eq_refl
                  ltac:(simpl; lia)) as [Hin Hrej]
  end.
  split; [exact Hin |]. apply Hrej. reflexivity.
Defined.

End ConstructionWitnesses.

(** ** The cache handed to the decoder layer *)

Section DraftModelForward.

Context {F : Type} {SF : Scalar F} {EX : Collaborators F}.



End DraftModelForward.

Section DraftModelForwardWitness.

Local Existing Instance R_scalar.
Local Existing Instance toy_collaborators.


End DraftModelForwardWitness.

(** ** The cache in cache-accumulation mode *)

Section CacheAccumulation.

Context {F : Type} {SF : Scalar F} {EX : Collaborators F}.

Lemma set_nth_length {A} (l : list A) (i : nat) (x : A) :
  length (set_nth l i x) = length l.
Proof.
  revert i. induction l as [| y t IH]; intros [| j]; simpl; auto.
Qed.

Lemma nth_error_set_nth_same {A} (l : list A) (i : nat) (x : A) :
  i < length l -> nth_error (set_nth l i x) i = Some x.
Proof.
  revert i. induction l as [| y t IH]; intros [| j] Hi; simpl in *;
    try lia; auto.
  apply IH. lia.
Qed.

Lemma nth_error_set_nth_other {A} (l : list A) (i j : nat) (x : A) :
  i <> j -> nth_error (set_nth l i x) j = nth_error l j.
Proof.
  revert i j. induction l as [| y t IH]; intros [| i] [| j] Hij; simpl;
    try reflexivity; try contradiction.
  apply IH. congruence.
Qed.

Lemma read_cache_found (l : loc) (w : world) (c : cache) :
  nth_error (caches w) l = Some c -> read_cache l w = (Ok c, w).
Proof. intros H. unfold read_cache. rewrite H. reflexivity. Qed.

(** What a call in cache-accumulation mode does to the world: nothing
    when it raises before the append; otherwise it stores the old lists
    extended by the rotated and expanded key and value of this step,
    and attends over the extended lists. *)
Lemma attention_with_cache_effect (self : Qwen3Attention F)
    (q0 k0 v0 : T4 F) (l : loc) (attention_mask : option (mask F))
    (position_ids : option (T2 Z)) (q_len : nat) (w : world)
    (keys values : list (T4 F)) :
  nth_error (caches w) l = Some (keys, values) ->
  (exists e,
     attention_with_cache self q0 k0 v0 l attention_mask position_ids q_len w
     = (Err e, w))
  \/ (exists p q k,
        position_ids = Some p
        /\ rotate self q0 k0 (add_offset p (length keys)) = Ok (q, k)
        /\ let cache_k := keys ++ [repeat_kv k (num_key_value_groups self)] in
           let cache_v :=
             values ++ [repeat_kv v0 (num_key_value_groups self)] in
           attention_with_cache self q0 k0 v0 l attention_mask position_ids
             q_len w
           = (cached_attention self q cache_k cache_v attention_mask q_len,
              mkWorld (set_nth (caches w) l (cache_k, cache_v)) (paged w))).
Proof.
  intros Hl. unfold attention_with_cache.
  erewrite bindM_ok by (apply read_cache_found; exact Hl).
  destruct position_ids as [p |];
    [| left; exists TypeError; reflexivity].
  rewrite bindM_lift_ok.
  destruct (rotate self q0 k0 (add_offset p (length keys)))
    as [[q k] | e] eqn:Hrot; [| left; exists e; reflexivity].
  rewrite bindM_lift_ok.
  right. exists p, q, k. split; [reflexivity |]. split; [exact Hrot |].
  cbv zeta.
  erewrite bindM_ok by reflexivity.
  erewrite bindM_ok.
  2:{ apply read_cache_found. simpl. apply nth_error_set_nth_same.
      apply nth_error_Some. rewrite Hl. discriminate. }
  reflexivity.
Qed.

Lemma forward_with_cache_effect (self : Qwen3Attention F)
    (hidden_states : T3 F) (l : loc) (attention_mask : option (mask F))
    (position_ids : option (T2 Z)) (w : world)
    (keys values : list (T4 F)) :
  nth_error (caches w) l = Some (keys, values) ->
  (exists e,
     Qwen3Attention_forward self hidden_states (Some l) attention_mask
       position_ids w = (Err e, w))
  \/ (exists p q0 k0 v0 q k,
        position_ids = Some p
        /\ project_heads self hidden_states = Ok (q0, k0, v0)
        /\ rotate self q0 k0 (add_offset p (length keys)) = Ok (q, k)
        /\ let cache_k := keys ++ [repeat_kv k (num_key_value_groups self)] in
           let cache_v :=
             values ++ [repeat_kv v0 (num_key_value_groups self)] in
           Qwen3Attention_forward self hidden_states (Some l) attention_mask
             position_ids w
           = (a <- cached_attention self q cache_k cache_v attention_mask
                     (dim3_1 hidden_states) ;;
              merge_heads self (dim3_0 hidden_states) (dim3_1 hidden_states) a,
              mkWorld (set_nth (caches w) l (cache_k, cache_v)) (paged w))).
Proof.
  intros Hl. unfold Qwen3Attention_forward.
  destruct (project_heads self hidden_states) as [[[q0 k0] v0] | e];
    [| left; exists e; reflexivity].
  rewrite bindM_lift_ok.
  destruct (attention_with_cache_effect self q0 k0 v0 l attention_mask
              position_ids (dim3_1 hidden_states) w keys values Hl)
    as [(e & He) | (p & q & k & Hp & Hrot & Hrun)].
  - left. exists e. erewrite bindM_err by exact He. reflexivity.
  - right. exists p, q0, k0, v0, q, k.
    split; [exact Hp |]. split; [reflexivity |]. split; [exact Hrot |].
    cbv zeta in *.
    destruct (cached_attention self q _ _ attention_mask
                (dim3_1 hidden_states)) as [a | e].
    + erewrite bindM_ok by exact Hrun. reflexivity.
    + erewrite bindM_err by exact Hrun. reflexivity.
Qed.

(** A rollout extends the key list and the value list by one entry per
    step and leaves what they held. *)
Lemma rollout_extends_cache (self : Qwen3Attention F) (steps : list (T3 F))
    (l : loc) (attention_mask : option (mask F))
    (position_ids : option (T2 Z)) :
  forall (w w' : world) (keys values : list (T4 F)) (outs : list (T3 F)),
    nth_error (caches w) l = Some (keys, values) ->
    rollout self steps l attention_mask position_ids w = (Ok outs, w') ->
    exists ks vs,
      nth_error (caches w') l = Some (keys ++ ks, values ++ vs)
      /\ length ks = length steps /\ length vs = length steps
      /\ length outs = length steps.
Proof.
  induction steps as [| x rest IH]; intros w w' keys values outs Hl Hrun.
  - simpl in Hrun. injection Hrun as <- <-. exists [], [].
    rewrite !app_nil_r. auto.
  - simpl in Hrun.
    destruct (forward_with_cache_effect self x l attention_mask position_ids
                w keys values Hl)
      as [(e & He) | (p & q0 & k0 & v0 & q & k & _ & _ & _ & Hstep)].
    + erewrite bindM_err in Hrun by exact He. discriminate.
    + cbv zeta in Hstep. unfold bindM in Hrun at 1. rewrite Hstep in Hrun.
      match type of Hrun with
      | match ?m with Ok _ => _ | Err _ => _ end = _ =>
          destruct m as [a | e]
      end; [| discriminate].
      unfold bindM in Hrun at 1.
      match type of Hrun with
      | context [rollout self rest l attention_mask position_ids ?w1] =>
          destruct (rollout self rest l attention_mask position_ids w1)
            as [[outs' | e] w2] eqn:Hrest; simpl in Hrun
      end; [| discriminate].
      injection Hrun as <- <-.
      eapply IH in Hrest.
      2:{ simpl. apply nth_error_set_nth_same. apply nth_error_Some.
          rewrite Hl. discriminate. }
      destruct Hrest as (ks & vs & Hfinal & Hks & Hvs & Houts).
      eexists (_ :: ks), (_ :: vs).
      rewrite <- !app_assoc in Hfinal. simpl in Hfinal.
      split; [exact Hfinal |]. simpl. auto.
Qed.

End CacheAccumulation.

(** ** Steps of a different length are rejected *)

Section FailFast.

Context {F : Type} {SF : Scalar F} {EX : Collaborators F}.

Lemma matmul4_ok_inner (a b c : T4 F) :
  matmul4 a b = Ok c -> dim4_3 a = dim4_2 b.
Proof.
  unfold matmul4. intros H.
  apply bind_ok_inv in H. destruct H as (u & Hg & _).
  apply guard_ok_inv in Hg. apply Nat.eqb_eq. exact Hg.
Qed.

Lemma index_last_ok_inv {A} (n : nat) (t : T4 A) (r : T3 A) :
  index_last n t = Ok r -> n < dim4_3 t.
Proof.
  unfold index_last. destruct (Nat.ltb_spec n (dim4_3 t)); [auto |].
  discriminate.
Qed.

(** Once the cache holds two entries or more, the attention over it
    only returns when the query length is the sequence length of the
    first value entry: the second loop reads column [q_len], so the
    weights have more than [q_len] columns, the slice keeps exactly
    [q_len] of them, and the product with the first value needs as
    many rows there. *)
Lemma cached_attention_ok_length (self : Qwen3Attention F) (q : T4 F)
    (k0 k1 v0 : T4 F) (ks vs : list (T4 F))
    (attention_mask : option (mask F)) (q_len : nat) (out : T4 F) :
  cached_attention self q (k0 :: k1 :: ks) (v0 :: vs) attention_mask q_len
    = Ok out ->
  q_len = dim4_2 v0.
Proof.
  unfold cached_attention. cbn [list_get nth_error bind]. intros H.
  apply bind_ok_inv in H. destruct H as (aw1 & _ & H).
  apply bind_ok_inv in H. destruct H as (m & _ & H).
  apply bind_ok_inv in H. destruct H as (aw2 & _ & H).
  apply bind_ok_inv in H. destruct H as (aw3 & _ & H).
  apply bind_ok_inv in H. destruct H as (o1 & Hmm & Hloop).
  apply matmul4_ok_inner in Hmm. simpl in Hmm.
  unfold range1 in Hloop. simpl in Hloop.
  apply bind_ok_inv in Hloop. destruct Hloop as (o2 & Hbody & _).
  apply bind_ok_inv in Hbody. destruct Hbody as (vi & _ & Hbody).
  apply bind_ok_inv in Hbody. destruct Hbody as (awi & Hidx & _).
  apply index_last_ok_inv in Hidx. simpl in Hidx. lia.
Qed.

(** C5. A call of Qwen3Attention.forward in cache-accumulation mode
    whose query sequence length is not the sequence length of the
    step-0 key and value already in the cache raises an error and
    returns no output. *)
Theorem forward_rejects_step_of_other_length (self : Qwen3Attention F)
    (hidden_states : T3 F) (l : loc) (attention_mask : option (mask F))
    (position_ids : option (T2 Z)) (w : world)
    (k0 v0 : T4 F) (keys values : list (T4 F)) :
  nth_error (caches w) l = Some (k0 :: keys, v0 :: values) ->
  dim4_2 k0 = dim4_2 v0 ->
  dim3_1 hidden_states <> dim4_2 k0 ->
  exists e w',
    Qwen3Attention_forward self hidden_states (Some l) attention_mask
      position_ids w = (Err e, w').
Proof.
  intros Hl Hkv Hlen.
  destruct (forward_with_cache_effect self hidden_states l attention_mask
              position_ids w _ _ Hl)
    as [(e & He) | (p & q0 & k00 & v00 & q & k & _ & _ & _ & Hstep)].
  - exists e, w. exact He.
  - cbv zeta in Hstep. rewrite Hstep.
    match goal with
    | |- exists e w', (bind ?m ?f, ?w1) = _ =>
        destruct m as [a | e] eqn:Hatt
    end.
    + exfalso. apply Hlen. rewrite Hkv.
      destruct keys as [| k1 keys']; simpl in Hatt;
        eapply cached_attention_ok_length; exact Hatt.
    + eexists e, _. reflexivity.
Qed.

End FailFast.

(** ** The attention over the cache computes what the specification says *)

Section CachedAttentionRefinement.

Context {F : Type} {SF : Scalar F}.

Lemma bidx_lt (d i : nat) : i < d -> bidx d i = i.
Proof.
  unfold bidx. destruct (Nat.eqb_spec d 1); [lia | reflexivity].
Qed.

Lemma bdim_refl (d : nat) : bdim d d = Ok d.
Proof. unfold bdim. rewrite Nat.eqb_refl. reflexivity. Qed.

Lemma bdim_one_l (d : nat) : bdim 1 d = Ok d.
Proof.
  unfold bdim. destruct (Nat.eqb_spec 1 d) as [<- | _]; reflexivity.
Qed.

Lemma bdim_broadcasts (size d : nat) :
  broadcasts_to size d -> bdim d size = Ok d.
Proof.
  intros [-> | ->]; [apply bdim_refl |].
  unfold bdim. destruct (Nat.eqb_spec d 1) as [-> | _]; [reflexivity |].
  reflexivity.
Qed.

Lemma sumf_ext (n : nat) (f g : nat -> F) :
  (forall i, i < n -> f i = g i) -> sumf n f = sumf n g.
Proof.
  induction n as [| n IH]; intros Hfg; simpl; [reflexivity |].
  rewrite IH by (intros; apply Hfg; lia). rewrite Hfg by lia. reflexivity.
Qed.

Lemma fold_left_ext_in {A B} (f g : A -> B -> A) (l : list B) :
  forall a, (forall acc x, In x l -> f acc x = g acc x) ->
            fold_left f l a = fold_left g l a.
Proof.
  induction l as [| x l IH]; intros a Hfg; simpl; [reflexivity |].
  rewrite Hfg by (left; reflexivity).
  apply IH. intros acc y Hy. apply Hfg. right. exact Hy.
Qed.

Lemma fold_left_ext_in2 {A B} (f g : A -> B -> A) (l : list B) (a a' : A) :
  (forall acc x, In x l -> f acc x = g acc x) -> a = a' ->
  fold_left f l a = fold_left g l a'.
Proof. intros Hfg <-. apply fold_left_ext_in. exact Hfg. Qed.

Lemma list_get_shaped (B H T D : nat) (l : list (T4 F)) (i : nat) :
  Forall (fun t => shape4 t = (B, H, T, D)) l -> i < length l ->
  exists t, list_get l i = Ok t /\ nth i l empty4 = t
            /\ shape4 t = (B, H, T, D).
Proof.
  intros Hl Hi. unfold list_get.
  destruct (nth_error l i) as [t |] eqn:Hn.
  - exists t. split; [reflexivity |].
    split; [apply nth_error_nth; exact Hn |].
    rewrite Forall_forall in Hl. apply Hl. eapply nth_error_In. exact Hn.
  - apply nth_error_None in Hn. lia.
Qed.

(** The first loop appends one column per cached step. *)
Lemma scores_loop (self : Qwen3Attention F) (q : T4 F)
    (cache_k : list (T4 F)) (B H T D : nat) (idx : list nat) :
  shape4 q = (B, H, T, D) ->
  Forall (fun t => shape4 t = (B, H, T, D)) cache_k ->
  forall (aw : T4 (score F)) (C : nat),
    shape4 aw = (B, H, T, C) ->
    (forall i, In i idx -> i < length cache_k) ->
    exists aw',
      for_each idx (fun i attn_weights =>
        ki <- list_get cache_k i ;;
        let qi := q in
        let kiq := ki in
        prod <- bin4 fmul qi kiq ;;
        let attn_weightsi :=
          map3 (fun x => x / sqrt_head_dim self)%fl (sum_last prod) in
        cat4_last attn_weights (map4 Fin (unsqueeze_last attn_weightsi)))
        aw = Ok aw'
      /\ shape4 aw' = (B, H, T, C + length idx)
      /\ forall b h t c, b < B -> h < H -> t < T -> c < C + length idx ->
           at4 aw' b h t c
           = if c <? C then at4 aw b h t c
             else Fin (spec_dot D (at4 q b h t)
                         (at4 (nth (nth (c - C) idx 0) cache_k empty4) b h t)
                       / sqrt_head_dim self)%fl.
Proof.
  intros Hq Hk. induction idx as [| i rest IH]; intros aw C Haw Hidx.
  - exists aw. split; [reflexivity |]. simpl. rewrite Nat.add_0_r.
    split; [exact Haw |]. intros b h t c _ _ _ Hc.
    destruct (Nat.ltb_spec c C); [reflexivity | lia].
  - destruct (list_get_shaped B H T D cache_k i Hk
                (Hidx i (or_introl eq_refl)))
      as (ki & Hget & Hnth & Hki).
    destruct q as [qB qH qT qD qf]. unfold shape4 in Hq. simpl in Hq.
    injection Hq as -> -> -> ->.
    destruct ki as [kB kH kT kD kf] eqn:Eki. unfold shape4 in Hki.
    simpl in Hki. injection Hki as -> -> -> ->.
    destruct aw as [aB aH aT aC af] eqn:Eaw. unfold shape4 in Haw.
    simpl in Haw. injection Haw as -> -> -> ->.
    simpl for_each. rewrite Hget. cbn [bind].
    unfold bin4. simpl. rewrite !bdim_refl. cbn [bind].
    unfold cat4_last. simpl. rewrite !Nat.eqb_refl. simpl.
    match goal with
    | |- exists aw', for_each rest _ ?s = _ /\ _ =>
        destruct (IH s (C + 1) eq_refl
                    (fun j Hj => Hidx j (or_intror Hj)))
          as (aw' & Hrun & Hshape & Hval)
    end.
    exists aw'. split; [exact Hrun |].
    split; [rewrite Hshape; f_equal; lia |].
    intros b h t c Hb Hh Ht Hc.
    rewrite Hval by (try assumption; lia). simpl.
    destruct (Nat.ltb_spec c (C + 1)) as [Hlt | Hge].
    + destruct (Nat.ltb_spec c C) as [Hlt' | Hge']; [reflexivity |].
      assert (c = C) by lia. subst c. rewrite Nat.sub_diag. simpl.
      rewrite Hnth. simpl.
      f_equal. f_equal. unfold spec_dot. apply sumf_ext. intros e He.
      rewrite !bidx_lt by assumption. reflexivity.
    + destruct (Nat.ltb_spec c C) as [Hlt' | Hge']; [lia |].
      replace (c - C) with (S (c - (C + 1))) by lia. reflexivity.
Qed.

(** The second loop adds one weighted value per cached step. *)
Lemma output_loop (cache_v : list (T4 F)) (B H T D : nat) (aw : T4 F)
    (C : nat) (idx : list nat) :
  Forall (fun t => shape4 t = (B, H, T, D)) cache_v ->
  shape4 aw = (B, H, T, C) ->
  forall (o : T4 F),
    shape4 o = (B, H, T, D) ->
    (forall i, In i idx -> i < length cache_v /\ T + i - 1 < C) ->
    exists o',
      for_each idx (fun i attn_output =>
        vi <- list_get cache_v i ;;
        attn_weightsi <- index_last (T + i - 1) aw ;;
        attn_outputi <- bin4 fmul (unsqueeze_last attn_weightsi) vi ;;
        bin4 fadd attn_output attn_outputi)
        o = Ok o'
      /\ shape4 o' = (B, H, T, D)
      /\ forall b h t e, b < B -> h < H -> t < T -> e < D ->
           at4 o' b h t e
           = fold_left
               (fun acc i => (acc + at4 aw b h t (T + i - 1)
                                    * at4 (nth i cache_v empty4) b h t e)%fl)
               idx (at4 o b h t e).
Proof.
  intros Hv Haw. induction idx as [| i rest IH]; intros o Ho Hidx.
  - exists o. split; [reflexivity |]. split; [exact Ho |]. reflexivity.
  - destruct (Hidx i (or_introl eq_refl)) as [Hi HiC].
    destruct (list_get_shaped B H T D cache_v i Hv Hi)
      as (vi & Hget & Hnth & Hvi).
    destruct vi as [vB vH vT vD vf] eqn:Evi. unfold shape4 in Hvi.
    simpl in Hvi. injection Hvi as -> -> -> ->.
    destruct aw as [aB aH aT aC af] eqn:Eaw. unfold shape4 in Haw.
    simpl in Haw. injection Haw as -> -> -> ->.
    destruct o as [oB oH oT oD ofn] eqn:Eo. unfold shape4 in Ho.
    simpl in Ho. injection Ho as -> -> -> ->.
    simpl for_each. rewrite Hget. cbn [bind].
    unfold index_last. simpl.
    destruct (Nat.ltb_spec (T + i - 1) C) as [_ | Hbad]; [| lia].
    cbn [bind]. unfold bin4. simpl.
    rewrite !bdim_refl, bdim_one_l. cbn [bind]. rewrite !bdim_refl.
    cbn [bind].
    match goal with
    | |- exists o', for_each rest _ ?s = _ /\ _ =>
        destruct (IH s eq_refl (fun j Hj => Hidx j (or_intror Hj)))
          as (o' & Hrun & Hshape & Hval)
    end.
    exists o'. split; [exact Hrun |]. split; [exact Hshape |].
    intros b h t e Hb Hh Ht He.
    rewrite Hval by assumption. simpl. rewrite Hnth. simpl.
    rewrite !bidx_lt by assumption. reflexivity.
Qed.

Lemma softmax_entry (aw : T4 (score F)) (b h t c : nat) :
  at4 (map4 to_dtype (softmax_last (map4 (score_map to_float32) aw))) b h t c
  = to_dtype
      (score_exp (score_map to_float32 (at4 aw b h t c))
       / sumf (dim4_3 aw)
           (fun c' => score_exp (score_map to_float32 (at4 aw b h t c'))))%fl.
Proof. reflexivity. Qed.

(** The attention of the cache-accumulation mode, on well-shaped
    operands, is the closed form [spec_cached_attention]. *)
Lemma cached_attention_refines (self : Qwen3Attention F) (q : T4 F)
    (cache_k cache_v : list (T4 F)) (B H T D : nat) (m : mask F) :
  shape4 q = (B, H, T, D) ->
  Forall (fun t => shape4 t = (B, H, T, D)) cache_k ->
  Forall (fun t => shape4 t = (B, H, T, D)) cache_v ->
  cache_k <> [] ->
  length cache_v = length cache_k ->
  broadcasts_to (dim4_0 (as_additive m)) B ->
  broadcasts_to (dim4_1 (as_additive m)) H ->
  broadcasts_to (dim4_2 (as_additive m)) T ->
  broadcasts_to (dim4_3 (as_additive m)) T ->
  exists out,
    cached_attention self q cache_k cache_v (Some m) T = Ok out
    /\ teq4 out
         (spec_cached_attention self q cache_k cache_v (as_additive m) T).
Proof.
  intros Hq Hk Hv Hne Hlen Hm0 Hm1 Hm2 Hm3.
  destruct cache_k as [| k0 ks]; [contradiction |].
  destruct cache_v as [| v0 vs]; [discriminate |].
  simpl in Hlen. injection Hlen as Hlen.
  assert (Hk0 : shape4 k0 = (B, H, T, D)) by (inversion Hk; assumption).
  assert (Hv0 : shape4 v0 = (B, H, T, D)) by (inversion Hv; assumption).
  pose proof (scores_loop self q (k0 :: ks) B H T D
                (range1 (length (k0 :: ks))) Hq Hk) as Hloop1.
  unfold cached_attention. cbn [list_get nth_error bind].
  set (am := as_additive m) in *.
  unfold matmul4 at 1.
  assert (Ed : dim4_3 q = D) by (unfold shape4 in Hq; congruence).
  assert (Eb : dim4_0 q = B) by (unfold shape4 in Hq; congruence).
  assert (Eh : dim4_1 q = H) by (unfold shape4 in Hq; congruence).
  assert (Et : dim4_2 q = T) by (unfold shape4 in Hq; congruence).
  assert (Ekd : dim4_3 k0 = D) by (unfold shape4 in Hk0; congruence).
  assert (Ekb : dim4_0 k0 = B) by (unfold shape4 in Hk0; congruence).
  assert (Ekh : dim4_1 k0 = H) by (unfold shape4 in Hk0; congruence).
  assert (Ekt : dim4_2 k0 = T) by (unfold shape4 in Hk0; congruence).
  assert (Evd : dim4_3 v0 = D) by (unfold shape4 in Hv0; congruence).
  assert (Evb : dim4_0 v0 = B) by (unfold shape4 in Hv0; congruence).
  assert (Evh : dim4_1 v0 = H) by (unfold shape4 in Hv0; congruence).
  assert (Evt : dim4_2 v0 = T) by (unfold shape4 in Hv0; congruence).
  simpl. rewrite Ed, Ekd, Eb, Ekb, Eh, Ekh, Et, Ekt.
  rewrite Nat.eqb_refl, !bdim_refl. cbn [guard bind].
  unfold bin4 at 1. simpl.
  rewrite (bdim_broadcasts _ _ Hm0), (bdim_broadcasts _ _ Hm1),
    (bdim_broadcasts _ _ Hm2), (bdim_broadcasts _ _ Hm3).
  cbn [bind].
  match goal with
  | |- exists out, bind (for_each _ _ ?s) _ = _ /\ _ =>
      destruct (Hloop1 s T eq_refl) as (aw3 & Hrun1 & Hshape1 & Hval1)
  end.
  { intros i Hi. unfold range1 in Hi. apply in_seq in Hi. simpl in *. lia. }
  match type of Hrun1 with
  | ?L = _ =>
      match goal with
      | |- exists out, bind ?X _ = _ /\ _ => change X with L
      end
  end.
  rewrite Hrun1. cbn [bind].
  unfold range1 in Hshape1. rewrite length_seq in Hshape1.
  simpl length in Hshape1.
  replace (S (length ks) - 1) with (length ks) in Hshape1 by lia.
  set (aw4 := map4 to_dtype (softmax_last (map4 (score_map to_float32) aw3))).
  assert (Hshape4 : shape4 aw4 = (B, H, T, T + length ks))
    by (rewrite <- Hshape1; reflexivity).
  unfold matmul4. simpl.
  replace (dim4_3 aw3) with (T + length ks)
    by (unfold shape4 in Hshape1; congruence).
  replace (dim4_0 aw3) with B by (unfold shape4 in Hshape1; congruence).
  replace (dim4_1 aw3) with H by (unfold shape4 in Hshape1; congruence).
  replace (dim4_2 aw3) with T by (unfold shape4 in Hshape1; congruence).
  rewrite Evt, Evb, Evh, Evd.
  replace (Nat.min T (T + length ks)) with T by lia.
  rewrite Nat.eqb_refl, !bdim_refl. cbn [guard bind].
  match goal with
  | |- exists out, for_each _ _ ?s = _ /\ _ =>
      destruct (output_loop (v0 :: vs) B H T D aw4 (T + length ks)
                  (range1 (length (k0 :: ks))) Hv Hshape4 s eq_refl)
        as (out & Hrun2 & Hshape2 & Hval2)
  end.
  { intros i Hi. unfold range1 in Hi. apply in_seq in Hi. simpl in *. lia. }
  exists out. split; [exact Hrun2 |].
  assert (Hw : forall b h t c, b < B -> h < H -> t < T -> c < T + length ks ->
            at4 aw4 b h t c
            = spec_weights self q (k0 :: ks) am T b h t c).
  { intros b h t c Hb Hh Ht Hc. unfold aw4. rewrite softmax_entry.
    unfold spec_weights. cbv zeta.
    assert (Hs : forall c', c' < T + length ks ->
              at4 aw3 b h t c' = spec_scores self q (k0 :: ks) am T b h t c').
    { intros c' Hc'. rewrite Hval1
        by (try assumption; unfold range1; rewrite length_seq; simpl; lia).
      unfold spec_scores. simpl.
      destruct (Nat.ltb_spec c' T) as [Hlt | Hge].
      - rewrite Ed. rewrite ?(bidx_lt B b Hb), ?(bidx_lt H h Hh),
          ?(bidx_lt T t Ht), ?(bidx_lt T c' Hlt). reflexivity.
      - rewrite Ed. unfold range1. rewrite seq_nth by (simpl; lia).
        replace (1 + (c' - T)) with (c' - T + 1) by lia. reflexivity. }
    replace (dim4_3 aw3) with (T + length ks)
      by (unfold shape4 in Hshape1; congruence).
    simpl length. replace (S (length ks) - 1) with (length ks) by lia.
    rewrite Hs by assumption. f_equal. f_equal.
    apply sumf_ext. intros c' Hc'. rewrite Hs by assumption. reflexivity. }
  split.
  - rewrite Hshape2. unfold spec_cached_attention, shape4. simpl.
    rewrite Eb, Eh, Ed. reflexivity.
  - intros b h t e Hb Hh Ht He.
    assert (Hb' : b < B) by (unfold shape4 in Hshape2; congruence).
    assert (Hh' : h < H) by (unfold shape4 in Hshape2; congruence).
    assert (Ht' : t < T) by (unfold shape4 in Hshape2; congruence).
    assert (He' : e < D) by (unfold shape4 in Hshape2; congruence).
    rewrite Hval2 by assumption.
    unfold spec_cached_attention. cbn [at4]. cbv zeta.
    apply fold_left_ext_in2.
    + intros acc i Hi. unfold range1 in Hi. apply in_seq in Hi.
      simpl length in Hi.
      rewrite Hw by (try assumption; lia). reflexivity.
    + apply sumf_ext. intros c Hc.
      rewrite (bidx_lt B b Hb'), (bidx_lt H h Hh').
      rewrite <- Hw by (try assumption; lia).
      unfold aw4. rewrite softmax_entry.
      replace (dim4_3 aw3) with (T + length ks)
        by (unfold shape4 in Hshape1; congruence).
      reflexivity.
Qed.

(** C2. On a query and cached keys and values of one shape, with a
    mask that broadcasts to the shape of the step-0 weights, the
    attention of the cache-accumulation mode returns the tensor the
    specification describes: step-0 weights from the matrix product of
    the query with key 0 transposed, scaled by one over the square root
    of head_dim, plus the mask; one scalar weight per query position for
    every later cached step, from the elementwise product of query and
    key summed over head_dim, scaled the same; one softmax in float32
    over their concatenation, cast back; the first q_len weights times
    value 0 plus, for each later step, its weight times its value. *)
Theorem cached_attention_as_specified (self : Qwen3Attention F) (q : T4 F)
    (cache_k cache_v : list (T4 F)) (B H T D : nat) (m : mask F) :
  shape4 q = (B, H, T, D) ->
  Forall (fun t => shape4 t = (B, H, T, D)) cache_k ->
  Forall (fun t => shape4 t = (B, H, T, D)) cache_v ->
  cache_k <> [] ->
  length cache_v = length cache_k ->
  broadcasts_to (dim4_0 (as_additive m)) B ->
  broadcasts_to (dim4_1 (as_additive m)) H ->
  broadcasts_to (dim4_2 (as_additive m)) T ->
  broadcasts_to (dim4_3 (as_additive m)) T ->
  exists out,
    cached_attention self q cache_k cache_v (Some m) T = Ok out
    /\ teq4 out
         (spec_cached_attention self q cache_k cache_v (as_additive m) T).
Proof.
  exact (cached_attention_refines self q cache_k cache_v B H T D m).
Qed.

End CachedAttentionRefinement.

Section CachedAttentionWitness.

Local Existing Instance R_scalar.

Lemma cached_attention_as_specified_witness :
  shape4 toy_heads = (1, 1, 1, 2)
  /\ Forall (fun t => shape4 t = (1, 1, 1, 2)) [toy_heads; toy_heads]
  /\ [toy_heads; toy_heads] <> []
  /\ broadcasts_to (dim4_3 (as_additive toy_step_mask)) 1
  /\ exists out,
       cached_attention (SF := R_scalar) toy_attention toy_heads
         [toy_heads; toy_heads] [toy_heads; toy_heads] (Some toy_step_mask) 1
       = Ok out
       /\ teq4 out
            (spec_cached_attention (SF := R_scalar) toy_attention toy_heads
               [toy_heads; toy_heads] [toy_heads; toy_heads]
               (as_additive toy_step_mask) 1).
Proof.
  assert (Hs : shape4 toy_heads = (1, 1, 1, 2)) by reflexivity.
  assert (Hf : Forall (fun t : T4 R => shape4 t = (1, 1, 1, 2))
                 [toy_heads; toy_heads]) by (repeat constructor).
  assert (Hne : [toy_heads; toy_heads] <> []) by discriminate.
  assert (Hb : broadcasts_to 1 1) by (left; reflexivity).
  split; [exact Hs |]. split; [exact Hf |]. split; [exact Hne |].
  split; [exact Hb |].
  exact (cached_attention_as_specified (SF := R_scalar) toy_attention
           toy_heads [toy_heads; toy_heads] [toy_heads; toy_heads]
           1 1 1 2 toy_step_mask Hs Hf Hf Hne eq_refl Hb Hb Hb Hb).
Defined.

End CachedAttentionWitness.

Section CacheWitnesses.

Local Existing Instance R_scalar.
Local Existing Instance toy_collaborators.

Lemma forward_rejects_step_of_other_length_witness :
  nth_error (caches one_step_world) 0
    = Some ([toy_heads], [toy_heads])
  /\ dim4_2 toy_heads = dim4_2 toy_heads
  /\ dim3_1 toy_long_step <> dim4_2 toy_heads
  /\ exists e w',
       Qwen3Attention_forward toy_attention toy_long_step (Some 0)
         (Some toy_step_mask) (Some toy_positions) one_step_world
       = (Err e, w').
Proof.
  assert (H1 : nth_error (caches one_step_world) 0
               = Some ([toy_heads], [toy_heads])) by reflexivity.
  assert (H3 : dim3_1 toy_long_step <> dim4_2 toy_heads)
    by (simpl; lia).
  split; [exact H1 |]. split; [reflexivity |]. split; [exact H3 |].
  exact (forward_rejects_step_of_other_length toy_attention toy_long_step 0
           (Some toy_step_mask) (Some toy_positions) one_step_world
           toy_heads toy_heads [] [] H1 eq_refl H3).
Defined.

End CacheWitnesses.

(** ** The rotary embedding *)

Section RotaryShapes.

Context {F : Type} {SF : Scalar F}.

Lemma half_double (L : nat) : (L + L) / 2 = L.
Proof.
  replace (L + L) with (L * 2) by lia. apply Nat.div_mul. discriminate.
Qed.

Lemma rotate_half_spec (x : T4 F) (B H T L : nat) :
  shape4 x = (B, H, T, L + L) ->
  exists r,
    rotate_half x = Ok r
    /\ shape4 r = (B, H, T, L + L)
    /\ forall i j k l,
         at4 r i j k l
         = if l <? L then (- at4 x i j k (l + L))%fl
           else at4 x i j k (l - L).
Proof.
  intros Hx. destruct x as [xB xH xT xD xf]. unfold shape4 in Hx.
  simpl in Hx. injection Hx as -> -> -> ->.
  unfold rotate_half. cbn [dim4_3]. rewrite half_double.
  unfold cat4_last, slice_last_to, slice_last_from, map4.
  cbn [dim4_0 dim4_1 dim4_2 dim4_3 at4].
  rewrite !Nat.eqb_refl. cbn [andb].
  replace (L + L - L) with L by lia.
  eexists. split; [reflexivity |].
  unfold shape4. cbn [dim4_0 dim4_1 dim4_2 dim4_3 at4].
  split; [f_equal; lia |].
  intros i j k l. reflexivity.
Qed.

Lemma rotary_forward_spec (rotary : Qwen3RotaryEmbedding F)
    (position_ids : T2 Z) :
  exists cos sin,
    Qwen3RotaryEmbedding_forward rotary position_ids = Ok (cos, sin)
    /\ shape3 cos = (rows2 position_ids, cols2 position_ids,
                     len1 (inv_freq rotary) + len1 (inv_freq rotary))
    /\ shape3 sin = shape3 cos
    /\ forall b t c,
         b < rows2 position_ids ->
         at3 cos b t c
         = to_dtype (fcos (rotary_angle rotary position_ids b t c)
                     * attention_scaling rotary)%fl
         /\ at3 sin b t c
            = to_dtype (fsin (rotary_angle rotary position_ids b t c)
                        * attention_scaling rotary)%fl.
Proof.
  unfold Qwen3RotaryEmbedding_forward, rotary_freqs, matmul3. simpl.
  rewrite bdim_refl. simpl. unfold cat3_last. simpl.
  rewrite !Nat.eqb_refl. simpl.
  eexists _, _. split; [reflexivity |].
  split; [reflexivity |]. split; [reflexivity |].
  intros b t c Hb. simpl. unfold rotary_angle. simpl.
  rewrite (bidx_lt _ _ Hb).
  destruct (c <? len1 (inv_freq rotary)); split; reflexivity.
Qed.

Lemma rotate_one_spec (x : T4 F) (cos sin : T3 F) (B H T L pb : nat) :
  shape4 x = (B, H, T, L + L) ->
  shape3 cos = (pb, T, L + L) ->
  shape3 sin = (pb, T, L + L) ->
  broadcasts_to pb B ->
  exists y,
    (xc <- bin4 fmul x (unsqueeze1 cos) ;;
     rx <- rotate_half x ;;
     xs <- bin4 fmul rx (unsqueeze1 sin) ;;
     bin4 fadd xc xs) = Ok y
    /\ shape4 y = (B, H, T, L + L)
    /\ forall i j t l, i < B -> j < H -> t < T -> l < L + L ->
         at4 y i j t l = rotated_entry x cos sin pb L i j t l.
Proof.
  intros Hx Hc Hs Hpb.
  destruct (rotate_half_spec x B H T L Hx) as (rx & Hrx & Hrxs & Hrxv).
  rewrite Hrx.
  destruct x as [xB xH xT xD xf]. unfold shape4 in Hx. simpl in Hx.
  injection Hx as -> -> -> ->.
  destruct rx as [rB rH rT rD rf]. unfold shape4 in Hrxs. simpl in Hrxs.
  injection Hrxs as -> -> -> ->.
  destruct cos as [cB cT cD cf]. unfold shape3 in Hc. simpl in Hc.
  injection Hc as -> -> ->.
  destruct sin as [sB sT sD sf]. unfold shape3 in Hs. simpl in Hs.
  injection Hs as -> -> ->.
  unfold bin4, unsqueeze1. cbn [dim4_0 dim4_1 dim4_2 dim4_3 dim3_0 dim3_1
                                 dim3_2 at4 at3].
  rewrite (bdim_broadcasts pb B Hpb), !bdim_refl.
  rewrite (bdim_broadcasts 1 H (or_intror eq_refl)).
  cbn [bind dim4_0 dim4_1 dim4_2 dim4_3 at4].
  rewrite (bdim_broadcasts pb B Hpb), !bdim_refl.
  rewrite (bdim_broadcasts 1 H (or_intror eq_refl)).
  cbn [bind dim4_0 dim4_1 dim4_2 dim4_3 at4].
  rewrite !bdim_refl.
  cbn [bind dim4_0 dim4_1 dim4_2 dim4_3 at4].
  eexists. split; [reflexivity |]. split; [reflexivity |].
  intros i j t l Hi Hj Ht Hl. cbn [at4]. unfold rotated_entry. cbn [at4 at3].
  simpl in Hrxv.
  rewrite ?(bidx_lt B i Hi), ?(bidx_lt H j Hj), ?(bidx_lt T t Ht),
    ?(bidx_lt (L + L) l Hl).
  rewrite Hrxv. reflexivity.
Qed.

Lemma apply_rotary_spec (q k : T4 F) (cos sin : T3 F)
    (B Hq Hk T L pb : nat) :
  shape4 q = (B, Hq, T, L + L) ->
  shape4 k = (B, Hk, T, L + L) ->
  shape3 cos = (pb, T, L + L) ->
  shape3 sin = (pb, T, L + L) ->
  broadcasts_to pb B ->
  exists q' k',
    apply_rotary_pos_emb q k cos sin = Ok (q', k')
    /\ shape4 q' = (B, Hq, T, L + L)
    /\ shape4 k' = (B, Hk, T, L + L)
    /\ (forall i j t l, i < B -> j < Hq -> t < T -> l < L + L ->
          at4 q' i j t l = rotated_entry q cos sin pb L i j t l)
    /\ (forall i j t l, i < B -> j < Hk -> t < T -> l < L + L ->
          at4 k' i j t l = rotated_entry k cos sin pb L i j t l).
Proof.
  intros Hq0 Hk0 Hc Hs Hpb.
  destruct (rotate_one_spec q cos sin B Hq T L pb Hq0 Hc Hs Hpb)
    as (q' & Hrq & Hqs & Hqv).
  destruct (rotate_one_spec k cos sin B Hk T L pb Hk0 Hc Hs Hpb)
    as (k' & Hrk & Hks & Hkv).
  exists q', k'. split; [| auto].
  unfold apply_rotary_pos_emb. cbv zeta.
  apply bind_ok_inv in Hrq. destruct Hrq as (qc & -> & Hrq). cbn [bind].
  apply bind_ok_inv in Hrq. destruct Hrq as (rq & -> & Hrq). cbn [bind].
  apply bind_ok_inv in Hrq. destruct Hrq as (qs & -> & Hrq). cbn [bind].
  rewrite Hrq. cbn [bind].
  apply bind_ok_inv in Hrk. destruct Hrk as (kc & -> & Hrk). cbn [bind].
  apply bind_ok_inv in Hrk. destruct Hrk as (rk & -> & Hrk). cbn [bind].
  apply bind_ok_inv in Hrk. destruct Hrk as (ks & -> & Hrk). cbn [bind].
  rewrite Hrk. reflexivity.
Qed.

End RotaryShapes.

Section RotaryReal.

Local Existing Instance R_scalar.

Lemma rotary_angle_shift_up (rotary : Qwen3RotaryEmbedding R)
    (position_ids : T2 Z) (b t l : nat) :
  l < len1 (inv_freq rotary) ->
  rotary_angle rotary position_ids b t (l + len1 (inv_freq rotary))
  = rotary_angle rotary position_ids b t l.
Proof.
  intros Hl. unfold rotary_angle.
  destruct (Nat.ltb_spec (l + len1 (inv_freq rotary))
              (len1 (inv_freq rotary))); [lia |].
  destruct (Nat.ltb_spec l (len1 (inv_freq rotary))); [| lia].
  replace (l + len1 (inv_freq rotary) - len1 (inv_freq rotary)) with l by lia.
  reflexivity.
Qed.

Lemma rotary_angle_shift_down (rotary : Qwen3RotaryEmbedding R)
    (position_ids : T2 Z) (b t l : nat) :
  len1 (inv_freq rotary) <= l ->
  l < len1 (inv_freq rotary) + len1 (inv_freq rotary) ->
  rotary_angle rotary position_ids b t (l - len1 (inv_freq rotary))
  = rotary_angle rotary position_ids b t l.
Proof.
  intros Hge Hl. unfold rotary_angle.
  destruct (Nat.ltb_spec (l - len1 (inv_freq rotary))
              (len1 (inv_freq rotary))); [| lia].
  destruct (Nat.ltb_spec l (len1 (inv_freq rotary))); [lia |].
  reflexivity.
Qed.

(** In exact arithmetic the round trip multiplies every entry by the
    square of the attention scaling. *)
Lemma rotary_round_trip_scaled (rotary : Qwen3RotaryEmbedding R)
    (position_ids : T2 Z) (x : T4 R) (B H T : nat) :
  shape4 x = (B, H, T, 2 * len1 (inv_freq rotary)) ->
  cols2 position_ids = T ->
  broadcasts_to (rows2 position_ids) B ->
  exists z,
    rotary_round_trip rotary position_ids x = Ok z
    /\ shape4 z = shape4 x
    /\ forall i j t l,
         i < B -> j < H -> t < T -> l < 2 * len1 (inv_freq rotary) ->
         at4 z i j t l
         = (attention_scaling rotary * attention_scaling rotary
            * at4 x i j t l)%R.
Proof.
  set (L := len1 (inv_freq rotary)).
  replace (2 * L) with (L + L) by lia.
  intros Hx Hcols Hpb.
  destruct (rotary_forward_spec rotary position_ids)
    as (cos & sin & Hfwd & Hcs & Hss & Hval).
  fold L in Hcs. rewrite Hcols in Hcs. rewrite Hcs in Hss.
  destruct (apply_rotary_spec x x cos sin B H H T L (rows2 position_ids)
              Hx Hx Hcs Hss Hpb) as (y & y' & Hy & Hys & _ & Hyv & _).
  assert (Hns : shape3 (map3 fneg sin) = (rows2 position_ids, T, L + L))
    by exact Hss.
  destruct (apply_rotary_spec y y cos (map3 fneg sin) B H H T L
              (rows2 position_ids) Hys Hys Hcs Hns Hpb)
    as (z & z' & Hz & Hzs & _ & Hzv & _).
  exists z. unfold rotary_round_trip. rewrite Hfwd. cbn [bind].
  rewrite Hy. cbn [bind]. rewrite Hz. cbn [bind].
  split; [reflexivity |]. split; [congruence |].
  intros i j t l Hi Hj Ht Hl.
  assert (Hb : bidx (rows2 position_ids) i < rows2 position_ids).
  { unfold bidx. destruct Hpb as [-> | ->].
    - destruct (Nat.eqb_spec B 1); lia.
    - simpl. lia. }
  rewrite Hzv by assumption. unfold rotated_entry. cbn [map3 at3].
  destruct (Hval (bidx (rows2 position_ids) i) t l Hb) as [Hc Hs].
  rewrite Hc, Hs.
  destruct (Nat.ltb_spec l L) as [Hlt | Hge].
  - rewrite !Hyv by (try assumption; lia). unfold rotated_entry.
    destruct (Hval (bidx (rows2 position_ids) i) t (l + L) Hb) as [Hc' Hs'].
    rewrite Hc, Hs, Hc', Hs'.
    rewrite (rotary_angle_shift_up rotary position_ids _ t l Hlt).
    destruct (Nat.ltb_spec l L) as [_ | ?]; [| lia].
    destruct (Nat.ltb_spec (l + L) L) as [? | _]; [lia |].
    replace (l + L - L) with l by lia.
    set (a := rotary_angle rotary position_ids
                (bidx (rows2 position_ids) i) t l).
    pose proof (sin2_cos2 a) as Htrig. unfold Rsqr in Htrig.
    simpl.
    transitivity
      (attention_scaling rotary * attention_scaling rotary * at4 x i j t l
       * (Rtrigo_def.sin a * Rtrigo_def.sin a
          + Rtrigo_def.cos a * Rtrigo_def.cos a))%R;
      [ring | rewrite Htrig; ring].
  - rewrite !Hyv by (try assumption; lia). unfold rotated_entry.
    destruct (Hval (bidx (rows2 position_ids) i) t (l - L) Hb) as [Hc' Hs'].
    rewrite Hc, Hs, Hc', Hs'.
    rewrite (rotary_angle_shift_down rotary position_ids _ t l Hge Hl).
    destruct (Nat.ltb_spec l L) as [? | _]; [lia |].
    destruct (Nat.ltb_spec (l - L) L) as [_ | ?]; [| lia].
    replace (l - L + L) with l by lia.
    set (a := rotary_angle rotary position_ids
                (bidx (rows2 position_ids) i) t l).
    pose proof (sin2_cos2 a) as Htrig. unfold Rsqr in Htrig.
    simpl.
    transitivity
      (attention_scaling rotary * attention_scaling rotary * at4 x i j t l
       * (Rtrigo_def.sin a * Rtrigo_def.sin a
          + Rtrigo_def.cos a * Rtrigo_def.cos a))%R;
      [ring | rewrite Htrig; ring].
Qed.

(** C8, as the code has it.  In exact arithmetic, rotating with the
    tables of the rotary encoder and rotating the result with the sine
    table negated returns the input multiplied by the square of the
    attention scaling of the rope type; it returns the input itself when
    that scaling is 1, as it is for the default rope type. *)
Theorem rotary_round_trip_recovers_input_up_to_scaling
    (rotary : Qwen3RotaryEmbedding R) (position_ids : T2 Z) (x : T4 R)
    (B H T : nat) :
  shape4 x = (B, H, T, 2 * len1 (inv_freq rotary)) ->
  cols2 position_ids = T ->
  broadcasts_to (rows2 position_ids) B ->
  exists z,
    rotary_round_trip rotary position_ids x = Ok z
    /\ teq4 z (map4 (fun v => attention_scaling rotary
                               * attention_scaling rotary * v)%R x)
    /\ (attention_scaling rotary = 1%R -> teq4 z x).
Proof.
  intros Hx Hcols Hpb.
  destruct (rotary_round_trip_scaled rotary position_ids x B H T Hx Hcols Hpb)
    as (z & Hz & Hshape & Hval).
  assert (Hdims : dim4_0 z = B /\ dim4_1 z = H /\ dim4_2 z = T
                  /\ dim4_3 z = 2 * len1 (inv_freq rotary)).
  { rewrite Hx in Hshape. unfold shape4 in Hshape.
    injection Hshape as -> -> -> ->. auto. }
  destruct Hdims as (E0 & E1 & E2 & E3).
  exists z. split; [exact Hz |]. split.
  - split; [exact Hshape |].
    intros i j t l Hi Hj Ht Hl. rewrite E0 in Hi. rewrite E1 in Hj.
    rewrite E2 in Ht. rewrite E3 in Hl. simpl. apply Hval; assumption.
  - intros Hone. split; [exact Hshape |].
    intros i j t l Hi Hj Ht Hl. rewrite E0 in Hi. rewrite E1 in Hj.
    rewrite E2 in Ht. rewrite E3 in Hl.
    rewrite Hval by assumption. rewrite Hone. ring.
Qed.

Lemma rotary_round_trip_recovers_input_up_to_scaling_witness :
  shape4 toy_heads = (1, 1, 1, 2 * len1 (inv_freq (rotary_emb toy_attention)))
  /\ cols2 toy_positions = 1
  /\ broadcasts_to (rows2 toy_positions) 1
  /\ attention_scaling (rotary_emb toy_attention) = 1%R
  /\ exists z,
       rotary_round_trip (rotary_emb toy_attention) toy_positions toy_heads
         = Ok z
       /\ teq4 z toy_heads.
Proof.
  assert (H1 : shape4 toy_heads
               = (1, 1, 1, 2 * len1 (inv_freq (rotary_emb toy_attention))))
    by reflexivity.
  assert (H2 : broadcasts_to (rows2 toy_positions) 1) by (left; reflexivity).
  split; [exact H1 |]. split; [reflexivity |]. split; [exact H2 |].
  split; [reflexivity |].
  destruct (rotary_round_trip_recovers_input_up_to_scaling
              (rotary_emb toy_attention) toy_positions toy_heads 1 1 1
              H1 eq_refl H2) as (z & Hz & _ & Hone).
  exists z. split; [exact Hz | apply Hone; reflexivity].
Defined.

(** With a rope type whose attention scaling is 2 the round trip
    returns four times the input: the entry 1 comes back as 4. *)
Lemma rotary_round_trip_scaling_counterexample :
  Qwen3RotaryEmbedding_init (EX := simple_collaborators 2) yarn_config
    = Ok yarn_rotary
  /\ exists z,
       rotary_round_trip yarn_rotary toy_positions toy_heads = Ok z
       /\ at4 toy_heads 0 0 0 0 = 1%R
       /\ at4 z 0 0 0 0 = 4%R
       /\ ~ teq4 z toy_heads.
Proof.
  split; [reflexivity |].
  destruct (rotary_round_trip_scaled yarn_rotary toy_positions toy_heads
              1 1 1 eq_refl eq_refl (or_introl eq_refl))
    as (z & Hz & Hshape & Hval).
  assert (H4 : at4 z 0 0 0 0 = 4%R).
  { rewrite Hval by (simpl; lia). simpl. ring. }
  exists z. split; [exact Hz |]. split; [reflexivity |].
  split; [exact H4 |].
  intros [Hs Heq].
  assert (Hd : dim4_0 z = 1 /\ dim4_1 z = 1 /\ dim4_2 z = 1 /\ dim4_3 z = 2).
  { unfold shape4 in Hshape. simpl in Hshape.
    injection Hshape as -> -> -> ->. auto. }
  destruct Hd as (E0 & E1 & E2 & E3).
  specialize (Heq 0 0 0 0).
  rewrite E0, E1, E2, E3 in Heq.
  rewrite H4 in Heq. simpl in Heq.
  specialize (Heq ltac:(lia) ltac:(lia) ltac:(lia) ltac:(lia)). lra.
Qed.

End RotaryReal.

(** ** A rollout of single-token steps is one causal pass *)

Section Pipeline.

Context {F : Type} {SF : Scalar F} {EX : Collaborators F}.

(** Row-major positions: splitting the last axis into heads. *)
Lemma view_index (b t h c T nh hd : nat) :
  t < T -> h < nh -> c < hd ->
  let flat := ((b * T + t) * nh + h) * hd + c in
  flat / (T * (nh * hd)) = b
  /\ (flat / (nh * hd)) mod T = t
  /\ flat mod (nh * hd) = h * hd + c.
Proof.
  intros Ht Hh Hc flat.
  assert (Hlow : h * hd + c < nh * hd) by nia.
  assert (Hflat : flat = (nh * hd) * (b * T + t) + (h * hd + c))
    by (unfold flat; ring).
  assert (Hdiv : flat / (nh * hd) = b * T + t).
  { symmetry. apply (Nat.div_unique flat (nh * hd) _ (h * hd + c));
      assumption. }
  assert (Hmod : flat mod (nh * hd) = h * hd + c).
  { symmetry. apply (Nat.mod_unique flat (nh * hd) (b * T + t));
      assumption. }
  split; [| split; [| exact Hmod]].
  - rewrite Nat.mul_comm, <- Nat.Div0.div_div, Hdiv.
    symmetry. apply (Nat.div_unique _ T _ t); [exact Ht | ring].
  - rewrite Hdiv. symmetry.
    apply (Nat.mod_unique _ T b); [exact Ht | ring].
Qed.

(** Row-major positions: merging the heads back into the last axis. *)
Lemma merge_index (b t o T nh hd : nat) :
  t < T -> o < hd * nh ->
  let flat := (b * T + t) * (hd * nh) + o in
  flat / (T * nh * hd) = b
  /\ (flat / (nh * hd)) mod T = t
  /\ (flat / hd) mod nh = o / hd
  /\ flat mod hd = o mod hd.
Proof.
  intros Ht Ho flat.
  assert (Hhd : 0 < hd) by nia.
  assert (Hq : o / hd < nh).
  { apply Nat.Div0.div_lt_upper_bound. lia. }
  assert (Ho' : o = hd * (o / hd) + o mod hd) by (apply Nat.div_mod_eq).
  assert (Hr : o mod hd < hd) by (apply Nat.mod_upper_bound; lia).
  assert (Hdiv1 : flat / (nh * hd) = b * T + t).
  { symmetry. apply (Nat.div_unique flat (nh * hd) _ o); [lia |].
    unfold flat. ring. }
  assert (Hdiv2 : flat / hd = (b * T + t) * nh + o / hd).
  { symmetry. apply (Nat.div_unique flat hd _ (o mod hd)); [exact Hr |].
    unfold flat. rewrite Ho' at 1. ring. }
  split; [| split; [| split]].
  - replace (T * nh * hd) with ((nh * hd) * T) by ring.
    rewrite <- Nat.Div0.div_div, Hdiv1.
    symmetry. apply (Nat.div_unique _ T _ t); [exact Ht | ring].
  - rewrite Hdiv1. symmetry. apply (Nat.mod_unique _ T b); [exact Ht | ring].
  - rewrite Hdiv2. symmetry.
    apply (Nat.mod_unique _ nh (b * T + t)); [exact Hq | ring].
  - symmetry. apply (Nat.mod_unique flat hd ((b * T + t) * nh + o / hd));
      [exact Hr |].
    unfold flat. rewrite Ho' at 1. ring.
Qed.

Lemma rms_entry_ext (m : Qwen3RMSNorm F) (d : nat) (row row' : nat -> F)
    (l : nat) :
  (forall c, c < d -> row c = row' c) -> l < d ->
  rms_entry m d row l = rms_entry m d row' l.
Proof.
  intros Hrow Hl. unfold rms_entry. cbv zeta.
  rewrite (Hrow l Hl).
  rewrite (sumf_ext d (fun c => to_float32 (row c) * to_float32 (row c))%fl
             (fun c => to_float32 (row' c) * to_float32 (row' c))%fl).
  - reflexivity.
  - intros c Hc. rewrite (Hrow c Hc). reflexivity.
Qed.

(** Project, view as heads, transpose and normalise: the entry at
    token [t] only depends on row [t] of the input. *)
Lemma normed_heads_spec (m : Linear F) (nrm : Qwen3RMSNorm F)
    (x : T3 F) (B T nh hd : nat) :
  shape3 x = (B, T, in_features m) ->
  out_features m = nh * hd ->
  len1 (norm_weight nrm) = hd ->
  exists q,
    (y <- Linear_forward m x ;;
     y <- view4 (dim3_0 x) (dim3_1 x) nh hd y ;;
     Qwen3RMSNorm_forward4 nrm (transpose12 y)) = Ok q
    /\ shape4 q = (B, nh, T, hd)
    /\ forall b h t c, b < B -> h < nh -> t < T -> c < hd ->
         at4 q b h t c = normed_head m nrm hd (at3 x b t) h c.
Proof.
  intros Hx Hout Hlen.
  destruct x as [xB xT xI xf]. unfold shape3 in Hx. simpl in Hx.
  injection Hx as -> -> ->.
  unfold Linear_forward. cbn [dim3_0 dim3_1 dim3_2 at3].
  rewrite Nat.eqb_refl. cbn [guard bind].
  unfold view4. cbn [dim3_0 dim3_1 dim3_2 at3]. rewrite Hout.
  replace (B * T * nh * hd =? B * T * (nh * hd)) with true
    by (symmetry; apply Nat.eqb_eq; ring).
  cbn [guard bind].
  unfold Qwen3RMSNorm_forward4, transpose12.
  cbn [dim4_0 dim4_1 dim4_2 dim4_3 at4]. rewrite Hlen, bdim_refl.
  cbn [bind].
  eexists. split; [reflexivity |]. split; [reflexivity |].
  intros b h t c Hb Hh Ht Hc. cbn [at4]. unfold normed_head.
  rewrite (bidx_lt hd c Hc). f_equal.
  apply rms_entry_ext; [| exact Hc].
  intros c' Hc'.
  destruct (view_index b t h c' T nh hd Ht Hh Hc') as (E1 & E2 & E3).
  cbv zeta in E1, E2, E3. rewrite E1, E2, E3. reflexivity.
Qed.

Lemma linear_heads_spec (m : Linear F) (x : T3 F) (B T nh hd : nat) :
  shape3 x = (B, T, in_features m) ->
  out_features m = nh * hd ->
  exists v,
    (y <- Linear_forward m x ;;
     y <- view4 (dim3_0 x) (dim3_1 x) nh hd y ;;
     Ok (transpose12 y)) = Ok v
    /\ shape4 v = (B, nh, T, hd)
    /\ forall b h t c, b < B -> h < nh -> t < T -> c < hd ->
         at4 v b h t c = linear_entry m (at3 x b t) (h * hd + c).
Proof.
  intros Hx Hout.
  destruct x as [xB xT xI xf]. unfold shape3 in Hx. simpl in Hx.
  injection Hx as -> -> ->.
  unfold Linear_forward. cbn [dim3_0 dim3_1 dim3_2 at3].
  rewrite Nat.eqb_refl. cbn [guard bind].
  unfold view4. cbn [dim3_0 dim3_1 dim3_2 at3]. rewrite Hout.
  replace (B * T * nh * hd =? B * T * (nh * hd)) with true
    by (symmetry; apply Nat.eqb_eq; ring).
  cbn [guard bind].
  eexists. split; [reflexivity |]. split; [reflexivity |].
  intros b h t c Hb Hh Ht Hc. cbn [at4 transpose12].
  destruct (view_index b t h c T nh hd Ht Hh Hc) as (E1 & E2 & E3).
  cbv zeta in E1, E2, E3. rewrite E1, E2, E3. reflexivity.
Qed.

Lemma project_heads_spec (self : Qwen3Attention F) (x : T3 F) (B T : nat) :
  attention_well_shaped self ->
  shape3 x = (B, T, in_features (q_proj self)) ->
  exists q k v,
    project_heads self x = Ok (q, k, v)
    /\ shape4 q = (B, num_heads self, T, head_dim self)
    /\ shape4 k = (B, attn_num_key_value_heads self, T, head_dim self)
    /\ shape4 v = (B, attn_num_key_value_heads self, T, head_dim self)
    /\ (forall b h t c,
          b < B -> h < num_heads self -> t < T -> c < head_dim self ->
          at4 q b h t c
          = normed_head (q_proj self) (q_norm self) (head_dim self)
              (at3 x b t) h c)
    /\ (forall b h t c,
          b < B -> h < attn_num_key_value_heads self -> t < T ->
          c < head_dim self ->
          at4 k b h t c
          = normed_head (k_proj self) (k_norm self) (head_dim self)
              (at3 x b t) h c)
    /\ (forall b h t c,
          b < B -> h < attn_num_key_value_heads self -> t < T ->
          c < head_dim self ->
          at4 v b h t c
          = linear_entry (v_proj self) (at3 x b t) (h * head_dim self + c)).
Proof.
  intros Hws Hx.
  assert (Hxk : shape3 x = (B, T, in_features (k_proj self)))
    by (rewrite (k_proj_in Hws); exact Hx).
  assert (Hxv : shape3 x = (B, T, in_features (v_proj self)))
    by (rewrite (v_proj_in Hws); exact Hx).
  destruct (normed_heads_spec (q_proj self) (q_norm self) x B T
              (num_heads self) (head_dim self) Hx (q_proj_out Hws)
              (q_norm_len Hws)) as (q & Hq & Hqs & Hqv).
  destruct (normed_heads_spec (k_proj self) (k_norm self) x B T
              (attn_num_key_value_heads self) (head_dim self) Hxk
              (k_proj_out Hws) (k_norm_len Hws))
    as (k & Hk & Hks & Hkv).
  destruct (linear_heads_spec (v_proj self) x B T
              (attn_num_key_value_heads self) (head_dim self) Hxv
              (v_proj_out Hws)) as (v & Hv & Hvs & Hvv).
  exists q, k, v. split; [| auto 10].
  unfold project_heads. cbv zeta.
  apply bind_ok_inv in Hq. destruct Hq as (ql & Hql & Hq).
  apply bind_ok_inv in Hq. destruct Hq as (qv & Hqv' & Hq).
  apply bind_ok_inv in Hk. destruct Hk as (kl & Hkl & Hk).
  apply bind_ok_inv in Hk. destruct Hk as (kv & Hkv' & Hk).
  apply bind_ok_inv in Hv. destruct Hv as (vl & Hvl & Hv).
  apply bind_ok_inv in Hv. destruct Hv as (vv & Hvv' & Hv).
  injection Hv as <-.
  rewrite Hql, Hkl, Hvl. cbn [bind]. rewrite Hqv'. cbn [bind].
  rewrite Hkv'. cbn [bind]. rewrite Hvv'. cbn [bind].
  rewrite Hq. cbn [bind]. rewrite Hk. reflexivity.
Qed.

Lemma rotate_spec (self : Qwen3Attention F) (q k : T4 F)
    (position_ids : T2 Z) (B Hq Hk T : nat) :
  attention_well_shaped self ->
  shape4 q = (B, Hq, T, head_dim self) ->
  shape4 k = (B, Hk, T, head_dim self) ->
  cols2 position_ids = T ->
  broadcasts_to (rows2 position_ids) B ->
  exists q' k',
    rotate self q k position_ids = Ok (q', k')
    /\ shape4 q' = (B, Hq, T, head_dim self)
    /\ shape4 k' = (B, Hk, T, head_dim self)
    /\ (forall i j t l, i < B -> j < Hq -> t < T -> l < head_dim self ->
          at4 q' i j t l
          = rotary_value (rotary_emb self) position_ids q i j t l)
    /\ (forall i j t l, i < B -> j < Hk -> t < T -> l < head_dim self ->
          at4 k' i j t l
          = rotary_value (rotary_emb self) position_ids k i j t l).
Proof.
  intros Hws Hq0 Hk0 Hcols Hpb.
  pose proof (rotary_covers Hws) as Hhd.
  set (L := len1 (inv_freq (rotary_emb self))) in *.
  rewrite Hhd in *.
  destruct (rotary_forward_spec (rotary_emb self) position_ids)
    as (cos & sin & Hfwd & Hcs & Hss & Hval).
  fold L in Hcs. rewrite Hcols in Hcs. rewrite Hcs in Hss.
  destruct (apply_rotary_spec q k cos sin B Hq Hk T L (rows2 position_ids)
              Hq0 Hk0 Hcs Hss Hpb)
    as (q' & k' & Happ & Hqs & Hks & Hqv & Hkv).
  exists q', k'. unfold rotate. rewrite Hfwd. cbn [bind].
  split; [exact Happ |]. split; [exact Hqs |]. split; [exact Hks |].
  assert (Hb : forall i, i < B ->
            bidx (rows2 position_ids) i < rows2 position_ids).
  { intros i Hi. unfold bidx. destruct Hpb as [-> | ->].
    - destruct (Nat.eqb_spec B 1); lia.
    - simpl. lia. }
  split.
  - intros i j t l Hi Hj Ht Hl. rewrite Hqv by assumption.
    unfold rotated_entry, rotary_value. cbv zeta. fold L.
    destruct (Hval (bidx (rows2 position_ids) i) t l (Hb i Hi)) as [-> ->].
    reflexivity.
  - intros i j t l Hi Hj Ht Hl. rewrite Hkv by assumption.
    unfold rotated_entry, rotary_value. cbv zeta. fold L.
    destruct (Hval (bidx (rows2 position_ids) i) t l (Hb i Hi)) as [-> ->].
    reflexivity.
Qed.

Lemma repeat_kv_spec (k : T4 F) (g B Hk T D : nat) :
  shape4 k = (B, Hk, T, D) ->
  shape4 (repeat_kv k g) = (B, Hk * g, T, D)
  /\ forall b h t c, at4 (repeat_kv k g) b h t c = at4 k b (h / g) t c.
Proof.
  intros Hk0. unfold repeat_kv.
  destruct (Nat.eqb_spec g 1) as [-> | Hg].
  - rewrite Nat.mul_1_r. split; [exact Hk0 |].
    intros b h t c. rewrite Nat.div_1_r. reflexivity.
  - unfold shape4 in *. cbn [dim4_0 dim4_1 dim4_2 dim4_3 at4].
    split; [| reflexivity]. congruence.
Qed.

Lemma sdpa_spec (q k v : T4 F) (m : T4 (score F)) (B H T S D : nat) :
  shape4 q = (B, H, T, D) ->
  shape4 k = (B, H, S, D) ->
  shape4 v = (B, H, S, D) ->
  broadcasts_to (dim4_0 m) B -> broadcasts_to (dim4_1 m) H ->
  broadcasts_to (dim4_2 m) T -> broadcasts_to (dim4_3 m) S ->
  exists a,
    scaled_dot_product_attention q k v (Some m) false = Ok a
    /\ shape4 a = (B, H, T, D)
    /\ forall b h t e, b < B -> h < H -> t < T -> e < D ->
         at4 a b h t e = sdpa_entry q k v m b h t e.
Proof.
  intros Hq Hk Hv Hm0 Hm1 Hm2 Hm3.
  destruct q as [qB qH qT qD qf]. unfold shape4 in Hq. simpl in Hq.
  injection Hq as -> -> -> ->.
  destruct k as [kB kH kT kD kf]. unfold shape4 in Hk. simpl in Hk.
  injection Hk as -> -> -> ->.
  destruct v as [vB vH vT vD vf]. unfold shape4 in Hv. simpl in Hv.
  injection Hv as -> -> -> ->.
  unfold scaled_dot_product_attention, matmul4, transpose23, bin4, map4,
    softmax_last.
  cbn [dim4_0 dim4_1 dim4_2 dim4_3 at4].
  rewrite Nat.eqb_refl, !bdim_refl. cbn [guard bind].
  cbn [dim4_0 dim4_1 dim4_2 dim4_3 at4].
  rewrite (bdim_broadcasts _ _ Hm0), (bdim_broadcasts _ _ Hm1),
    (bdim_broadcasts _ _ Hm2), (bdim_broadcasts _ _ Hm3).
  cbn [bind dim4_0 dim4_1 dim4_2 dim4_3 at4].
  rewrite Nat.eqb_refl, !bdim_refl. cbn [guard bind].
  eexists. split; [reflexivity |]. split; [reflexivity |].
  intros b h t e Hb Hh Ht He. cbn [at4]. unfold sdpa_entry, sdpa_score.
  cbn [dim4_0 dim4_1 dim4_2 dim4_3 at4].
  rewrite ?(bidx_lt B b Hb), ?(bidx_lt H h Hh), ?(bidx_lt T t Ht).
  apply sumf_ext. intros c Hc. rewrite ?(bidx_lt S c Hc).
  f_equal. f_equal. apply sumf_ext. intros c' Hc'.
  rewrite ?(bidx_lt S c' Hc'). reflexivity.
Qed.

Lemma merge_heads_spec (self : Qwen3Attention F) (a : T4 F) (B T : nat) :
  attention_well_shaped self ->
  shape4 a = (B, num_heads self, T, head_dim self) ->
  exists out,
    merge_heads self B T a = Ok out
    /\ shape3 out = (B, T, out_features (o_proj self))
    /\ forall b t o, b < B -> t < T -> o < out_features (o_proj self) ->
         at3 out b t o
         = sumf (head_dim self * num_heads self) (fun c =>
             at4 a b (c / head_dim self)%nat t (c mod head_dim self)%nat
             * weight (o_proj self) o c)%fl.
Proof.
  intros Hws Ha.
  destruct a as [aB aH aT aD af]. unfold shape4 in Ha. simpl in Ha.
  injection Ha as -> -> -> ->.
  unfold merge_heads, reshape3, transpose12.
  cbn [dim4_0 dim4_1 dim4_2 dim4_3 at4].
  replace (B * T * (head_dim self * num_heads self)
           =? B * T * num_heads self * head_dim self) with true
    by (symmetry; apply Nat.eqb_eq; ring).
  cbn [guard bind]. unfold Linear_forward.
  cbn [dim3_0 dim3_1 dim3_2 at3]. rewrite (o_proj_in Hws), Nat.eqb_refl.
  cbn [guard bind].
  eexists. split; [reflexivity |]. split; [reflexivity |].
  intros b t o Hb Ht Ho. cbn [at3].
  apply sumf_ext. intros c Hc.
  destruct (merge_index b t c T (num_heads self) (head_dim self) Ht Hc)
    as (E1 & E2 & E3 & E4).
  cbv zeta in E1, E2, E3, E4. rewrite E1, E2, E3, E4. reflexivity.
Qed.

Context {EXACT : ExactScalar F}.

Lemma sumf_trailing_zeros (m n : nat) (f : nat -> F) :
  m <= n -> (forall c, m <= c -> c < n -> f c = fzero) ->
  sumf n f = sumf m f.
Proof.
  intros Hmn. induction Hmn as [| n Hmn IH]; intros Hz; [reflexivity |].
  simpl. rewrite (Hz n) by lia. rewrite add_zero_r.
  apply IH. intros c Hc Hcn. apply Hz; lia.
Qed.

Lemma fold_left_seq_sumf (f g : nat -> F) (n : nat) :
  forall a,
    (forall j, a <= j -> j < a + n -> f j = g j) ->
    fold_left (fun acc j => (acc + f j)%fl) (seq a n) (sumf a g)
    = sumf (a + n) g.
Proof.
  induction n as [| n IH]; intros a Hfg.
  - simpl. rewrite Nat.add_0_r. reflexivity.
  - simpl. rewrite (Hfg a) by lia.
    change (sumf a g + g a)%fl with (sumf (S a) g).
    rewrite IH by (intros j Hj Hj'; apply Hfg; lia).
    f_equal. lia.
Qed.

(** The heart of the equivalence: at one batch entry, head and output
    column, step [i] of the rollout and row [i] of the causal pass are
    the same sum. *)
Lemma step_entry_eq (self : Qwen3Attention F) (Q K V qi : T4 F)
    (Ks Vs : list (T4 F)) (B N i b h e : nat) :
  dim4_3 Q = head_dim self -> dim4_3 qi = head_dim self ->
  dim4_2 K = N -> i < N -> b < B ->
  length Ks = S i ->
  (forall c, c < head_dim self -> at4 qi b h 0 c = at4 Q b h i c) ->
  (forall j c, j <= i -> c < head_dim self ->
     at4 (nth j Ks empty4) b h 0 c = at4 K b h j c) ->
  (forall j, j <= i -> at4 (nth j Vs empty4) b h 0 e = at4 V b h j e) ->
  at4 (spec_cached_attention self qi Ks Vs (as_additive (causal_mask B 1)) 1)
      b h 0 e
  = sdpa_entry Q K V (as_additive (causal_mask B N)) b h i e.
Proof.
  intros HQ Hqi HK Hi Hb Hlen Hq Hk Hv.
  set (E := fun c =>
         fexp (sumf (head_dim self) (fun x => at4 Q b h i x * at4 K b h c x)
               / sqrt_head_dim self)%fl).
  (* the exponentials of the step *)
  assert (Hstep : forall c, c <= i ->
            score_exp (score_map to_float32
              (spec_scores self qi Ks (as_additive (causal_mask B 1)) 1
                 b h 0 c)) = E c).
  { intros c Hc. unfold spec_scores, spec_dot. rewrite Hqi.
    cbn [as_additive causal_mask dim4_0 dim4_1 dim4_2 dim4_3 at4].
    destruct (Nat.ltb_spec c 1) as [Hc0 | Hc1].
    - assert (c = 0) by lia. subst c.
      change (bidx 1 0) with 0. cbn [Nat.leb add_mask score_map score_exp].
      rewrite add_zero_r, float32_exact. unfold E. f_equal. f_equal.
      apply sumf_ext. intros x Hx.
      rewrite (Hq x Hx), (Hk 0 x (Nat.le_0_l i) Hx). reflexivity.
    - cbn [score_map score_exp]. rewrite float32_exact.
      replace (c - 1 + 1) with c by lia. unfold E. f_equal. f_equal.
      apply sumf_ext. intros x Hx.
      rewrite (Hq x Hx), (Hk c x Hc Hx). reflexivity. }
  (* the exponentials of the causal pass *)
  assert (Hfull : forall c, c < N ->
            score_exp (sdpa_score Q K (as_additive (causal_mask B N))
                         b h i c)
            = if c <=? i then E c else fzero).
  { intros c Hc. unfold sdpa_score. rewrite HQ.
    cbn [as_additive causal_mask dim4_0 dim4_1 dim4_2 dim4_3 at4].
    rewrite (bidx_lt N i Hi), (bidx_lt N c Hc).
    destruct (c <=? i); cbn [add_mask score_exp]; [| reflexivity].
    rewrite add_zero_r, mul_recip. reflexivity. }
  unfold spec_cached_attention. cbn [at4]. cbv zeta.
  unfold range1. rewrite Hlen.
  replace (S i - 1) with i by lia.
  (* the step is a sum over the cached entries *)
  set (w := spec_weights self qi Ks (as_additive (causal_mask B 1)) 1 b h 0).
  rewrite (fold_left_ext_in2
             (fun acc j => (acc + w (1 + j - 1)
                                  * at4 (nth j Vs empty4) b h 0 e)%fl)
             (fun acc j => (acc + (fun c => w c * at4 V b h c e) j)%fl)
             (seq 1 i) _ (sumf 1 (fun c => w c * at4 V b h c e)%fl)).
  2:{ intros acc j Hj. apply in_seq in Hj.
      replace (1 + j - 1) with j by lia.
      rewrite (Hv j) by lia. reflexivity. }
  2:{ apply sumf_ext. intros c Hc. assert (c = 0) by lia. subst c.
      rewrite (Hv 0) by lia. reflexivity. }
  rewrite (fold_left_seq_sumf (fun c => w c * at4 V b h c e)%fl
             (fun c => w c * at4 V b h c e)%fl i 1)
    by reflexivity.
  (* the causal pass only sees the first [i + 1] keys *)
  unfold sdpa_entry. rewrite HK.
  set (Sf := sumf N (fun c' =>
               score_exp (sdpa_score Q K (as_additive (causal_mask B N))
                            b h i c'))).
  assert (HS : Sf = sumf (1 + i) E).
  { unfold Sf.
    rewrite (sumf_ext N _ (fun c => if c <=? i then E c else fzero) Hfull).
    rewrite (sumf_trailing_zeros (1 + i) N) by
      first [ lia
            | intros c Hc _;
              destruct (Nat.leb_spec c i); [lia | reflexivity] ].
    apply sumf_ext. intros c Hc.
    destruct (Nat.leb_spec c i); [reflexivity | lia]. }
  rewrite (sumf_trailing_zeros (1 + i) N).
  2: lia.
  2:{ intros c Hc Hc'. rewrite (Hfull c Hc').
      destruct (Nat.leb_spec c i); [lia |].
      rewrite div_zero_l, mul_zero_l. reflexivity. }
  apply sumf_ext. intros c Hc.
  rewrite (Hfull c) by lia.
  destruct (Nat.leb_spec c i); [| lia].
  unfold w, spec_weights. cbv zeta. rewrite dtype_exact, Hlen.
  replace (1 + (S i - 1)) with (1 + i) by lia.
  rewrite (Hstep c) by lia. rewrite HS.
  rewrite (sumf_ext (1 + i) _ E) by (intros c' Hc'; apply Hstep; lia).
  reflexivity.
Qed.

Lemma heads_in_range (hd nh c : nat) :
  c < hd * nh -> c / hd < nh /\ c mod hd < hd.
Proof.
  intros Hc. assert (0 < hd) by nia. split.
  - apply Nat.Div0.div_lt_upper_bound. exact Hc.
  - apply Nat.mod_upper_bound. lia.
Qed.

Lemma projected_entry_ext (self : Qwen3Attention F)
    (a a' : nat -> nat -> nat -> nat -> F) (b t t' o : nat) :
  (forall h e, h < num_heads self -> e < head_dim self ->
     a b h t e = a' b h t' e) ->
  projected_entry self a b t o = projected_entry self a' b t' o.
Proof.
  intros Ha. unfold projected_entry. apply sumf_ext. intros c Hc.
  destruct (heads_in_range _ _ c Hc) as [Hh He].
  rewrite (Ha _ _ Hh He). reflexivity.
Qed.

(** The pass without cache over the whole sequence. *)
Lemma full_pass_spec (self : Qwen3Attention F) (x : T3 F) (B N : nat)
    (base : Z) (w : world) :
  attention_well_shaped self ->
  shape3 x = (B, N, in_features (q_proj self)) ->
  exists q0 k0 v0 Q K' y,
    project_heads self x = Ok (q0, k0, v0)
    /\ rotate self q0 k0 (arange_positions base N) = Ok (Q, K')
    /\ Qwen3Attention_forward self x None (Some (causal_mask B N))
         (Some (arange_positions base N)) w = (Ok y, w)
    /\ shape3 y = (B, N, out_features (o_proj self))
    /\ forall b t o, b < B -> t < N -> o < out_features (o_proj self) ->
         at3 y b t o
         = projected_entry self
             (sdpa_entry Q (repeat_kv K' (num_key_value_groups self))
                (repeat_kv v0 (num_key_value_groups self))
                (as_additive (causal_mask B N))) b t o.
Proof.
  intros Hws Hx.
  destruct (project_heads_spec self x B N Hws Hx)
    as (q0 & k0 & v0 & Hproj & Hq0 & Hk0 & Hv0 & _).
  destruct (rotate_spec self q0 k0 (arange_positions base N) B
              (num_heads self) (attn_num_key_value_heads self) N Hws Hq0 Hk0
              eq_refl (or_intror eq_refl))
    as (Q & K' & Hrot & HQ & HK' & _).
  destruct (repeat_kv_spec K' (num_key_value_groups self) _ _ _ _ HK')
    as [HK _].
  destruct (repeat_kv_spec v0 (num_key_value_groups self) _ _ _ _ Hv0)
    as [HV _].
  rewrite <- (heads_grouped Hws) in HK, HV.
  destruct (sdpa_spec Q _ _ (as_additive (causal_mask B N)) B
              (num_heads self) N N (head_dim self) HQ HK HV
              (or_introl eq_refl) (or_intror eq_refl) (or_introl eq_refl)
              (or_introl eq_refl))
    as (a & Ha & Has & Hav).
  destruct (merge_heads_spec self a B N Hws Has) as (y & Hy & Hys & Hyv).
  exists q0, k0, v0, Q, K', y.
  split; [exact Hproj |]. split; [exact Hrot |].
  split; [| split; [exact Hys |]].
  - unfold Qwen3Attention_forward. rewrite Hproj. rewrite bindM_lift_ok.
    unfold attention_without_cache. cbn [bind]. rewrite Hrot. cbn [bind].
    cbn [causal_mask]. cbn [as_additive causal_mask] in Ha. rewrite Ha.
    rewrite bindM_lift_ok.
    assert (Ed : dim3_0 x = B /\ dim3_1 x = N)
      by (unfold shape3 in Hx; split; congruence).
    destruct Ed as [-> ->]. unfold liftM. rewrite Hy. reflexivity.
  - intros b t o Hb Ht Ho. rewrite (Hyv b t o Hb Ht Ho).
    apply (projected_entry_ext self (at4 a) _ b t t o). intros h e Hh He.
    apply Hav; assumption.
Qed.

Lemma rotary_angle_token (rotary : Qwen3RotaryEmbedding F) (base : Z)
    (N i c : nat) :
  rotary_angle rotary (add_offset (arange_positions base 1) i) 0 0 c
  = rotary_angle rotary (arange_positions base N) 0 i c.
Proof.
  unfold rotary_angle. cbn [add_offset arange_positions at2].
  replace (base + Z.of_nat 0 + Z.of_nat i)%Z with (base + Z.of_nat i)%Z
    by lia.
  reflexivity.
Qed.

(** Rotating the token at its step is rotating it in the sequence. *)
Lemma rotary_value_token (rotary : Qwen3RotaryEmbedding F) (base : Z)
    (N i : nat) (y yi : T4 F) (b h c : nat) :
  c < len1 (inv_freq rotary) + len1 (inv_freq rotary) ->
  (forall c', c' < len1 (inv_freq rotary) + len1 (inv_freq rotary) ->
     at4 yi b h 0 c' = at4 y b h i c') ->
  rotary_value rotary (add_offset (arange_positions base 1) i) yi b h 0 c
  = rotary_value rotary (arange_positions base N) y b h i c.
Proof.
  intros Hc Hy. unfold rotary_value. cbv zeta.
  cbn [rows2 add_offset arange_positions]. change (bidx 1 b) with 0.
  fold (arange_positions base 1). fold (arange_positions base N).
  fold (add_offset (arange_positions base 1) i).
  rewrite (rotary_angle_token rotary base N i c).
  rewrite (Hy c Hc).
  destruct (Nat.ltb_spec c (len1 (inv_freq rotary))).
  - rewrite (Hy (c + len1 (inv_freq rotary))) by lia. reflexivity.
  - rewrite (Hy (c - len1 (inv_freq rotary))) by lia. reflexivity.
Qed.

Lemma cache_matches_snoc (self : Qwen3Attention F) (B i : nat)
    (entries : list (T4 F)) (whole entry : T4 F) :
  cache_matches self B i entries whole ->
  shape4 entry = (B, num_heads self, 1, head_dim self) ->
  (forall b h c, b < B -> h < num_heads self -> c < head_dim self ->
     at4 entry b h 0 c = at4 whole b h i c) ->
  cache_matches self B (S i) (entries ++ [entry]) whole.
Proof.
  intros (Hlen & Hshape & Hval) Hs Hv. split; [| split].
  - rewrite length_app. simpl. lia.
  - apply Forall_app. split; [exact Hshape |]. constructor; [exact Hs |].
    constructor.
  - intros j b h c Hj Hb Hh Hc.
    destruct (Nat.eq_dec j i) as [-> | Hne].
    + rewrite app_nth2 by lia. rewrite Hlen, Nat.sub_diag. simpl.
      apply Hv; assumption.
    + rewrite app_nth1 by lia. apply Hval; try assumption. lia.
Qed.

Lemma attention_with_cache_run (self : Qwen3Attention F)
    (q0 k0 v0 q k : T4 F) (l : loc) (attention_mask : option (mask F))
    (p : T2 Z) (q_len : nat) (w : world) (keys values : list (T4 F)) :
  nth_error (caches w) l = Some (keys, values) ->
  rotate self q0 k0 (add_offset p (length keys)) = Ok (q, k) ->
  attention_with_cache self q0 k0 v0 l attention_mask (Some p) q_len w
  = (cached_attention self q
       (keys ++ [repeat_kv k (num_key_value_groups self)])
       (values ++ [repeat_kv v0 (num_key_value_groups self)])
       attention_mask q_len,
     mkWorld (set_nth (caches w) l
                (keys ++ [repeat_kv k (num_key_value_groups self)],
                 values ++ [repeat_kv v0 (num_key_value_groups self)]))
             (paged w)).
Proof.
  intros Hl Hrot. unfold attention_with_cache.
  erewrite bindM_ok by (apply read_cache_found; exact Hl).
  cbv beta iota zeta.
  rewrite bindM_lift_ok, Hrot, bindM_lift_ok.
  erewrite bindM_ok by reflexivity.
  erewrite bindM_ok.
  2:{ apply read_cache_found. cbn [caches]. apply nth_error_set_nth_same.
      apply nth_error_Some. rewrite Hl. discriminate. }
  reflexivity.
Qed.

(** One step of the rollout against row [i] of the pass without cache. *)
Lemma step_matches_row (self : Qwen3Attention F) (x : T3 F) (B N : nat)
    (base : Z) (l : loc) (i : nat) (w : world) (Ks Vs : list (T4 F))
    (q0 k0 v0 Q K' : T4 F) :
  attention_well_shaped self ->
  shape3 x = (B, N, in_features (q_proj self)) ->
  project_heads self x = Ok (q0, k0, v0) ->
  rotate self q0 k0 (arange_positions base N) = Ok (Q, K') ->
  i < N ->
  nth_error (caches w) l = Some (Ks, Vs) ->
  cache_matches self B i Ks (repeat_kv K' (num_key_value_groups self)) ->
  cache_matches self B i Vs (repeat_kv v0 (num_key_value_groups self)) ->
  exists out Ks' Vs',
    Qwen3Attention_forward self (token x i) (Some l)
      (Some (causal_mask B 1)) (Some (arange_positions base 1)) w
    = (Ok out, mkWorld (set_nth (caches w) l (Ks', Vs')) (paged w))
    /\ cache_matches self B (S i) Ks'
         (repeat_kv K' (num_key_value_groups self))
    /\ cache_matches self B (S i) Vs'
         (repeat_kv v0 (num_key_value_groups self))
    /\ shape3 out = (B, 1, out_features (o_proj self))
    /\ forall b o, b < B -> o < out_features (o_proj self) ->
         at3 out b 0 o
         = projected_entry self
             (sdpa_entry Q (repeat_kv K' (num_key_value_groups self))
                (repeat_kv v0 (num_key_value_groups self))
                (as_additive (causal_mask B N))) b i o.
Proof.
  intros Hws Hx Hproj Hrot Hi Hl HKs HVs.
  pose proof (heads_grouped Hws) as Hgroup.
  pose proof (rotary_covers Hws) as Hcover.
  (* the pass over the whole sequence *)
  destruct (project_heads_spec self x B N Hws Hx)
    as (q0' & k0' & v0' & Hproj' & Hq0 & Hk0 & Hv0 & Hq0v & Hk0v & Hv0v).
  rewrite Hproj in Hproj'. injection Hproj' as <- <- <-.
  destruct (rotate_spec self q0 k0 (arange_positions base N) B (num_heads self) (attn_num_key_value_heads self) N
              Hws Hq0 Hk0 eq_refl (or_intror eq_refl))
    as (Q' & K'' & Hrot' & HQ & HK' & HQv & HK'v).
  rewrite Hrot in Hrot'. injection Hrot' as <- <-.
  destruct (repeat_kv_spec K' (num_key_value_groups self) _ _ _ _ HK') as [HK HKv].
  destruct (repeat_kv_spec v0 (num_key_value_groups self) _ _ _ _ Hv0) as [HV HVv].
  rewrite <- Hgroup in HK, HV.
  (* the token of this step *)
  assert (Hxi : shape3 (token x i) = (B, 1, in_features (q_proj self))).
  { unfold shape3 in *. cbn [token dim3_0 dim3_1 dim3_2]. congruence. }
  destruct (project_heads_spec self (token x i) B 1 Hws Hxi)
    as (q0i & k0i & v0i & Hproji & Hq0i & Hk0i & Hv0i
        & Hq0iv & Hk0iv & Hv0iv).
  destruct (rotate_spec self q0i k0i
              (add_offset (arange_positions base 1) i) B (num_heads self) (attn_num_key_value_heads self) 1
              Hws Hq0i Hk0i eq_refl (or_intror eq_refl))
    as (Qi & Ki' & Hroti & HQi & HKi' & HQiv & HKi'v).
  destruct (repeat_kv_spec Ki' (num_key_value_groups self) _ _ _ _ HKi') as [HKi HKiv].
  destruct (repeat_kv_spec v0i (num_key_value_groups self) _ _ _ _ Hv0i) as [HVi HViv].
  rewrite <- Hgroup in HKi, HVi.
  (* the step's query, key and value are row [i] of the sequence's *)
  assert (HQrow : forall b h c, b < B -> h < (num_heads self) -> c < (head_dim self) ->
            at4 Qi b h 0 c = at4 Q b h i c).
  { intros b h c Hb Hh Hc.
    rewrite HQiv, HQv by (try assumption; lia).
    apply rotary_value_token; [lia |].
    intros c' Hc'. rewrite Hq0iv, Hq0v by (try assumption; lia).
    reflexivity. }
  assert (Hkvh : forall h, h < (num_heads self) -> h / (num_key_value_groups self) < (attn_num_key_value_heads self)).
  { intros h Hh. apply Nat.Div0.div_lt_upper_bound. lia. }
  assert (HKrow : forall b h c, b < B -> h < (num_heads self) -> c < (head_dim self) ->
            at4 (repeat_kv Ki' (num_key_value_groups self)) b h 0 c = at4 (repeat_kv K' (num_key_value_groups self)) b h i c).
  { intros b h c Hb Hh Hc. rewrite HKiv, HKv.
    rewrite HKi'v, HK'v by (try assumption; try lia; apply Hkvh; assumption).
    apply rotary_value_token; [lia |].
    intros c' Hc'.
    rewrite Hk0iv, Hk0v by (try assumption; try lia; apply Hkvh; assumption).
    reflexivity. }
  assert (HVrow : forall b h c, b < B -> h < (num_heads self) -> c < (head_dim self) ->
            at4 (repeat_kv v0i (num_key_value_groups self)) b h 0 c = at4 (repeat_kv v0 (num_key_value_groups self)) b h i c).
  { intros b h c Hb Hh Hc. rewrite HViv, HVv.
    rewrite Hv0iv, Hv0v by (try assumption; try lia; apply Hkvh; assumption).
    reflexivity. }
  pose proof (cache_matches_snoc self B i Ks _ _ HKs HKi HKrow) as HKs'.
  pose proof (cache_matches_snoc self B i Vs _ _ HVs HVi HVrow) as HVs'.
  destruct HKs as (HKlen & _). destruct HVs as (HVlen & _).
  (* the attention over the extended cache *)
  destruct (cached_attention_refines self Qi
              (Ks ++ [repeat_kv Ki' (num_key_value_groups self)]) (Vs ++ [repeat_kv v0i (num_key_value_groups self)])
              B (num_heads self) 1 (head_dim self) (causal_mask B 1) HQi
              (proj1 (proj2 HKs')) (proj1 (proj2 HVs')))
    as (a & Ha & Has & Hav).
  { intros Hnil. apply (f_equal (@length _)) in Hnil.
    rewrite length_app in Hnil. simpl in Hnil. lia. }
  { rewrite !length_app. simpl. lia. }
  { left. reflexivity. } { right. reflexivity. }
  { left. reflexivity. } { left. reflexivity. }
  assert (Has' : shape4 a = (B, (num_heads self), 1, (head_dim self))).
  { rewrite Has. unfold shape4, spec_cached_attention in *.
    cbn [dim4_0 dim4_1 dim4_2 dim4_3]. congruence. }
  destruct (merge_heads_spec self a B 1 Hws Has') as (out & Hout & Houts & Houtv).
  exists out, (Ks ++ [repeat_kv Ki' (num_key_value_groups self)]), (Vs ++ [repeat_kv v0i (num_key_value_groups self)]).
  split; [| split; [exact HKs' | split; [exact HVs' | split; [exact Houts |]]]].
  - unfold Qwen3Attention_forward. rewrite Hproji, bindM_lift_ok.
    rewrite <- HKlen in Hroti.
    pose proof (attention_with_cache_run self q0i k0i v0i Qi Ki' l
                  (Some (causal_mask B 1)) (arange_positions base 1) 1 w
                  Ks Vs Hl Hroti) as Hrun.
    rewrite Ha in Hrun.
    cbn [token dim3_0 dim3_1].
    erewrite bindM_ok by exact Hrun.
    assert (Ed : dim3_0 x = B) by (unfold shape3 in Hx; congruence).
    rewrite Ed. unfold liftM. rewrite Hout. reflexivity.
  - intros b o Hb Ho. rewrite (Houtv b 0 o Hb (Nat.lt_0_1) Ho).
    apply (projected_entry_ext self (at4 a) _ b 0 i o). intros h e Hh He.
    assert (Hd : dim4_0 a = B /\ dim4_1 a = (num_heads self) /\ dim4_2 a = 1
                 /\ dim4_3 a = (head_dim self)).
    { unfold shape4 in Has'. injection Has' as -> -> -> ->. auto. }
    destruct Hd as (E0 & E1 & E2 & E3).
    rewrite Hav by (rewrite ?E0, ?E1, ?E2, ?E3; lia).
    apply (step_entry_eq self Q _ _ Qi _ _ B N i b h e).
    + unfold shape4 in HQ. congruence.
    + unfold shape4 in HQi. congruence.
    + unfold shape4 in HK. congruence.
    + exact Hi.
    + exact Hb.
    + rewrite length_app. simpl. lia.
    + intros c Hc. apply HQrow; assumption.
    + intros j c Hj Hc. destruct HKs' as (_ & _ & HKs').
      apply HKs'; try assumption; lia.
    + intros j Hj. destruct HVs' as (_ & _ & HVs').
      apply HVs'; try assumption; lia.
Qed.

(** The whole rollout, step by step. *)
Lemma rollout_matches_rows (self : Qwen3Attention F) (x : T3 F) (B N : nat)
    (base : Z) (l : loc) (q0 k0 v0 Q K' : T4 F) :
  attention_well_shaped self ->
  shape3 x = (B, N, in_features (q_proj self)) ->
  project_heads self x = Ok (q0, k0, v0) ->
  rotate self q0 k0 (arange_positions base N) = Ok (Q, K') ->
  forall (n i : nat) (w : world) (Ks Vs : list (T4 F)),
    i + n <= N ->
    nth_error (caches w) l = Some (Ks, Vs) ->
    cache_matches self B i Ks (repeat_kv K' (num_key_value_groups self)) ->
    cache_matches self B i Vs (repeat_kv v0 (num_key_value_groups self)) ->
    exists outs w',
      rollout self (map (token x) (seq i n)) l (Some (causal_mask B 1))
        (Some (arange_positions base 1)) w = (Ok outs, w')
      /\ length outs = n
      /\ forall j, j < n ->
           shape3 (nth j outs empty3) = (B, 1, out_features (o_proj self))
           /\ forall b o, b < B -> o < out_features (o_proj self) ->
                at3 (nth j outs empty3) b 0 o
                = projected_entry self
                    (sdpa_entry Q (repeat_kv K' (num_key_value_groups self))
                       (repeat_kv v0 (num_key_value_groups self))
                       (as_additive (causal_mask B N))) b (i + j) o.
Proof.
  intros Hws Hx Hproj Hrot.
  induction n as [| n IH]; intros i w Ks Vs Hin Hl HKs HVs.
  - exists [], w. split; [reflexivity |]. split; [reflexivity |].
    intros j Hj. lia.
  - destruct (step_matches_row self x B N base l i w Ks Vs q0 k0 v0 Q K'
                Hws Hx Hproj Hrot ltac:(lia) Hl HKs HVs)
      as (out & Ks' & Vs' & Hstep & HKs' & HVs' & Hshape & Hval).
    set (w1 := mkWorld (set_nth (caches w) l (Ks', Vs')) (paged w)) in *.
    assert (Hl1 : nth_error (caches w1) l = Some (Ks', Vs')).
    { unfold w1. cbn [caches]. apply nth_error_set_nth_same.
      apply nth_error_Some. rewrite Hl. discriminate. }
    destruct (IH (S i) w1 Ks' Vs' ltac:(lia) Hl1 HKs' HVs')
      as (outs & w' & Hrest & Hlen & Hrows).
    exists (out :: outs), w'. split; [| split].
    + cbn [seq map rollout].
      erewrite bindM_ok by exact Hstep.
      erewrite bindM_ok by exact Hrest. reflexivity.
    + simpl. rewrite Hlen. reflexivity.
    + intros [| j] Hj.
      * rewrite Nat.add_0_r. simpl. split; [exact Hshape | exact Hval].
      * replace (i + S j) with (S i + j) by lia. simpl.
        apply Hrows. lia.
Qed.

Lemma cat_onto_spec {A} (dflt : T3 A) (ts : list (T3 A)) :
  forall (acc : T3 A) (B m D : nat),
    shape3 acc = (B, m, D) ->
    (forall j, j < length ts -> shape3 (nth j ts dflt) = (B, 1, D)) ->
    exists z,
      cat_onto acc ts = Ok z
      /\ shape3 z = (B, m + length ts, D)
      /\ forall b j o, j < m + length ts ->
           at3 z b j o
           = if j <? m then at3 acc b j o
             else at3 (nth (j - m) ts dflt) b 0 o.
Proof.
  induction ts as [| t rest IH]; intros acc B m D Hacc Hts.
  - exists acc. split; [reflexivity |]. simpl. rewrite Nat.add_0_r.
    split; [exact Hacc |]. intros b j o Hj.
    destruct (Nat.ltb_spec j m); [reflexivity | lia].
  - pose proof (Hts 0 ltac:(simpl; lia)) as Ht. simpl in Ht.
    destruct acc as [aB am aD af]. unfold shape3 in Hacc. simpl in Hacc.
    injection Hacc as -> -> ->.
    destruct t as [tB tm tD tf] eqn:Et. unfold shape3 in Ht. simpl in Ht.
    injection Ht as -> -> ->.
    cbn [cat_onto]. unfold cat3_middle. cbn [dim3_0 dim3_1 dim3_2 at3].
    rewrite !Nat.eqb_refl. cbn [andb bind].
    match goal with
    | |- exists z, cat_onto ?acc' rest = _ /\ _ =>
        destruct (IH acc' B (m + 1) D eq_refl) as (z & Hz & Hzs & Hzv)
    end.
    { intros j Hj. apply (Hts (S j)). simpl. lia. }
    exists z. split; [exact Hz |].
    split; [rewrite Hzs; simpl; f_equal; f_equal; lia |].
    intros b j o Hj. rewrite Hzv by (simpl in Hj; lia). cbn [at3].
    destruct (Nat.ltb_spec j (m + 1)) as [Hlt | Hge].
    + destruct (Nat.ltb_spec j m) as [Hlt' | Hge']; [reflexivity |].
      replace (j - m) with 0 by lia. reflexivity.
    + destruct (Nat.ltb_spec j m) as [Hlt' | Hge']; [lia |].
      replace (j - m) with (S (j - (m + 1))) by lia. reflexivity.
Qed.

Lemma cat_dim1_spec {A} (dflt : T3 A) (ts : list (T3 A)) (B D : nat) :
  ts <> [] ->
  (forall j, j < length ts -> shape3 (nth j ts dflt) = (B, 1, D)) ->
  exists z,
    cat_dim1 ts = Ok z
    /\ shape3 z = (B, length ts, D)
    /\ forall b j o, j < length ts ->
         at3 z b j o = at3 (nth j ts dflt) b 0 o.
Proof.
  intros Hne Hts. destruct ts as [| t rest]; [contradiction |].
  destruct (cat_onto_spec dflt rest t B 1 D (Hts 0 ltac:(simpl; lia)))
    as (z & Hz & Hzs & Hzv).
  { intros j Hj. apply (Hts (S j)). simpl. lia. }
  exists z. split; [exact Hz |]. split; [exact Hzs |].
  intros b j o Hj. rewrite Hzv by (simpl in Hj; lia).
  destruct j as [| j]; simpl; [reflexivity |].
  rewrite Nat.sub_0_r. reflexivity.
Qed.

(** C1. In arithmetic without rounding, and for a rope type whose
    frequencies stay as constructed (neither dynamic nor longrope, so
    that every call rotates with the same table), a rollout in
    cache-accumulation mode that starts from an empty cache and feeds
    the N tokens of a sequence one per step, each step with the same
    position id and the one-by-one causal mask, returns outputs whose
    concatenation along the sequence axis is the output of one pass
    without cache over the N-token sequence with consecutive position
    ids and the additive causal mask. *)
Theorem cache_rollout_equals_causal_pass (self : Qwen3Attention F)
    (x : T3 F) (B N : nat) (base : Z) (l : loc) (w : world) :
  attention_well_shaped self ->
  static_rope (rotary_emb self) = true ->
  shape3 x = (B, N, in_features (q_proj self)) ->
  1 <= N ->
  nth_error (caches w) l = Some ([], []) ->
  exists y outs w' z,
    Qwen3Attention_forward self x None (Some (causal_mask B N))
      (Some (arange_positions base N)) w = (Ok y, w)
    /\ rollout self (tokens x) l (Some (causal_mask B 1))
         (Some (arange_positions base 1)) w = (Ok outs, w')
    /\ length outs = N
    /\ cat_dim1 outs = Ok z
    /\ teq3 z y.
Proof.
  intros Hws _ Hx HN Hl.
  destruct (full_pass_spec self x B N base w Hws Hx)
    as (q0 & k0 & v0 & Q & K' & y & Hproj & Hrot & Hfull & Hys & Hyv).
  assert (Hempty : forall whole, cache_matches self B 0 [] whole).
  { intros whole. split; [reflexivity |]. split; [constructor |].
    intros j b h c Hj. lia. }
  destruct (rollout_matches_rows self x B N base l q0 k0 v0 Q K'
              Hws Hx Hproj Hrot N 0 w [] [] ltac:(lia) Hl
              (Hempty _) (Hempty _))
    as (outs & w' & Hroll & Hlen & Hrows).
  destruct (cat_dim1_spec empty3 outs B (out_features (o_proj self)))
    as (z & Hz & Hzs & Hzv).
  { intros Hnil. rewrite Hnil in Hlen. simpl in Hlen. lia. }
  { intros j Hj. apply Hrows. lia. }
  exists y, outs, w', z.
  split; [exact Hfull |]. split.
  { unfold tokens. replace (dim3_1 x) with N
      by (unfold shape3 in Hx; congruence). exact Hroll. }
  split; [exact Hlen |]. split; [exact Hz |].
  split; [rewrite Hzs, Hys, Hlen; reflexivity |].
  intros b t o Hb Ht Ho.
  assert (Hd : dim3_0 z = B /\ dim3_1 z = N
               /\ dim3_2 z = out_features (o_proj self)).
  { unfold shape3 in Hzs. rewrite Hlen in Hzs.
    injection Hzs as -> -> ->. auto. }
  destruct Hd as (E0 & E1 & E2). rewrite E0 in Hb. rewrite E1 in Ht.
  rewrite E2 in Ho.
  rewrite Hzv by lia.
  destruct (Hrows t Ht) as [_ Hrow].
  rewrite (Hrow b o Hb Ho), (Hyv b t o Hb Ht Ho). reflexivity.
Qed.

End Pipeline.

Lemma R_scalar_exact : @ExactScalar R R_scalar.
Proof.
  constructor; intros; simpl; try reflexivity; try (unfold Rdiv; ring).
Qed.

Lemma toy_attention_well_shaped : attention_well_shaped toy_attention.
Proof. constructor; reflexivity. Qed.

Section RolloutWitness.

Local Existing Instance R_scalar.
Local Existing Instance toy_collaborators.

Lemma cache_rollout_equals_causal_pass_witness :
  @ExactScalar R R_scalar
  /\ attention_well_shaped toy_attention
  /\ static_rope (rotary_emb toy_attention) = true
  /\ shape3 toy_long_step = (1, 2, in_features (q_proj toy_attention))
  /\ 1 <= 2
  /\ nth_error (caches fresh_world) 0 = Some ([], [])
  /\ exists y outs w' z,
       Qwen3Attention_forward toy_attention toy_long_step None
         (Some (causal_mask 1 2)) (Some (arange_positions 0 2)) fresh_world
       = (Ok y, fresh_world)
       /\ rollout toy_attention (tokens toy_long_step) 0
            (Some (causal_mask 1 1)) (Some (arange_positions 0 1))
            fresh_world = (Ok outs, w')
       /\ length outs = 2
       /\ cat_dim1 outs = Ok z
       /\ teq3 z y.
Proof.
  assert (H3 : shape3 toy_long_step
               = (1, 2, in_features (q_proj toy_attention))) by reflexivity.
  assert (H4 : 1 <= 2) by lia.
  assert (H5 : nth_error (caches fresh_world) 0 = Some ([], []))
    by reflexivity.
  split; [exact R_scalar_exact |].
  split; [exact toy_attention_well_shaped |]. split; [reflexivity |].
  split; [exact H3 |]. split; [exact H4 |]. split; [exact H5 |].
  exact (cache_rollout_equals_causal_pass (EXACT := R_scalar_exact)
           toy_attention toy_long_step 1 2 0%Z 0 fresh_world
           toy_attention_well_shaped eq_refl H3 H4 H5).
Defined.

End RolloutWitness.

(** ** The block-sparse backend *)

Section FlexForward.

Context {F : Type} {SF : Scalar F} {EX : Collaborators F}.

Lemma read_paged_found (p : loc) (w : world) (c : PagedCache) :
  nth_error (paged w) p = Some c -> read_paged p w = (Ok c, w).
Proof. intros H. unfold read_paged. rewrite H. reflexivity. Qed.

(** C4. A call of Qwen3FlexAttention.forward with a paged cache that
    returns has computed the rotary tables at the position ids plus the
    sequence length of the cache at entry integer-divided by the query
    length, has handed the rotated key and the value of this step to
    update and stored the cache state update left, and has built the
    block mask with the generator applied to the sums of the rows of
    attention_mask minus that offset, the query length, the length of
    the key tensor update returned, and that same offset as left
    shift. *)
Theorem flex_forward_offset_cache_and_mask (self : Qwen3Attention F)
    (hidden_states : T3 F) (attention_mask : option (mask F))
    (position_ids : option (T2 Z)) (p : loc) (w w' : world)
    (c : PagedCache) (out : T3 F) :
  nth_error (paged w) p = Some c ->
  Qwen3FlexAttention_forward self hidden_states attention_mask position_ids
    (Some p) w = (Ok out, w') ->
  let bsz := dim3_0 hidden_states in
  let q_len := dim3_1 hidden_states in
  let past := get_seq_length c in
  let lck := past / q_len in
  q_len <> 0
  /\ exists q0 k0 v0 pos cos sin query key m key_cache value_cache c',
       project_heads self hidden_states = Ok (q0, k0, v0)
       /\ position_ids = Some pos
       /\ Qwen3RotaryEmbedding_forward (rotary_emb self) (add_offset pos lck)
          = Ok (cos, sin)
       /\ apply_rotary_pos_emb q0 k0 cos sin = Ok (query, key)
       /\ cache_update c key v0 0
            (mkCacheKwargs sin cos
               (mkT1 q_len (fun i => Z.of_nat (past + i))))
          = ((key_cache, value_cache), c')
       /\ caches w' = caches w
       /\ paged w' = set_nth (paged w) p c'
       /\ attention_mask = Some m
       /\ (forall m2, m = PaddingMask m2 ->
             seq_lengths_of m lck
             = Lengths1 (mkT1 (rows2 m2) (fun b =>
                 (sumZ (cols2 m2) (fun t => at2 m2 b t) - Z.of_nat lck)%Z)))
       /\ exists block_mask attn_output,
            (if q_len <=? 128 then create_block_mask
             else compile_friendly_create_block_mask)
              (generate_eagle3_mask (seq_lengths_of m lck) q_len
                 (dim4_2 key_cache) lck)
              bsz 1 q_len (dim4_2 key_cache) = Ok block_mask
            /\ (if q_len <=? 128 then flex_attention
                else compile_friendly_flex_attention)
                 query key_cache value_cache block_mask true
               = Ok attn_output
            /\ merge_heads self bsz q_len attn_output = Ok out.
Proof.
  intros Hc Hrun. cbv zeta.
  unfold Qwen3FlexAttention_forward in Hrun.
  erewrite bindM_ok in Hrun.
  2:{ erewrite bindM_ok by (apply read_paged_found; exact Hc).
      reflexivity. }
  destruct (project_heads self hidden_states) as [[[q0 k0] v0] | e];
    [rewrite bindM_lift_ok in Hrun
    | rewrite bindM_lift_err in Hrun; discriminate].
  unfold floordiv in Hrun.
  destruct (Nat.eqb_spec (dim3_1 hidden_states) 0) as [Hz | Hnz];
    [rewrite bindM_lift_err in Hrun; discriminate
    | rewrite bindM_lift_ok in Hrun].
  split; [exact Hnz |].
  destruct position_ids as [pos |];
    [rewrite bindM_lift_ok in Hrun
    | rewrite bindM_lift_err in Hrun; discriminate].
  destruct (Qwen3RotaryEmbedding_forward (rotary_emb self) _)
    as [[cos sin] | e] eqn:Hrot;
    [rewrite bindM_lift_ok in Hrun
    | rewrite bindM_lift_err in Hrun; discriminate].
  destruct (apply_rotary_pos_emb q0 k0 cos sin) as [[query key] | e] eqn:Happ;
    [rewrite bindM_lift_ok in Hrun
    | rewrite bindM_lift_err in Hrun; discriminate].
  cbv zeta in Hrun.
  destruct (cache_update c key v0 0
              (mkCacheKwargs sin cos
                 (mkT1 (dim3_1 hidden_states)
                    (fun i => Z.of_nat (get_seq_length c + i)))))
    as [[key_cache value_cache] c'] eqn:Hupd.
  erewrite bindM_ok in Hrun.
  2:{ erewrite bindM_ok by (apply read_paged_found; exact Hc).
      rewrite Hupd. erewrite bindM_ok by reflexivity. reflexivity. }
  destruct attention_mask as [m |];
    [rewrite bindM_lift_ok in Hrun
    | rewrite bindM_lift_err in Hrun; discriminate].
  exists q0, k0, v0, pos, cos, sin, query, key, m, key_cache, value_cache, c'.
  split; [reflexivity |]. split; [reflexivity |]. split; [exact Hrot |].
  split; [exact Happ |]. split; [exact Hupd |].
  destruct (dim3_1 hidden_states <=? 128).
  - destruct (create_block_mask _ _ _ _ _) as [block_mask | e] eqn:Hbm;
      [rewrite bindM_lift_ok in Hrun
      | rewrite bindM_lift_err in Hrun; discriminate].
    destruct (flex_attention query key_cache value_cache block_mask true)
      as [a | e] eqn:Hfa;
      [rewrite bindM_lift_ok in Hrun
      | rewrite bindM_lift_err in Hrun; discriminate].
    unfold liftM in Hrun. injection Hrun as Hout <-.
    split; [reflexivity |]. split; [reflexivity |]. split; [reflexivity |].
    split; [intros m2 ->; reflexivity |].
    exists block_mask, a. auto.
  - destruct (compile_friendly_create_block_mask _ _ _ _ _)
      as [block_mask | e] eqn:Hbm;
      [rewrite bindM_lift_ok in Hrun
      | rewrite bindM_lift_err in Hrun; discriminate].
    destruct (compile_friendly_flex_attention query key_cache value_cache
                block_mask true) as [a | e] eqn:Hfa;
      [rewrite bindM_lift_ok in Hrun
      | rewrite bindM_lift_err in Hrun; discriminate].
    unfold liftM in Hrun. injection Hrun as Hout <-.
    split; [reflexivity |]. split; [reflexivity |]. split; [reflexivity |].
    split; [intros m2 ->; reflexivity |].
    exists block_mask, a. auto.
Qed.

End FlexForward.

Section FlexWitness.

Local Existing Instance R_scalar.
Local Existing Instance toy_collaborators.

Lemma flex_forward_toy_succeeds :
  exists out w',
    Qwen3FlexAttention_forward toy_attention toy_step (Some toy_padding)
      (Some toy_positions) (Some 0) paged_world = (Ok out, w').
Proof.
  destruct (project_heads_spec toy_attention toy_step 1 1
              toy_attention_well_shaped eq_refl)
    as (q0 & k0 & v0 & Hproj & Hq0 & Hk0 & Hv0 & _).
  destruct (rotary_forward_spec (rotary_emb toy_attention)
              (add_offset toy_positions 0))
    as (cos & sin & Hfwd & Hcs & Hss & _).
  rewrite Hcs in Hss.
  destruct (apply_rotary_spec q0 k0 cos sin 1 1 1 1 1 1 Hq0 Hk0 Hcs Hss
              (or_introl eq_refl))
    as (query & key & Happ & Hqs & Hks & _).
  destruct (merge_heads_spec toy_attention query 1 1
              toy_attention_well_shaped Hqs) as (out & Hout & _).
  exists out. eexists.
  unfold Qwen3FlexAttention_forward.
  erewrite bindM_ok.
  2:{ erewrite bindM_ok by (apply read_paged_found; reflexivity).
      reflexivity. }
  rewrite Hproj, bindM_lift_ok.
  change (floordiv _ _) with (@Ok nat 0).
  rewrite bindM_lift_ok, bindM_lift_ok.
  rewrite Hfwd, bindM_lift_ok, Happ, bindM_lift_ok.
  cbv zeta.
  erewrite bindM_ok.
  2:{ erewrite bindM_ok by (apply read_paged_found; reflexivity).
      cbn [cache_update toy_collaborators simple_collaborators].
      erewrite bindM_ok by reflexivity. reflexivity. }
  cbv beta iota. rewrite bindM_lift_ok.
  change (dim3_1 toy_step <=? 128) with true. cbv beta iota.
  cbn [create_block_mask toy_collaborators simple_collaborators].
  rewrite bindM_lift_ok.
  cbn [flex_attention toy_collaborators simple_collaborators].
  rewrite bindM_lift_ok.
  change (dim3_0 toy_step) with 1. change (dim3_1 toy_step) with 1.
  unfold liftM. rewrite Hout. reflexivity.
Qed.

Lemma flex_forward_offset_cache_and_mask_witness :
  nth_error (paged paged_world) 0 = Some 0
  /\ exists out w',
       Qwen3FlexAttention_forward toy_attention toy_step (Some toy_padding)
         (Some toy_positions) (Some 0) paged_world = (Ok out, w')
       /\ dim3_1 toy_step <> 0
       /\ caches w' = caches paged_world.
Proof.
  split; [reflexivity |].
  destruct flex_forward_toy_succeeds as (out & w' & Hrun).
  exists out, w'. split; [exact Hrun |].
  destruct (flex_forward_offset_cache_and_mask toy_attention toy_step
              (Some toy_padding) (Some toy_positions) 0 paged_world w' 0 out
              eq_refl Hrun)
    as (Hq & q0 & k0 & v0 & pos & cos & sin & query & key & m & kc & vc & c'
        & _ & _ & _ & _ & _ & Hcaches & _).
  split; [exact Hq | exact Hcaches].
Defined.

End FlexWitness.

(** ** The fixed-size sampler *)

Section SamplerProofs.

Context {ENV : SamplerEnv}.

(** [random.randint(a, b)] returns an integer between [a] and [b]. *)
Hypothesis randint_in_range :
  forall a b g, (a <= b)%Z ->
    (a <= fst (random_randint a b g) <= b)%Z.

Lemma in_set_nth {A} (l : list A) (i : nat) (y x : A) :
  In x (set_nth l i y) -> x = y \/ In x l.
Proof.
  revert i. induction l as [| z t IH]; intros [| i] H; simpl in *;
    try contradiction.
  - destruct H as [<- | H]; auto.
  - destruct H as [<- | H]; auto.
    destruct (IH i H); auto.
Qed.

Lemma map_set_nth {A B} (f : A -> B) (l : list A) (i : nat) (y : A) :
  map f (set_nth l i y) = set_nth (map f l) i (f y).
Proof.
  revert i. induction l as [| z t IH]; intros [| i]; simpl; auto.
  f_equal. apply IH.
Qed.

Lemma NoDup_set_nth {A} (l : list A) (i : nat) (y : A) :
  NoDup l -> ~ In y l -> NoDup (set_nth l i y).
Proof.
  revert i. induction l as [| z t IH]; intros [| i] Hnd Hy; simpl;
    try (constructor; fail).
  - inversion Hnd; subst. constructor; [| assumption].
    intros Hin. apply Hy. right. exact Hin.
  - inversion Hnd; subst. constructor.
    + intros Hin. apply in_set_nth in Hin. destruct Hin as [-> | Hin].
      * apply Hy. left. reflexivity.
      * contradiction.
    + apply IH; [assumption |]. intros Hin. apply Hy. right. exact Hin.
Qed.

Lemma valid_items_app (validate : bool) (l1 l2 : list (nat * string)) :
  valid_items validate (l1 ++ l2)
  = valid_items validate l1 ++ valid_items validate l2.
Proof. unfold valid_items. apply filter_app. Qed.

Lemma increasing_app_lt (l1 l2 : list (nat * string)) (x y : nat * string) :
  increasing (l1 ++ l2) -> In x l1 -> In y l2 -> fst x < fst y.
Proof.
  unfold increasing. induction l1 as [| z t IH]; intros Hs Hx Hy;
    [contradiction |].
  simpl in Hs. inversion Hs as [| ? ? Hs' Hall]; subst.
  destruct Hx as [-> | Hx].
  - rewrite Forall_forall in Hall. apply Hall. apply in_or_app. right.
    exact Hy.
  - apply IH; assumption.
Qed.

(** One iteration keeps the invariant and never raises. *)
Lemma sample_step_invariant (sample_size : Z) (validate : bool)
    (done : list (nat * string)) (st : sampler) (item : nat * string) :
  sampler_invariant sample_size validate done st ->
  (forall x, In x done -> fst x < fst item) ->
  exists st',
    sample_step sample_size validate st item = Ok st'
    /\ sampler_invariant sample_size validate (done ++ [item]) st'.
Proof.
  intros (Htot & Hval & Hlen & Hincl & Hnd) Hfresh.
  destruct item as [pos raw]. unfold sample_step.
  unfold sampler_invariant. rewrite valid_items_app, !length_app.
  cbn [length valid_items filter snd].
  assert (Hnew : ~ In pos (map fst (reservoir st))).
  { intros Hin. apply in_map_iff in Hin. destruct Hin as (x & Hx & Hin).
    apply Hincl in Hin. unfold valid_items in Hin.
    apply filter_In in Hin. destruct Hin as [Hin _].
    apply Hfresh in Hin. simpl in Hin. lia. }
  destruct (validate && negb (validate_jsonl_line raw)) eqn:Hskip;
    cbn [negb length].
  - (* a line that does not validate is skipped *)
    eexists. split; [reflexivity |]. cbn [total_seen valid_seen reservoir].
    rewrite app_nil_r, Nat.add_0_r.
    split; [lia |]. split; [lia |]. split; [lia |].
    split; assumption.
  - destruct (Z.ltb_spec (Z.of_nat (length (reservoir st))) sample_size)
      as [Hroom | Hfull].
    + (* the reservoir still has room *)
      eexists. split; [reflexivity |].
      cbn [total_seen valid_seen reservoir].
      rewrite length_app, map_app. cbn [length map fst].
      split; [lia |]. split; [lia |]. split; [lia |]. split.
      * intros x Hx. apply in_app_or in Hx. apply in_or_app.
        destruct Hx as [Hx | [<- | []]]; [left; apply Hincl; exact Hx |].
        right. left. reflexivity.
      * apply NoDup_app; [exact Hnd | |].
        -- constructor; [intros [] | constructor].
        -- intros x Hx [<- | []]. contradiction.
    + (* a full reservoir: draw the slot *)
      pose proof (randint_in_range 1 (valid_seen st + 1) (generator st)
                    ltac:(lia)) as Hj.
      destruct (random_randint 1 (valid_seen st + 1) (generator st))
        as [j g]. cbn [fst] in Hj.
      destruct (Z.leb_spec j sample_size) as [Hhit | Hmiss].
      * unfold list_assign.
        destruct (Z.leb_spec 0 (j - 1)) as [_ | ?]; [| lia].
        destruct (Z.ltb_spec (j - 1) (Z.of_nat (length (reservoir st))))
          as [_ | ?]; [| lia].
        cbn [andb bind].
        eexists. split; [reflexivity |].
        cbn [total_seen valid_seen reservoir].
        rewrite set_nth_length, map_set_nth. cbn [fst].
        split; [lia |]. split; [lia |]. split; [lia |]. split.
        -- intros x Hx. apply in_set_nth in Hx. apply in_or_app.
           destruct Hx as [-> | Hx]; [right; left; reflexivity |].
           left. apply Hincl. exact Hx.
        -- apply NoDup_set_nth; assumption.
      * eexists. split; [reflexivity |].
        cbn [total_seen valid_seen reservoir].
        split; [lia |]. split; [lia |]. split; [lia |]. split.
        -- intros x Hx. apply in_or_app. left. apply Hincl. exact Hx.
        -- exact Hnd.
Qed.

Lemma sample_loop_invariant (sample_size : Z) (validate : bool)
    (items : list (nat * string)) :
  forall (done : list (nat * string)) (st : sampler),
    sampler_invariant sample_size validate done st ->
    increasing (done ++ items) ->
    exists st',
      sample_loop sample_size validate items st = Ok st'
      /\ sampler_invariant sample_size validate (done ++ items) st'.
Proof.
  induction items as [| item rest IH]; intros done st Hinv Hinc.
  - exists st. rewrite app_nil_r. split; [reflexivity | exact Hinv].
  - destruct (sample_step_invariant sample_size validate done st item Hinv)
      as (st1 & Hstep & Hinv1).
    { intros x Hx. apply (increasing_app_lt done (item :: rest) x item Hinc Hx).
      left. reflexivity. }
    replace (done ++ item :: rest) with ((done ++ [item]) ++ rest) in *
      by (rewrite <- app_assoc; reflexivity).
    destruct (IH (done ++ [item]) st1 Hinv1 Hinc) as (st' & Hloop & Hinv').
    exists st'. split; [| exact Hinv'].
    cbn [sample_loop]. rewrite Hstep. cbn [bind]. exact Hloop.
Qed.

(** The loop reads the items once, in order: running it over two
    stretches of the file is running it over the first and going on
    from there over the second. *)
Lemma sample_loop_app (sample_size : Z) (validate : bool)
    (l1 l2 : list (nat * string)) :
  forall st,
    sample_loop sample_size validate (l1 ++ l2) st
    = (st' <- sample_loop sample_size validate l1 st ;;
       sample_loop sample_size validate l2 st').
Proof.
  induction l1 as [| item rest IH]; intros st; [reflexivity |].
  cbn [app sample_loop].
  destruct (sample_step sample_size validate st item) as [st1 | e];
    cbn [bind]; [apply IH | reflexivity].
Qed.

(** *** Sorting by position *)

Lemma in_insert_by_pos (x z : nat * string) (l : list (nat * string)) :
  In z (insert_by_pos x l) <-> z = x \/ In z l.
Proof.
  induction l as [| y t IH]; simpl.
  - split; intros [H | H]; auto; contradiction.
  - destruct (fst x <=? fst y); simpl.
    + split; intros [H | H]; auto.
    + rewrite IH. split; intros H; intuition.
Qed.

Lemma length_insert_by_pos (x : nat * string) (l : list (nat * string)) :
  length (insert_by_pos x l) = S (length l).
Proof.
  induction l as [| y t IH]; simpl; [reflexivity |].
  destruct (fst x <=? fst y); simpl; [reflexivity | rewrite IH; reflexivity].
Qed.

Lemma increasing_insert_by_pos (x : nat * string) (l : list (nat * string)) :
  increasing l -> ~ In (fst x) (map fst l) -> increasing (insert_by_pos x l).
Proof.
  unfold increasing. induction l as [| y t IH]; intros Hs Hx; simpl.
  - constructor; constructor.
  - inversion Hs as [| ? ? Hs' Hall]; subst.
    assert (Hne : fst x <> fst y) by (intros E; apply Hx; left; auto).
    destruct (Nat.leb_spec (fst x) (fst y)) as [Hle | Hgt].
    + constructor; [exact Hs |]. constructor; [lia |].
      rewrite Forall_forall in *. intros z Hz. specialize (Hall z Hz). lia.
    + constructor.
      * apply IH; [exact Hs' |]. intros Hin. apply Hx. right. exact Hin.
      * rewrite Forall_forall in *. intros z Hz.
        apply in_insert_by_pos in Hz. destruct Hz as [-> | Hz];
          [lia | apply Hall; exact Hz].
Qed.

Lemma sort_by_pos_spec (l : list (nat * string)) :
  NoDup (map fst l) ->
  increasing (sort_by_pos l)
  /\ length (sort_by_pos l) = length l
  /\ forall z, In z (sort_by_pos l) <-> In z l.
Proof.
  induction l as [| x t IH]; intros Hnd.
  - split; [constructor |]. split; [reflexivity |]. intros z. reflexivity.
  - simpl in Hnd. inversion Hnd as [| ? ? Hx Hnd']; subst.
    destruct (IH Hnd') as (Hs & Hlen & Hin).
    cbn [sort_by_pos fold_right]. fold (sort_by_pos t).
    split; [| split].
    + apply increasing_insert_by_pos; [exact Hs |].
      intros Hin'. apply Hx. apply in_map_iff in Hin'.
      destruct Hin' as (z & Hz & Hz'). apply in_map_iff. exists z.
      split; [exact Hz | apply Hin; exact Hz'].
    + rewrite length_insert_by_pos, Hlen. reflexivity.
    + intros z. rewrite in_insert_by_pos, Hin. simpl.
      split; intros [H | H]; auto.
Qed.

(** *** Increasing selections are subsequences *)

Lemma subseq_nil_l {A} (l : list A) : subseq [] l.
Proof. induction l; constructor; assumption. Qed.

Lemma subseq_map {A B} (f : A -> B) (l1 l2 : list A) :
  subseq l1 l2 -> subseq (map f l1) (map f l2).
Proof. induction 1; simpl; constructor; assumption. Qed.

Lemma subseq_in {A} (l1 l2 : list A) (x : A) :
  subseq l1 l2 -> In x l1 -> In x l2.
Proof.
  induction 1; intros Hin; simpl in *; auto.
  destruct Hin as [-> | Hin]; auto.
Qed.

Lemma increasing_incl_subseq (whole : list (nat * string)) :
  increasing whole ->
  forall part, increasing part -> incl part whole -> subseq part whole.
Proof.
  unfold increasing. induction whole as [| y rest IH]; intros Hw part Hp Hincl.
  - destruct part as [| x part]; [constructor |].
    destruct (Hincl x (or_introl eq_refl)).
  - inversion Hw as [| ? ? Hw' Hally]; subst.
    rewrite Forall_forall in Hally.
    destruct part as [| x part]; [apply subseq_nil_l |].
    inversion Hp as [| ? ? Hp' Hallx]; subst.
    rewrite Forall_forall in Hallx.
    destruct (Hincl x (or_introl eq_refl)) as [<- | Hx].
    + apply subseq_take. apply IH; [exact Hw' | exact Hp' |].
      intros z Hz. destruct (Hincl z (or_intror Hz)) as [<- | Hz'];
        [| exact Hz'].
      specialize (Hallx _ Hz). lia.
    + apply subseq_skip. apply IH; [exact Hw' | exact Hp |].
      intros z Hz. destruct (Hincl z Hz) as [<- | Hz']; [| exact Hz'].
      specialize (Hally _ Hx).
      destruct Hz as [<- | Hz]; [lia |].
      specialize (Hallx _ Hz). lia.
Qed.

Lemma increasing_combine_seq (lines : list string) :
  forall a, increasing (combine (seq a (length lines)) lines).
Proof.
  unfold increasing. induction lines as [| x t IH]; intros a; simpl.
  - constructor.
  - constructor; [apply IH |].
    rewrite Forall_forall. intros [p r] Hin. apply in_combine_l in Hin.
    apply in_seq in Hin. simpl. lia.
Qed.

Lemma increasing_filter (f : nat * string -> bool) (l : list (nat * string)) :
  increasing l -> increasing (filter f l).
Proof.
  unfold increasing. induction l as [| x t IH]; intros Hs; simpl;
    [constructor |].
  inversion Hs as [| ? ? Hs' Hall]; subst.
  destruct (f x); [| apply IH; exact Hs'].
  constructor; [apply IH; exact Hs' |].
  rewrite Forall_forall in *. intros z Hz. apply filter_In in Hz.
  apply Hall. tauto.
Qed.

Lemma valid_items_lines (validate : bool) (input : list string) :
  forall a,
    map snd (valid_items validate (combine (seq a (length input)) input))
    = valid_lines validate input.
Proof.
  unfold valid_items, valid_lines.
  induction input as [| x t IH]; intros a; simpl; [reflexivity |].
  destruct (negb (validate && negb (validate_jsonl_line x))); simpl;
    rewrite IH; reflexivity.
Qed.

Lemma map_snd_combine_seq (input : list string) :
  forall a, map snd (combine (seq a (length input)) input) = input.
Proof.
  induction input as [| x t IH]; intros a; simpl; [reflexivity |].
  rewrite IH. reflexivity.
Qed.

Lemma length_valid_items (validate : bool) (input : list string) :
  length (valid_items validate (iter_lines input))
  = length (valid_lines validate input).
Proof.
  unfold iter_lines. rewrite <- (valid_items_lines validate input 1).
  rewrite length_map. reflexivity.
Qed.

(** C9, as the code has it.  sample_fixed_size reads the lines once,
    in order, and never raises; it writes min(max(size, 0), number of
    valid lines) lines, which is min(size, number of valid lines) for a
    size that is not negative; the lines written are lines of the
    input, in the order they have there; and a second run on the same
    input with the same seed writes the same. *)
Theorem sample_fixed_size_writes_ordered_sample (input : list string)
    (sample_size seed : Z) (validate : bool) :
  exists out,
    sample_fixed_size input sample_size seed validate
    = Ok (out, (Z.of_nat (length input),
                Z.of_nat (length (valid_lines validate input))))
    /\ length out
       = Nat.min (Z.to_nat sample_size) (length (valid_lines validate input))
    /\ ((0 <= sample_size)%Z ->
        Z.of_nat (length out)
        = Z.min sample_size (Z.of_nat (length (valid_lines validate input))))
    /\ subseq out (valid_lines validate input)
    /\ subseq out input
    /\ (forall line, In line out -> In line input)
    /\ (forall l1 l2 st,
          sample_loop sample_size validate (l1 ++ l2) st
          = (st' <- sample_loop sample_size validate l1 st ;;
             sample_loop sample_size validate l2 st'))
    /\ (forall r1 r2,
          sample_fixed_size input sample_size seed validate = Ok r1 ->
          sample_fixed_size input sample_size seed validate = Ok r2 ->
          r1 = r2).
Proof.
  assert (Hinit : sampler_invariant sample_size validate []
                    (mkSampler [] 0 0 (random_seed seed))).
  { unfold sampler_invariant. cbn [total_seen valid_seen reservoir length
                                    valid_items filter map].
    split; [reflexivity |]. split; [reflexivity |].
    split; [rewrite Nat.min_0_r; reflexivity |].
    split; [intros x [] | constructor]. }
  pose proof (increasing_combine_seq input 1) as Hinc.
  fold (iter_lines input) in Hinc.
  destruct (sample_loop_invariant sample_size validate (iter_lines input)
              [] _ Hinit Hinc)
    as (st & Hloop & Htot & Hval & Hlen & Hincl & Hnd).
  cbn [app] in Htot, Hval, Hlen, Hincl.
  destruct (sort_by_pos_spec (reservoir st) Hnd) as (Hsort & Hslen & Hsin).
  rewrite length_valid_items in Hval, Hlen.
  assert (Htotal : total_seen st = Z.of_nat (length input)).
  { rewrite Htot. unfold iter_lines. rewrite length_combine, length_seq.
    rewrite Nat.min_id. reflexivity. }
  exists (map snd (sort_by_pos (reservoir st))).
  assert (Hlength : length (map snd (sort_by_pos (reservoir st)))
                    = Nat.min (Z.to_nat sample_size)
                        (length (valid_lines validate input)))
    by (rewrite length_map, Hslen; exact Hlen).
  assert (Hsub : subseq (map snd (sort_by_pos (reservoir st))) input).
  { rewrite <- (map_snd_combine_seq input 1) at 1.
    apply subseq_map. apply increasing_incl_subseq;
      [exact Hinc | exact Hsort |].
    intros z Hz. apply Hsin in Hz. apply Hincl in Hz.
    unfold valid_items in Hz. apply filter_In in Hz. tauto. }
  split; [| split; [exact Hlength | split; [| split; [| split;
    [exact Hsub | split; [| split]]]]]].
  - unfold sample_fixed_size. rewrite Hloop. cbn [bind].
    rewrite Htotal, Hval. reflexivity.
  - intros Hpos. rewrite Hlength. lia.
  - rewrite <- (valid_items_lines validate input 1).
    apply subseq_map. apply increasing_incl_subseq.
    + apply increasing_filter. exact Hinc.
    + exact Hsort.
    + intros z Hz. apply Hsin in Hz. apply Hincl. exact Hz.
  - intros line Hin. apply (subseq_in _ _ _ Hsub Hin).
  - apply sample_loop_app.
  - intros r1 r2 H1 H2. rewrite H1 in H2. injection H2 as <-. reflexivity.
Qed.

End SamplerProofs.

Lemma lcg_randint_in_range (a b g : Z) :
  (a <= b)%Z ->
  (a <= fst (random_randint (SamplerEnv := lcg_env) a b g) <= b)%Z.
Proof.
  intros Hab. simpl.
  pose proof (Z.mod_pos_bound g (b - a + 1) ltac:(lia)). lia.
Qed.

Lemma sample_fixed_size_writes_ordered_sample_witness :
  (forall a b g, (a <= b)%Z ->
     (a <= fst (random_randint (SamplerEnv := lcg_env) a b g) <= b)%Z)
  /\ (0 <= 3)%Z
  /\ exists out,
       sample_fixed_size (ENV := lcg_env) ten_lines 3 42 false
       = Ok (out, (10%Z, 10%Z))
       /\ length out = 3
       /\ Z.of_nat (length out) = Z.min 3 10
       /\ subseq out ten_lines.
Proof.
  split; [exact lcg_randint_in_range |]. split; [lia |].
  destruct (sample_fixed_size_writes_ordered_sample (ENV := lcg_env)
              lcg_randint_in_range ten_lines 3 42 false)
    as (out & Hrun & Hlen & Hmin & _ & Hsub & _).
  exists out. split; [exact Hrun |]. split; [exact Hlen |].
  split; [exact (Hmin ltac:(lia)) | exact Hsub].
Defined.

(** With a negative size nothing is written, which is not
    min(size, number of valid lines) lines. *)
Lemma sample_fixed_size_negative_size_counterexample :
  sample_fixed_size (ENV := lcg_env) ["a"; "b"]%string (-1) 42 false
  = Ok ([], (2%Z, 2%Z))
  /\ Z.of_nat (length (@nil string)) <> Z.min (-1) 2.
Proof. split; [reflexivity | discriminate]. Qed.

(** * Further properties of the code *)

(** ** repeat_kv, rotate_half and the rotary tables *)

Section TensorHelpers.

Context {F : Type} {SF : Scalar F}.

(** X1. repeat_kv turns a tensor of shape (batch, heads, seq, dim) into
    one of shape (batch, heads * n_rep, seq, dim) in which head
    h * n_rep + r, for r < n_rep, is head h of the input; repeating n
    times and then m times is repeating n * m times. *)
Theorem repeat_kv_interleaves_and_composes (x : T4 F) (n m : nat) :
  shape4 (repeat_kv x n) = (dim4_0 x, dim4_1 x * n, dim4_2 x, dim4_3 x)
  /\ (forall b h r s d, r < n ->
        at4 (repeat_kv x n) b (h * n + r) s d = at4 x b h s d)
  /\ teq4 (repeat_kv (repeat_kv x n) m) (repeat_kv x (n * m)).
Proof.
  destruct (repeat_kv_spec x n _ _ _ _ eq_refl) as (Hs & He).
  split; [exact Hs |]. split.
  - intros b h r s d Hr. rewrite He. f_equal.
    rewrite Nat.div_add_l by lia. rewrite Nat.div_small by exact Hr. lia.
  - destruct (repeat_kv_spec (repeat_kv x n) m _ _ _ _ Hs) as (Hs2 & He2).
    destruct (repeat_kv_spec x (n * m) _ _ _ _ eq_refl) as (Hs3 & He3).
    split.
    + rewrite Hs2, Hs3. f_equal. f_equal. f_equal. lia.
    + intros i j k l _ _ _ _. rewrite He2, He, He3.
      rewrite Nat.Div0.div_div. f_equal. f_equal. lia.
Qed.

Lemma half_le (d : nat) : d / 2 <= d.
Proof. apply Nat.Div0.div_le_upper_bound. lia. Qed.

(** X2. rotate_half never raises and keeps the shape of its argument;
    on a last axis of even size, applying it twice negates the
    tensor. *)
Theorem rotate_half_twice_negates (x : T4 F) :
  exists r,
    rotate_half x = Ok r
    /\ shape4 r = shape4 x
    /\ (Nat.even (dim4_3 x) = true ->
        exists r2, rotate_half r = Ok r2 /\ teq4 r2 (map4 fneg x)).
Proof.
  destruct x as [xB xH xT xD xf].
  unfold rotate_half at 1. cbn [dim4_3].
  unfold cat4_last, slice_last_to, slice_last_from, map4.
  cbn [dim4_0 dim4_1 dim4_2 dim4_3 at4].
  rewrite !Nat.eqb_refl. cbn [andb].
  pose proof (half_le xD) as Hle.
  eexists. split; [reflexivity |].
  split.
  { unfold shape4. cbn [dim4_0 dim4_1 dim4_2 dim4_3]. f_equal. lia. }
  intros Hev. apply Nat.even_spec in Hev. destruct Hev as [L ->].
  replace (2 * L) with (L + L) in * by lia.
  rewrite half_double.
  replace (L + L - L + Nat.min L (L + L)) with (L + L) by lia.
  unfold rotate_half. cbn [dim4_3]. rewrite half_double.
  unfold cat4_last, slice_last_to, slice_last_from, map4.
  cbn [dim4_0 dim4_1 dim4_2 dim4_3 at4].
  rewrite !Nat.eqb_refl. cbn [andb].
  eexists. split; [reflexivity |].
  split.
  { unfold shape4. cbn [dim4_0 dim4_1 dim4_2 dim4_3]. f_equal. lia. }
  cbn [dim4_0 dim4_1 dim4_2 dim4_3 at4].
  intros i j k l _ _ _ Hl.
  replace (L + L - L) with L by lia.
  destruct (Nat.ltb_spec l L) as [Hlt | Hge].
  - destruct (Nat.ltb_spec (l + L) L) as [Hc | _]; [lia |].
    replace (l + L - L) with l by lia. reflexivity.
  - destruct (Nat.ltb_spec (l - L) L) as [_ | Hc]; [| lia].
    replace (l - L + L) with l by lia. reflexivity.
Qed.

(** X3. For a rope type whose frequencies stay as constructed
    (neither dynamic nor longrope), Qwen3RotaryEmbedding.forward never
    raises: for every such encoder and every position ids it returns a
    cos and a sin table of shape (rows, columns, 2 * len(inv_freq)),
    whose second half along the last axis repeats the first. *)
Theorem rotary_tables_cover_head_dim_twice (rotary : Qwen3RotaryEmbedding F)
    (position_ids : T2 Z) :
  static_rope rotary = true ->
  exists cos sin,
    Qwen3RotaryEmbedding_forward rotary position_ids = Ok (cos, sin)
    /\ shape3 cos = (rows2 position_ids, cols2 position_ids,
                     2 * len1 (inv_freq rotary))
    /\ shape3 sin = shape3 cos
    /\ forall b t l, l < len1 (inv_freq rotary) ->
         at3 cos b t (l + len1 (inv_freq rotary)) = at3 cos b t l
         /\ at3 sin b t (l + len1 (inv_freq rotary)) = at3 sin b t l.
Proof.
  intros _.
  unfold Qwen3RotaryEmbedding_forward, rotary_freqs, matmul3. simpl.
  rewrite bdim_refl. simpl. unfold cat3_last. simpl.
  rewrite !Nat.eqb_refl. simpl.
  eexists _, _. split; [reflexivity |].
  split; [unfold shape3; simpl; f_equal; lia |]. split; [reflexivity |].
  intros b t l Hl. simpl.
  destruct (Nat.ltb_spec (l + len1 (inv_freq rotary)) (len1 (inv_freq rotary)))
    as [Hc | _]; [lia |].
  destruct (Nat.ltb_spec l (len1 (inv_freq rotary))) as [_ | Hc]; [| lia].
  replace (l + len1 (inv_freq rotary) - len1 (inv_freq rotary)) with l by lia.
  split; reflexivity.
Qed.

End TensorHelpers.

(** ** Rotated queries and keys *)

Section RotaryDot.

Local Existing Instance R_scalar.

Lemma sumf_R_app (a b : nat) (f : nat -> R) :
  (sumf a f + sumf b (fun i => f (a + i)%nat))%R = sumf (a + b) f.
Proof.
  induction b as [| b IH].
  - rewrite Nat.add_0_r. simpl. ring.
  - rewrite Nat.add_succ_r. simpl. rewrite <- IH. ring.
Qed.

Lemma sumf_R_plus (n : nat) (f g : nat -> R) :
  sumf n (fun i => f i + g i)%R = (sumf n f + sumf n g)%R.
Proof.
  induction n as [| n IH]; simpl; [ring | rewrite IH; ring].
Qed.

Lemma sumf_R_scal (n : nat) (c : R) (f : nat -> R) :
  sumf n (fun i => c * f i)%R = (c * sumf n f)%R.
Proof.
  induction n as [| n IH]; simpl; [ring | rewrite IH; ring].
Qed.

Lemma sumf_R_pairs (L : nat) (f : nat -> R) :
  sumf (L + L) f = sumf L (fun l => f l + f (l + L)%nat)%R.
Proof.
  rewrite <- sumf_R_app, sumf_R_plus. f_equal.
  apply sumf_ext. intros i _. f_equal. lia.
Qed.

(** The dot product of two rows rotated by the angles [al] and [be]. *)
Lemma rotated_rows_dot (L : nat) (s : R) (qv kv al be : nat -> R) :
  (forall l, l < L -> al (l + L)%nat = al l) ->
  (forall l, l < L -> be (l + L)%nat = be l) ->
  sumf (L + L) (fun c =>
    (qv c * (Rtrigo_def.cos (al c) * s)
     + (if c <? L then - qv (c + L)%nat else qv (c - L)%nat)
       * (Rtrigo_def.sin (al c) * s))
    * (kv c * (Rtrigo_def.cos (be c) * s)
       + (if c <? L then - kv (c + L)%nat else kv (c - L)%nat)
         * (Rtrigo_def.sin (be c) * s)))%R
  = (s * s * sumf L (fun l =>
      (qv l * kv l + qv (l + L)%nat * kv (l + L)%nat)
      * Rtrigo_def.cos (al l - be l)
      + (qv l * kv (l + L)%nat - qv (l + L)%nat * kv l)
        * Rtrigo_def.sin (al l - be l)))%R.
Proof.
  intros Hal Hbe. rewrite sumf_R_pairs, <- sumf_R_scal.
  apply sumf_ext. intros l Hl.
  destruct (Nat.ltb_spec l L) as [_ | ?]; [| lia].
  destruct (Nat.ltb_spec (l + L) L) as [? | _]; [lia |].
  replace (l + L - L)%nat with l by lia.
  rewrite (Hal l Hl), (Hbe l Hl), cos_minus, sin_minus. ring.
Qed.

Lemma rotary_angle_R (rotary : Qwen3RotaryEmbedding R) (p : T2 Z)
    (b t c : nat) :
  rotary_angle rotary p b t c
  = (at1 (inv_freq rotary)
       (if c <? len1 (inv_freq rotary) then c
        else (c - len1 (inv_freq rotary))%nat)
     * IZR (at2 p b t))%R.
Proof. unfold rotary_angle. simpl. ring. Qed.

Lemma bidx_in_range (d B i : nat) :
  broadcasts_to d B -> i < B -> bidx d i < d.
Proof.
  intros [-> | ->] Hi; unfold bidx.
  - destruct (Nat.eqb_spec B 1); lia.
  - simpl. lia.
Qed.

(** The logits of rotated queries and keys, entry by entry. *)
Lemma rotary_scores_entries (rotary : Qwen3RotaryEmbedding R)
    (position_ids : T2 Z) (q k : T4 R) (B H T : nat) :
  shape4 q = (B, H, T, 2 * len1 (inv_freq rotary)) ->
  shape4 k = (B, H, T, 2 * len1 (inv_freq rotary)) ->
  cols2 position_ids = T ->
  broadcasts_to (rows2 position_ids) B ->
  exists cos sin q' k' s,
    Qwen3RotaryEmbedding_forward rotary position_ids = Ok (cos, sin)
    /\ apply_rotary_pos_emb q k cos sin = Ok (q', k')
    /\ shape4 q' = shape4 q
    /\ matmul4 q' (transpose23 k') = Ok s
    /\ rotary_scores rotary position_ids q k = Ok s
    /\ shape4 s = (B, H, T, T)
    /\ forall i j t t', i < B -> j < H -> t < T -> t' < T ->
         let L := len1 (inv_freq rotary) in
         let al := rotary_angle rotary position_ids
                     (bidx (rows2 position_ids) i) t in
         let be := rotary_angle rotary position_ids
                     (bidx (rows2 position_ids) i) t' in
         sumf (L + L) (fun c => at4 q' i j t c * at4 k' i j t' c)%R
         = (attention_scaling rotary * attention_scaling rotary
            * sumf L (fun l =>
                (at4 q i j t l * at4 k i j t' l
                 + at4 q i j t (l + L)%nat * at4 k i j t' (l + L)%nat)
                * Rtrigo_def.cos (al l - be l)
                + (at4 q i j t l * at4 k i j t' (l + L)%nat
                   - at4 q i j t (l + L)%nat * at4 k i j t' l)
                  * Rtrigo_def.sin (al l - be l)))%R
         /\ at4 s i j t t'
            = sumf (L + L) (fun c => at4 q' i j t c * at4 k' i j t' c)%R.
Proof.
  set (L := len1 (inv_freq rotary)).
  replace (2 * L)%nat with (L + L)%nat by lia.
  intros Hq Hk Hcols Hpb.
  destruct (rotary_forward_spec rotary position_ids)
    as (cos & sin & Hfwd & Hcs & Hss & Hval).
  fold L in Hcs. rewrite Hcols in Hcs. rewrite Hcs in Hss.
  destruct (apply_rotary_spec q k cos sin B H H T L (rows2 position_ids)
              Hq Hk Hcs Hss Hpb) as (q' & k' & Hy & Hqs & Hks & Hqv & Hkv).
  assert (Hmm : exists s, matmul4 q' (transpose23 k') = Ok s
            /\ shape4 s = (B, H, T, T)
            /\ forall i j t t', i < B -> j < H ->
                 at4 s i j t t'
                 = sumf (L + L) (fun c => at4 q' i j t c * at4 k' i j t' c)%R).
  { destruct q' as [a0 a1 a2 a3 af]. destruct k' as [b0 b1 b2 b3 bf].
    unfold shape4 in Hqs, Hks. cbn [dim4_0 dim4_1 dim4_2 dim4_3] in Hqs, Hks.
    injection Hqs as -> -> -> ->. injection Hks as -> -> -> ->.
    unfold matmul4, transpose23. cbn [dim4_0 dim4_1 dim4_2 dim4_3 at4].
    rewrite Nat.eqb_refl. cbn [guard bind]. rewrite !bdim_refl. cbn [bind].
    eexists. split; [reflexivity |]. split; [reflexivity |].
    intros i j t t' Hi Hj. cbn [at4].
    rewrite !(bidx_lt B i Hi), !(bidx_lt H j Hj). reflexivity. }
  destruct Hmm as (s & Hs & Hshape & Hsv).
  exists cos, sin, q', k', s.
  split; [exact Hfwd |]. split; [exact Hy |]. split; [congruence |].
  split; [exact Hs |]. split.
  { unfold rotary_scores. rewrite Hfwd. cbn [bind]. rewrite Hy. cbn [bind].
    exact Hs. }
  split; [exact Hshape |].
  intros i j t t' Hi Hj Ht Ht'. cbv zeta. fold L.
  split; [| apply Hsv; assumption].
  pose proof (bidx_in_range _ _ i Hpb Hi) as Hb.
  set (bi := bidx (rows2 position_ids) i) in *.
  rewrite <- (rotated_rows_dot L (attention_scaling rotary)
                (at4 q i j t) (at4 k i j t')
                (rotary_angle rotary position_ids bi t)
                (rotary_angle rotary position_ids bi t')).
  - apply sumf_ext. intros c Hc.
    rewrite Hqv, Hkv by assumption. unfold rotated_entry. fold bi.
    destruct (Hval bi t c Hb) as [-> ->].
    destruct (Hval bi t' c Hb) as [-> ->].
    reflexivity.
  - intros l Hl. apply rotary_angle_shift_up. exact Hl.
  - intros l Hl. apply rotary_angle_shift_up. exact Hl.
Qed.

(** X4. In exact arithmetic, and for frequencies fixed at construction,
    the attention logits of a rotated query and key depend on the
    positions only through their differences: adding the same offset to
    all position ids leaves query times key transposed unchanged. *)
Theorem rotary_scores_invariant_under_position_shift
    (rotary : Qwen3RotaryEmbedding R) (position_ids : T2 Z) (lck : nat)
    (q k : T4 R) (B H T : nat) :
  shape4 q = (B, H, T, 2 * len1 (inv_freq rotary)) ->
  shape4 k = (B, H, T, 2 * len1 (inv_freq rotary)) ->
  cols2 position_ids = T ->
  broadcasts_to (rows2 position_ids) B ->
  exists s s',
    rotary_scores rotary position_ids q k = Ok s
    /\ rotary_scores rotary (add_offset position_ids lck) q k = Ok s'
    /\ teq4 s s'.
Proof.
  intros Hq Hk Hcols Hpb.
  destruct (rotary_scores_entries rotary position_ids q k B H T
              Hq Hk Hcols Hpb)
    as (c1 & s1 & q1 & k1 & s & _ & _ & _ & _ & Hs & Hshape & Hv).
  destruct (rotary_scores_entries rotary (add_offset position_ids lck) q k
              B H T Hq Hk Hcols Hpb)
    as (c2 & s2 & q2 & k2 & s' & _ & _ & _ & _ & Hs' & Hshape' & Hv').
  exists s, s'. split; [exact Hs |]. split; [exact Hs' |].
  split; [congruence |].
  assert (Hd : dim4_0 s = B /\ dim4_1 s = H /\ dim4_2 s = T /\ dim4_3 s = T).
  { unfold shape4 in Hshape. injection Hshape as -> -> -> ->. auto. }
  destruct Hd as (E0 & E1 & E2 & E3).
  intros i j t t'. rewrite E0, E1, E2, E3. intros Hi Hj Ht Ht'.
  destruct (Hv i j t t' Hi Hj Ht Ht') as [Hdot ->].
  destruct (Hv' i j t t' Hi Hj Ht Ht') as [Hdot' ->].
  cbv zeta in Hdot, Hdot'. rewrite Hdot, Hdot'. f_equal.
  apply sumf_ext. intros l Hl.
  cbn [add_offset rows2].
  rewrite !rotary_angle_R. cbn [add_offset at2].
  rewrite !plus_IZR.
  match goal with
  | |- (_ * Rtrigo_def.cos ?a + _ * Rtrigo_def.sin ?a
        = _ * Rtrigo_def.cos ?b + _ * Rtrigo_def.sin ?b)%R =>
      replace b with a by ring
  end.
  reflexivity.
Qed.

(** X5. In exact arithmetic, rotating a query and a key at the same
    position multiplies the dot product of their rows by the square of
    the attention scaling; with the query as key, the rotation scales
    the squared norm of every row by that factor. *)
Theorem rotary_scales_dot_products_at_one_position
    (rotary : Qwen3RotaryEmbedding R) (position_ids : T2 Z)
    (q k : T4 R) (B H T : nat) :
  shape4 q = (B, H, T, 2 * len1 (inv_freq rotary)) ->
  shape4 k = (B, H, T, 2 * len1 (inv_freq rotary)) ->
  cols2 position_ids = T ->
  broadcasts_to (rows2 position_ids) B ->
  exists cos sin q' k',
    Qwen3RotaryEmbedding_forward rotary position_ids = Ok (cos, sin)
    /\ apply_rotary_pos_emb q k cos sin = Ok (q', k')
    /\ forall i j t, i < B -> j < H -> t < T ->
         sumf (2 * len1 (inv_freq rotary))
              (fun c => at4 q' i j t c * at4 k' i j t c)%R
         = (attention_scaling rotary * attention_scaling rotary
            * sumf (2 * len1 (inv_freq rotary))
                   (fun c => at4 q i j t c * at4 k i j t c))%R.
Proof.
  intros Hq Hk Hcols Hpb.
  destruct (rotary_scores_entries rotary position_ids q k B H T
              Hq Hk Hcols Hpb)
    as (cos & sin & q' & k' & s & Hfwd & Hrot & _ & _ & _ & _ & Hv).
  exists cos, sin, q', k'. split; [exact Hfwd |]. split; [exact Hrot |].
  intros i j t Hi Hj Ht.
  destruct (Hv i j t t Hi Hj Ht Ht) as [Hdot _]. cbv zeta in Hdot.
  replace (2 * len1 (inv_freq rotary))%nat
    with (len1 (inv_freq rotary) + len1 (inv_freq rotary))%nat by lia.
  rewrite Hdot. f_equal. rewrite sumf_R_pairs.
  apply sumf_ext. intros l Hl.
  replace (rotary_angle rotary position_ids
             (bidx (rows2 position_ids) i) t l
           - rotary_angle rotary position_ids
               (bidx (rows2 position_ids) i) t l)%R with 0%R by ring.
  rewrite cos_0, sin_0. ring.
Qed.

End RotaryDot.

(** ** Shapes through the linear layers, the norm and the MLP *)

Section Shapes.

Context {F : Type} {SF : Scalar F} {EX : Collaborators F}.

Lemma linear_forward_shape (m : Linear F) (x : T3 F) :
  dim3_2 x = in_features m ->
  exists y,
    Linear_forward m x = Ok y
    /\ shape3 y = (dim3_0 x, dim3_1 x, out_features m)
    /\ forall b t o, at3 y b t o = linear_entry m (at3 x b t) o.
Proof.
  intros Hd. unfold Linear_forward. rewrite Hd, Nat.eqb_refl. cbn [guard bind].
  eexists. split; [reflexivity |]. split; reflexivity.
Qed.

Lemma linear_forward_rejects (m : Linear F) (x : T3 F) :
  dim3_2 x <> in_features m -> Linear_forward m x = Err RuntimeError.
Proof.
  intros Hd. unfold Linear_forward.
  destruct (Nat.eqb_spec (dim3_2 x) (in_features m)); [contradiction |].
  reflexivity.
Qed.

Lemma rms_norm3_same_width (m : Qwen3RMSNorm F) (x : T3 F) :
  len1 (norm_weight m) = dim3_2 x ->
  exists y,
    Qwen3RMSNorm_forward3 m x = Ok y
    /\ shape3 y = shape3 x
    /\ forall b t c, c < dim3_2 x ->
         at3 y b t c
         = (at1 (norm_weight m) c * rms_entry m (dim3_2 x) (at3 x b t) c)%fl.
Proof.
  intros Hd. unfold Qwen3RMSNorm_forward3. rewrite Hd, bdim_refl. cbn [bind].
  eexists. split; [reflexivity |]. split; [reflexivity |].
  intros b t c Hc. cbn [at3]. rewrite (bidx_lt _ _ Hc). reflexivity.
Qed.

(** The MLP on an input of the width of its projections, when its
    activation works entry by entry. *)
Lemma mlp_forward_shape (self : Qwen3MLP F) (f : F -> F) (x : T3 F) :
  acts_entrywise (act_fn self) f ->
  dim3_2 x = in_features (gate_proj self) ->
  in_features (up_proj self) = in_features (gate_proj self) ->
  out_features (up_proj self) = out_features (gate_proj self) ->
  in_features (down_proj self) = out_features (gate_proj self) ->
  exists y,
    Qwen3MLP_forward self x = Ok y
    /\ shape3 y = (dim3_0 x, dim3_1 x, out_features (down_proj self))
    /\ forall b t o, b < dim3_0 x -> t < dim3_1 x ->
         at3 y b t o
         = sumf (in_features (down_proj self)) (fun c =>
             (f (linear_entry (gate_proj self) (at3 x b t) c)
              * linear_entry (up_proj self) (at3 x b t) c)
             * weight (down_proj self) o c)%fl.
Proof.
  intros Hact Hx Hup Hout Hdown. unfold Qwen3MLP_forward.
  destruct (linear_forward_shape (gate_proj self) x Hx) as (g & -> & Hgs & Hgv).
  cbn [bind]. destruct (Hact g) as (a & -> & Has & Hav). cbn [bind].
  assert (Hx' : dim3_2 x = in_features (up_proj self)) by congruence.
  destruct (linear_forward_shape (up_proj self) x Hx') as (u & -> & Hus & Huv).
  cbn [bind]. rewrite Hgs in Has.
  assert (Hg : dim3_0 g = dim3_0 x /\ dim3_1 g = dim3_1 x
               /\ dim3_2 g = out_features (gate_proj self)).
  { unfold shape3 in Hgs. injection Hgs as -> -> ->. auto. }
  destruct Hg as (G0 & G1 & G2). rewrite G0, G1, G2 in Hav.
  destruct a as [a0 a1 a2 af]. destruct u as [u0 u1 u2 uf].
  unfold shape3 in Has, Hus. cbn [dim3_0 dim3_1 dim3_2] in Has, Hus.
  injection Has as -> -> ->. injection Hus as -> -> ->.
  unfold bin3. cbn [dim3_0 dim3_1 dim3_2 at3].
  rewrite Hout, !bdim_refl. cbn [bind].
  unfold Linear_forward at 1. cbn [dim3_0 dim3_1 dim3_2 at3].
  rewrite Hdown, Nat.eqb_refl. cbn [guard bind].
  eexists. split; [reflexivity |]. split; [reflexivity |].
  intros b t o Hb Ht. cbn [at3]. rewrite ?Hdown.
  apply sumf_ext. intros c Hc. cbn [at3] in Hav, Huv.
  rewrite (bidx_lt _ _ Hb), (bidx_lt _ _ Ht), (bidx_lt _ _ Hc).
  rewrite (Hav b t c Hb Ht Hc), Hgv, Huv.
  reflexivity.
Qed.

Lemma mlp_init_inv (config : Qwen3Config F) (wg wu wd : nat -> nat -> F)
    (self : Qwen3MLP F) :
  Qwen3MLP_init config wg wu wd = Ok self ->
  gate_proj self = mkLinear (hidden_size config) (intermediate_size config) wg
  /\ up_proj self = mkLinear (hidden_size config) (intermediate_size config) wu
  /\ down_proj self
     = mkLinear (intermediate_size config) (hidden_size config) wd.
Proof.
  unfold Qwen3MLP_init. intros H. apply bind_ok_inv in H.
  destruct H as (act & _ & H). injection H as <-. auto.
Qed.

(** [F.silu], the activation of the default configuration, works entry
    by entry. *)
Lemma silu_acts_entrywise :
  acts_entrywise (fun t : T3 F => Ok (map3 F_silu t)) F_silu.
Proof.
  intros t. eexists. split; [reflexivity |]. split; reflexivity.
Qed.

(** The MLP built by the constructor. *)
Lemma mlp_init_forward (config : Qwen3Config F)
    (wg wu wd : nat -> nat -> F) (self : Qwen3MLP F) (x : T3 F) :
  Qwen3MLP_init config wg wu wd = Ok self ->
  (entrywise (act_fn self) -> dim3_2 x = hidden_size config ->
   exists y, Qwen3MLP_forward self x = Ok y /\ shape3 y = shape3 x)
  /\ (dim3_2 x <> hidden_size config ->
      Qwen3MLP_forward self x = Err RuntimeError)
  /\ (hidden_act config = "silu"%string ->
      acts_entrywise (act_fn self) F_silu)
  /\ (hidden_act config <> "silu"%string ->
      F_getattr (hidden_act config) = Some (act_fn self)).
Proof.
  intros Hinit.
  destruct (mlp_init_inv config wg wu wd self Hinit) as (Hg & Hu & Hd).
  split; [| split; [| split]].
  - intros (f & Hact) Hx.
    destruct (mlp_forward_shape self f x Hact) as (y & Hy & Hs & _);
      rewrite ?Hg, ?Hu, ?Hd; cbn [in_features out_features];
      try reflexivity; try exact Hx.
    exists y. split; [exact Hy |]. rewrite Hs, Hd. cbn [out_features].
    unfold shape3. congruence.
  - intros Hx. unfold Qwen3MLP_forward.
    rewrite linear_forward_rejects; [reflexivity |].
    rewrite Hg. exact Hx.
  - intros Hact. unfold Qwen3MLP_init in Hinit. rewrite Hact in Hinit.
    cbn in Hinit. injection Hinit as <-. exact silu_acts_entrywise.
  - intros Hact. unfold Qwen3MLP_init in Hinit.
    destruct (String.eqb_spec (hidden_act config) "silu"); [contradiction |].
    destruct (F_getattr (hidden_act config)) as [f |]; cbn in Hinit;
      [| discriminate].
    injection Hinit as <-. reflexivity.
Qed.

(** X6. The MLP the constructor builds raises RuntimeError on every
    input whose last dimension is not hidden_size; on an input of that
    width it returns a tensor of the input's shape, provided its
    activation works entry by entry.  F.silu, the activation for
    hidden_act silu, does; any other hidden_act selects the attribute of
    that name of torch.nn.functional, whatever it does. *)
Theorem mlp_keeps_hidden_width (config : Qwen3Config F)
    (wg wu wd : nat -> nat -> F) (self : Qwen3MLP F) (x : T3 F) :
  Qwen3MLP_init config wg wu wd = Ok self ->
  (entrywise (act_fn self) -> dim3_2 x = hidden_size config ->
   exists y, Qwen3MLP_forward self x = Ok y /\ shape3 y = shape3 x)
  /\ (dim3_2 x <> hidden_size config ->
      Qwen3MLP_forward self x = Err RuntimeError)
  /\ (hidden_act config = "silu"%string ->
      acts_entrywise (act_fn self) F_silu)
  /\ (hidden_act config <> "silu"%string ->
      F_getattr (hidden_act config) = Some (act_fn self)).
Proof. exact (mlp_init_forward config wg wu wd self x). Qed.

(** X7. With an activation that works entry by entry, the MLP the
    constructor builds works position by position: on an input of
    width hidden_size it returns, it returns on position i of the input
    alone, and the second result is position i of the first. *)
Theorem mlp_is_position_wise (config : Qwen3Config F)
    (wg wu wd : nat -> nat -> F) (self : Qwen3MLP F) (x : T3 F) (i : nat) :
  Qwen3MLP_init config wg wu wd = Ok self ->
  entrywise (act_fn self) ->
  dim3_2 x = hidden_size config ->
  i < dim3_1 x ->
  exists y yi,
    Qwen3MLP_forward self x = Ok y
    /\ Qwen3MLP_forward self (token x i) = Ok yi
    /\ teq3 yi (token y i).
Proof.
  intros Hinit (f & Hact) Hx Hi.
  destruct (mlp_init_inv config wg wu wd self Hinit) as (Hg & Hu & Hd).
  destruct (mlp_forward_shape self f x Hact) as (y & Hy & Hs & Hv);
    rewrite ?Hg, ?Hu, ?Hd; cbn [in_features out_features];
    try reflexivity; try exact Hx.
  destruct (mlp_forward_shape self f (token x i) Hact)
    as (yi & Hyi & Hsi & Hvi);
    rewrite ?Hg, ?Hu, ?Hd; cbn [in_features out_features];
    try reflexivity; try exact Hx.
  exists y, yi. split; [exact Hy |]. split; [exact Hyi |].
  assert (Ey : dim3_0 y = dim3_0 x /\ dim3_1 y = dim3_1 x).
  { unfold shape3 in Hs. split; congruence. }
  assert (Ei : dim3_0 yi = dim3_0 x /\ dim3_1 yi = 1
               /\ dim3_2 yi = dim3_2 y).
  { unfold shape3 in Hsi, Hs. cbn [token dim3_0 dim3_1] in Hsi.
    repeat split; congruence. }
  destruct Ey as (Y0 & Y1). destruct Ei as (I0 & I1 & I2).
  split.
  { unfold shape3. cbn [token dim3_0 dim3_1 dim3_2]. congruence. }
  rewrite I0, I1, I2. intros b t o Hb Ht Ho.
  assert (t = 0) by lia. subst t.
  rewrite Hvi by (cbn [token dim3_0 dim3_1]; lia).
  cbn [token at3]. rewrite Hv by lia. reflexivity.
Qed.

End Shapes.

(** ** The norm on the reals *)

Section RMSNormReal.

Local Existing Instance R_scalar.

Lemma sumf_R_nonneg (n : nat) (f : nat -> R) :
  (forall i, i < n -> (0 <= f i)%R) -> (0 <= sumf n f)%R.
Proof.
  induction n as [| n IH]; intros Hf; simpl; [lra |].
  assert (0 <= sumf n f)%R by (apply IH; intros i Hi; apply Hf; lia).
  assert (0 <= f n)%R by (apply Hf; lia). lra.
Qed.

Lemma sumf_R_scal_r (n : nat) (c : R) (f : nat -> R) :
  sumf n (fun i => f i * c)%R = (sumf n f * c)%R.
Proof.
  induction n as [| n IH]; simpl; [ring | rewrite IH; ring].
Qed.

(** X8. On the reals and with a positive epsilon, the norm as
    constructed (unit weight) returns a tensor of the input's shape
    whose rows have mean square ms / (ms + eps), for ms the mean square
    of the input row: it is below 1; and a zero row is mapped to a zero
    row. *)
Theorem rms_norm_mean_square_below_one (size : nat) (eps : R) (x : T3 R) :
  (0 < eps)%R ->
  0 < size ->
  dim3_2 x = size ->
  exists y,
    Qwen3RMSNorm_forward3 (Qwen3RMSNorm_init size eps) x = Ok y
    /\ shape3 y = shape3 x
    /\ forall b t, b < dim3_0 x -> t < dim3_1 x ->
         let ms := (sumf size (fun c => at3 x b t c * at3 x b t c)
                    / INR size)%R in
         (sumf size (fun c => at3 y b t c * at3 y b t c) / INR size
          = ms / (ms + eps))%R
         /\ (sumf size (fun c => at3 y b t c * at3 y b t c) / INR size < 1)%R
         /\ ((forall c, c < size -> at3 x b t c = 0%R) ->
             forall c, c < size -> at3 y b t c = 0%R).
Proof.
  intros Heps Hsize Hx.
  destruct (rms_norm3_same_width (Qwen3RMSNorm_init size eps) x)
    as (y & Hy & Hs & Hv); [simpl; congruence |].
  exists y. split; [exact Hy |]. split; [exact Hs |].
  intros b t Hb Ht. cbv zeta. rewrite Hx in Hv.
  set (sq := sumf size (fun c => at3 x b t c * at3 x b t c)%R).
  assert (Hn : (0 < INR size)%R) by (apply lt_0_INR; exact Hsize).
  assert (Hsq : (0 <= sq)%R).
  { apply sumf_R_nonneg. intros i _. apply Rle_0_sqr. }
  assert (Hms : (0 <= sq / INR size)%R).
  { apply Rmult_le_pos; [exact Hsq |]. left. apply Rinv_0_lt_compat, Hn. }
  set (v := (sq / INR size + eps)%R).
  assert (Hvpos : (0 < v)%R) by (unfold v; lra).
  assert (Hentry : forall c, c < size ->
            at3 y b t c = (at3 x b t c * / R_sqrt.sqrt v)%R).
  { intros c Hc. rewrite (Hv b t c Hc). unfold rms_entry. simpl.
    rewrite <- INR_IZR_INZ. fold sq. fold v. ring. }
  assert (Hsum : sumf size (fun c => at3 y b t c * at3 y b t c)%R
                 = (sq * / v)%R).
  { transitivity (sumf size (fun c => at3 x b t c * at3 x b t c * / v)%R).
    - apply sumf_ext. intros c Hc. rewrite (Hentry c Hc).
      transitivity (at3 x b t c * at3 x b t c
                    * (/ R_sqrt.sqrt v * / R_sqrt.sqrt v))%R; [ring |].
      rewrite <- Rinv_mult. rewrite sqrt_sqrt; [reflexivity | apply Rlt_le; exact Hvpos].
    - unfold sq. apply sumf_R_scal_r. }
  split; [| split].
  - rewrite Hsum. unfold v. field.
    assert (0 < eps * INR size)%R by (apply Rmult_lt_0_compat; assumption).
    split; lra.
  - rewrite Hsum.
    apply Rmult_lt_reg_r with (r := (INR size * v)%R).
    { apply Rmult_lt_0_compat; assumption. }
    replace (sq * / v / INR size * (INR size * v))%R with sq
      by (field; split; apply Rgt_not_eq; assumption).
    unfold v. replace (1 * (INR size * (sq / INR size + eps)))%R
      with (sq + INR size * eps)%R by (field; lra).
    assert (0 < INR size * eps)%R by (apply Rmult_lt_0_compat; assumption).
    lra.
  - intros Hz c Hc. rewrite (Hentry c Hc), (Hz c Hc). ring.
Qed.

End RMSNormReal.

(** ** Construction of the attention *)

Section AttentionConstruction.

Context {F : Type} {SF : Scalar F} {EX : Collaborators F}.

Lemma floordiv_ok_inv (a b c : nat) :
  floordiv a b = Ok c -> b <> 0 /\ c = a / b.
Proof.
  unfold floordiv. destruct (Nat.eqb_spec b 0); [discriminate |].
  intros H. injection H as <-. auto.
Qed.

Lemma attention_init_inv (config : Qwen3Config F) (w : AttentionInit F)
    (self : Qwen3Attention F) :
  Qwen3Attention_init config w = Ok self ->
  num_key_value_heads config <> 0
  /\ num_attention_heads config <> 0
  /\ exists rotary,
       Qwen3RotaryEmbedding_init config = Ok rotary
       /\ let hidden := hidden_size config in
          let heads := num_attention_heads config in
          let kv_heads := num_key_value_heads config in
          let hd := match config_head_dim config with
                    | Some d => d
                    | None => hidden / heads
                    end in
          self = mkAttention hidden heads kv_heads (heads / kv_heads) hd
                   (mkLinear (hidden * 2) (heads * hd) (init_q w))
                   (mkLinear (hidden * 2) (kv_heads * hd) (init_k w))
                   (mkLinear (hidden * 2) (kv_heads * hd) (init_v w))
                   (mkLinear (heads * hd) hidden (init_o w))
                   (Qwen3RMSNorm_init hd (rms_norm_eps config))
                   (Qwen3RMSNorm_init hd (rms_norm_eps config))
                   rotary.
Proof.
  unfold Qwen3Attention_init. intros H.
  apply bind_ok_inv in H. destruct H as (g & Hg & H).
  apply bind_ok_inv in H. destruct H as (d & Hd & H).
  apply bind_ok_inv in H. destruct H as (rotary & Hr & H).
  apply floordiv_ok_inv in Hg. destruct Hg as [Hkv ->].
  apply floordiv_ok_inv in Hd. destruct Hd as [Hh ->].
  split; [exact Hkv |]. split; [exact Hh |].
  exists rotary. split; [exact Hr |]. cbv zeta. injection H as <-.
  reflexivity.
Qed.

Lemma attention_init_well_shaped (config : Qwen3Config F)
    (w : AttentionInit F) (self : Qwen3Attention F) :
  Qwen3Attention_init config w = Ok self ->
  num_attention_heads config mod num_key_value_heads config = 0 ->
  head_dim self = 2 * len1 (inv_freq (rotary_emb self)) ->
  attention_well_shaped self
  /\ in_features (q_proj self) = hidden_size config * 2
  /\ out_features (o_proj self) = hidden_size config.
Proof.
  intros Hinit Hmod Hrope.
  destruct (attention_init_inv config w self Hinit)
    as (Hkv & Hh & rotary & _ & Hself).
  cbv zeta in Hself. subst self. cbn in Hrope |- *.
  split; [| split; reflexivity].
  constructor; cbn; try reflexivity; try lia.
  apply Nat.Div0.div_exact in Hmod. lia.
Qed.

(** X9. When Qwen3Attention.__init__ returns, neither
    num_key_value_heads nor num_attention_heads is zero (the default
    of head_dim is computed even when config.head_dim is set), the
    rotary encoder is the one of the config, the three input
    projections read 2 * hidden_size features and the output projection
    writes hidden_size; the sizes of the submodules fit together once
    the key/value heads divide the heads and the rope function returned
    head_dim / 2 frequencies. *)
Theorem attention_init_sizes_fit (config : Qwen3Config F)
    (w : AttentionInit F) (self : Qwen3Attention F) :
  Qwen3Attention_init config w = Ok self ->
  num_key_value_heads config <> 0
  /\ num_attention_heads config <> 0
  /\ Qwen3RotaryEmbedding_init config = Ok (rotary_emb self)
  /\ num_key_value_groups self
     = num_attention_heads config / num_key_value_heads config
  /\ head_dim self
     = match config_head_dim config with
       | Some d => d
       | None => hidden_size config / num_attention_heads config
       end
  /\ in_features (q_proj self) = hidden_size config * 2
  /\ in_features (k_proj self) = hidden_size config * 2
  /\ in_features (v_proj self) = hidden_size config * 2
  /\ out_features (o_proj self) = hidden_size config
  /\ (num_attention_heads config mod num_key_value_heads config = 0 ->
      head_dim self = 2 * len1 (inv_freq (rotary_emb self)) ->
      attention_well_shaped self).
Proof.
  intros Hinit.
  destruct (attention_init_inv config w self Hinit)
    as (Hkv & Hh & rotary & Hr & Hself).
  split; [exact Hkv |]. split; [exact Hh |].
  split; [cbv zeta in Hself; subst self; exact Hr |].
  repeat (split; [cbv zeta in Hself; subst self; reflexivity |]).
  intros Hmod Hrope.
  apply (attention_init_well_shaped config w self Hinit Hmod Hrope).
Qed.

End AttentionConstruction.

(** ** The block-sparse attention without a paged cache *)

Section FlexWithoutCache.

Context {F : Type} {SF : Scalar F} {EX : Collaborators F}.

Lemma flex_forward_without_paged_cache (self : Qwen3Attention F)
    (hidden_states : T3 F) (attention_mask : option (mask F))
    (position_ids : option (T2 Z)) (w : world) :
  exists e,
    Qwen3FlexAttention_forward self hidden_states attention_mask position_ids
      None w = (Err e, w).
Proof.
  unfold Qwen3FlexAttention_forward.
  unfold bindM at 1. unfold retM at 1.
  destruct (project_heads self hidden_states) as [[[q0 k0] v0] | e];
    [| eexists; rewrite bindM_lift_err; reflexivity].
  rewrite bindM_lift_ok.
  destruct (floordiv 0 (dim3_1 hidden_states)) as [lck | e];
    [| eexists; rewrite bindM_lift_err; reflexivity].
  rewrite bindM_lift_ok.
  destruct position_ids as [p |];
    [| eexists; rewrite bindM_lift_err; reflexivity].
  rewrite bindM_lift_ok.
  destruct (Qwen3RotaryEmbedding_forward (rotary_emb self) (add_offset p lck))
    as [[cos sin] | e]; [| eexists; rewrite bindM_lift_err; reflexivity].
  rewrite bindM_lift_ok.
  destruct (apply_rotary_pos_emb q0 k0 cos sin) as [[q k] | e];
    [| eexists; rewrite bindM_lift_err; reflexivity].
  rewrite bindM_lift_ok.
  eexists. rewrite bindM_lift_err. reflexivity.
Qed.

Lemma decoder_layer_flex_without_paged_cache (layer : Qwen3DecoderLayer F)
    (a : Qwen3Attention F) (input_emb hidden_states : T3 F)
    (cache_hidden : option loc) (attention_mask : option (mask F))
    (position_ids : option (T2 Z)) (w : world) :
  self_attn layer = BlockSparseAttention a ->
  exists e,
    Qwen3DecoderLayer_forward layer input_emb hidden_states cache_hidden
      attention_mask position_ids None w = (Err e, w).
Proof.
  intros Hbackend. unfold Qwen3DecoderLayer_forward.
  destruct (Qwen3RMSNorm_forward3 (hidden_norm layer) hidden_states)
    as [hs | e]; [| eexists; rewrite bindM_lift_err; reflexivity].
  rewrite bindM_lift_ok.
  destruct (Qwen3RMSNorm_forward3 (input_layernorm layer) input_emb)
    as [emb | e]; [| eexists; rewrite bindM_lift_err; reflexivity].
  rewrite bindM_lift_ok.
  destruct (cat3_last emb hs) as [x | e];
    [| eexists; rewrite bindM_lift_err; reflexivity].
  rewrite bindM_lift_ok. rewrite Hbackend. cbn [self_attn_forward].
  destruct (flex_forward_without_paged_cache a x attention_mask position_ids w)
    as (e & He).
  exists e. erewrite bindM_err by exact He. reflexivity.
Qed.

(** X10. Without a cache of the transformers library
    (past_key_values = None) Qwen3FlexAttention.forward always raises,
    and so does a decoder layer that holds it; the state is left as it
    was. *)
Theorem flex_attention_needs_a_paged_cache (layer : Qwen3DecoderLayer F)
    (a : Qwen3Attention F) (input_emb hidden_states : T3 F)
    (cache_hidden : option loc) (attention_mask : option (mask F))
    (position_ids : option (T2 Z)) (w : world) :
  self_attn layer = BlockSparseAttention a ->
  (exists e,
     Qwen3FlexAttention_forward a hidden_states attention_mask position_ids
       None w = (Err e, w))
  /\ (exists e,
        Qwen3DecoderLayer_forward layer input_emb hidden_states cache_hidden
          attention_mask position_ids None w = (Err e, w)).
Proof.
  intros Hbackend. split.
  - apply flex_forward_without_paged_cache.
  - apply (decoder_layer_flex_without_paged_cache layer a); exact Hbackend.
Qed.

(** X11. On a model constructed with the flex_attention backend,
    Qwen3ForCausalLMEagle3.forward raises on every input: it hands
    past_key_values = None to the layer.  No paged cache changes, and
    nothing at all changes when ttt_length is 1. *)
Theorem forward_with_flex_backend_always_raises
    (config : Qwen3Config F) (w : ModelInit F)
    (self : Qwen3ForCausalLMEagle3 F) (hidden_states inputs_embeds : T3 F)
    (attention_mask : option (T2 bool)) (ttt_length : Z) (h : world) :
  Qwen3ForCausalLMEagle3_init config "flex_attention" w = Ok self ->
  exists e h',
    Qwen3ForCausalLMEagle3_forward self hidden_states inputs_embeds
      attention_mask ttt_length h = (Err e, h')
    /\ paged h' = paged h
    /\ (ttt_length = 1%Z -> h' = h).
Proof.
  intros Hinit.
  assert (Hb : exists a, self_attn (midlayer self) = BlockSparseAttention a).
  { unfold Qwen3ForCausalLMEagle3_init in Hinit.
    apply bind_ok_inv in Hinit. destruct Hinit as (layer & Hlayer & Hself).
    injection Hself as <-. cbn [midlayer].
    unfold Qwen3DecoderLayer_init in Hlayer. cbn in Hlayer.
    apply bind_ok_inv in Hlayer. destruct Hlayer as (attn & Hattn & Hlayer).
    apply bind_ok_inv in Hlayer. destruct Hlayer as (mlp & _ & Hlayer).
    injection Hlayer as <-. cbn [self_attn].
    apply bind_ok_inv in Hattn. destruct Hattn as (a & _ & Hattn).
    injection Hattn as <-. exists a. reflexivity. }
  destruct Hb as (a & Hb).
  unfold Qwen3ForCausalLMEagle3_forward.
  assert (Hmake : exists c h1,
            make_cache_hidden ttt_length h = (Ok c, h1)
            /\ paged h1 = paged h /\ (ttt_length = 1%Z -> h1 = h)).
  { unfold make_cache_hidden. destruct (Z.eqb_spec ttt_length 1).
    - exists None, h. repeat split; reflexivity.
    - eexists _, _. split; [reflexivity |]. split; [reflexivity |].
      intros; contradiction. }
  destruct Hmake as (c & h1 & Hmake & Hp & Hsame).
  erewrite bindM_ok by exact Hmake.
  destruct (dim3_1 hidden_states =? 0);
    [exists RuntimeError, h1; cbn [negb guard]; rewrite bindM_lift_err;
     auto |].
  cbn [negb guard]. rewrite bindM_lift_ok.
  destruct (prepare_decoder_attention_mask _ _ _ _ _) as [m | e];
    [| exists e, h1; rewrite bindM_lift_err; auto].
  rewrite bindM_lift_ok.
  destruct (Linear_forward (fc self) hidden_states) as [hs | e];
    [| exists e, h1; rewrite bindM_lift_err; auto].
  rewrite bindM_lift_ok.
  destruct (decoder_layer_flex_without_paged_cache (midlayer self) a
              inputs_embeds hs c (Some m)
              (Some (mkT2 1 (dim3_1 hidden_states) (fun _ t => Z.of_nat t)))
              h1 Hb) as (e & He).
  exists e, h1. erewrite bindM_err by exact He. auto.
Qed.

End FlexWithoutCache.

(** ** The pass without cache *)

Section NoCachePass.

Context {F : Type} {SF : Scalar F} {EX : Collaborators F}.

(** The pass without cache under any additive mask that broadcasts to
    the attention weights. *)
Lemma no_cache_pass_spec (self : Qwen3Attention F) (x : T3 F) (B N : nat)
    (p : T2 Z) (m : T4 (score F)) (w : world) :
  attention_well_shaped self ->
  shape3 x = (B, N, in_features (q_proj self)) ->
  cols2 p = N ->
  broadcasts_to (rows2 p) B ->
  broadcasts_to (dim4_0 m) B -> broadcasts_to (dim4_1 m) (num_heads self) ->
  broadcasts_to (dim4_2 m) N -> broadcasts_to (dim4_3 m) N ->
  exists q0 k0 v0 Q K' y,
    project_heads self x = Ok (q0, k0, v0)
    /\ rotate self q0 k0 p = Ok (Q, K')
    /\ shape4 Q = (B, num_heads self, N, head_dim self)
    /\ shape4 K' = (B, attn_num_key_value_heads self, N, head_dim self)
    /\ Qwen3Attention_forward self x None (Some (AdditiveMask m)) (Some p) w
       = (Ok y, w)
    /\ shape3 y = (B, N, out_features (o_proj self))
    /\ forall b t o, b < B -> t < N -> o < out_features (o_proj self) ->
         at3 y b t o
         = projected_entry self
             (sdpa_entry Q (repeat_kv K' (num_key_value_groups self))
                (repeat_kv v0 (num_key_value_groups self)) m) b t o.
Proof.
  intros Hws Hx Hcols Hrows Hm0 Hm1 Hm2 Hm3.
  destruct (project_heads_spec self x B N Hws Hx)
    as (q0 & k0 & v0 & Hproj & Hq0 & Hk0 & Hv0 & _).
  destruct (rotate_spec self q0 k0 p B
              (num_heads self) (attn_num_key_value_heads self) N Hws Hq0 Hk0
              Hcols Hrows)
    as (Q & K' & Hrot & HQ & HK' & _).
  destruct (repeat_kv_spec K' (num_key_value_groups self) _ _ _ _ HK')
    as [HK _].
  destruct (repeat_kv_spec v0 (num_key_value_groups self) _ _ _ _ Hv0)
    as [HV _].
  rewrite <- (heads_grouped Hws) in HK, HV.
  destruct (sdpa_spec Q _ _ m B (num_heads self) N N (head_dim self)
              HQ HK HV Hm0 Hm1 Hm2 Hm3)
    as (a & Ha & Has & Hav).
  destruct (merge_heads_spec self a B N Hws Has) as (y & Hy & Hys & Hyv).
  exists q0, k0, v0, Q, K', y.
  split; [exact Hproj |]. split; [exact Hrot |].
  split; [exact HQ |]. split; [exact HK' |].
  split; [| split; [exact Hys |]].
  - unfold Qwen3Attention_forward. rewrite Hproj. rewrite bindM_lift_ok.
    unfold attention_without_cache. cbn [bind]. rewrite Hrot. cbn [bind].
    rewrite Ha. rewrite bindM_lift_ok.
    assert (Ed : dim3_0 x = B /\ dim3_1 x = N)
      by (unfold shape3 in Hx; split; congruence).
    destruct Ed as [-> ->]. unfold liftM. rewrite Hy. reflexivity.
  - intros b t o Hb Ht Ho. rewrite (Hyv b t o Hb Ht Ho).
    apply (projected_entry_ext self (at4 a) _ b t t o). intros h e Hh He.
    apply Hav; assumption.
Qed.



End NoCachePass.

(** ** Calls that fail after the append *)

Section FailureAfterAppend.

Context {F : Type} {SF : Scalar F} {EX : Collaborators F}.

(** A call in cache-accumulation mode on a well-shaped step, up to the
    attention over the extended cache. *)
Lemma forward_with_cache_run_full (self : Qwen3Attention F) (x : T3 F)
    (B T : nat) (l : loc) (attention_mask : option (mask F)) (p : T2 Z)
    (w : world) (keys values : list (T4 F)) :
  attention_well_shaped self ->
  shape3 x = (B, T, in_features (q_proj self)) ->
  cols2 p = T ->
  broadcasts_to (rows2 p) B ->
  nth_error (caches w) l = Some (keys, values) ->
  exists q0 k0 v0 q kr,
    project_heads self x = Ok (q0, k0, v0)
    /\ rotate self q0 k0 (add_offset p (length keys)) = Ok (q, kr)
    /\ shape4 q0 = (B, num_heads self, T, head_dim self)
    /\ shape4 k0 = (B, attn_num_key_value_heads self, T, head_dim self)
    /\ shape4 q = (B, num_heads self, T, head_dim self)
    /\ shape4 (repeat_kv kr (num_key_value_groups self))
       = (B, num_heads self, T, head_dim self)
    /\ shape4 (repeat_kv v0 (num_key_value_groups self))
       = (B, num_heads self, T, head_dim self)
    /\ Qwen3Attention_forward self x (Some l) attention_mask (Some p) w
       = (a <- cached_attention self q
                 (keys ++ [repeat_kv kr (num_key_value_groups self)])
                 (values ++ [repeat_kv v0 (num_key_value_groups self)])
                 attention_mask T ;;
          merge_heads self B T a,
          mkWorld (set_nth (caches w) l
                     (keys ++ [repeat_kv kr (num_key_value_groups self)],
                      values ++ [repeat_kv v0 (num_key_value_groups self)]))
                  (paged w)).
Proof.
  intros Hws Hx Hcols Hrows Hl.
  destruct (project_heads_spec self x B T Hws Hx)
    as (q0 & k0 & v0 & Hproj & Hq0 & Hk0 & Hv0 & _).
  destruct (rotate_spec self q0 k0 (add_offset p (length keys)) B
              (num_heads self) (attn_num_key_value_heads self) T Hws Hq0 Hk0
              Hcols Hrows)
    as (q & k & Hrot & Hq & Hk & _).
  destruct (repeat_kv_spec k (num_key_value_groups self) _ _ _ _ Hk)
    as [HK _].
  destruct (repeat_kv_spec v0 (num_key_value_groups self) _ _ _ _ Hv0)
    as [HV _].
  rewrite <- (heads_grouped Hws) in HK, HV.
  exists q0, k0, v0, q, k.
  split; [exact Hproj |]. split; [exact Hrot |].
  split; [exact Hq0 |]. split; [exact Hk0 |].
  split; [exact Hq |]. split; [exact HK |]. split; [exact HV |].
  assert (Ed : dim3_0 x = B /\ dim3_1 x = T)
    by (unfold shape3 in Hx; split; congruence).
  destruct Ed as [E0 E1].
  unfold Qwen3Attention_forward. rewrite Hproj, bindM_lift_ok, E0, E1.
  unfold bindM at 1.
  rewrite (attention_with_cache_run self q0 k0 v0 q k l attention_mask p T w
             keys values Hl Hrot).
  destruct (cached_attention self q _ _ attention_mask T) as [a | e];
    reflexivity.
Qed.

Lemma forward_with_cache_run (self : Qwen3Attention F) (x : T3 F)
    (B T : nat) (l : loc) (attention_mask : option (mask F)) (p : T2 Z)
    (w : world) (keys values : list (T4 F)) :
  attention_well_shaped self ->
  shape3 x = (B, T, in_features (q_proj self)) ->
  cols2 p = T ->
  broadcasts_to (rows2 p) B ->
  nth_error (caches w) l = Some (keys, values) ->
  exists q k v,
    shape4 q = (B, num_heads self, T, head_dim self)
    /\ shape4 k = (B, num_heads self, T, head_dim self)
    /\ shape4 v = (B, num_heads self, T, head_dim self)
    /\ Qwen3Attention_forward self x (Some l) attention_mask (Some p) w
       = (a <- cached_attention self q (keys ++ [k]) (values ++ [v])
                 attention_mask T ;;
          merge_heads self B T a,
          mkWorld (set_nth (caches w) l (keys ++ [k], values ++ [v]))
                  (paged w)).
Proof.
  intros Hws Hx Hcols Hrows Hl.
  destruct (forward_with_cache_run_full self x B T l attention_mask p w keys
              values Hws Hx Hcols Hrows Hl)
    as (q0 & k0 & v0 & q & kr & _ & _ & _ & _ & Hq & Hk & Hv & Hrun).
  exists q, (repeat_kv kr (num_key_value_groups self)),
         (repeat_kv v0 (num_key_value_groups self)).
  auto.
Qed.

Lemma nth_error_in_range {A} (l : list A) (i : nat) (x : A) :
  nth_error l i = Some x -> i < length l.
Proof. intros H. apply nth_error_Some. rewrite H. discriminate. Qed.



End FailureAfterAppend.

(** ** The decoder layer and the model on well-shaped inputs *)

Section LayerReturns.

Context {F : Type} {SF : Scalar F} {EX : Collaborators F}.

(** The first call on an empty cache, on a well-shaped step. *)
Lemma first_cached_step_returns (self : Qwen3Attention F) (x : T3 F)
    (B N : nat) (l : loc) (m : mask F) (p : T2 Z) (w : world) :
  attention_well_shaped self ->
  shape3 x = (B, N, in_features (q_proj self)) ->
  cols2 p = N ->
  broadcasts_to (rows2 p) B ->
  broadcasts_to (dim4_0 (as_additive m)) B ->
  broadcasts_to (dim4_1 (as_additive m)) (num_heads self) ->
  broadcasts_to (dim4_2 (as_additive m)) N ->
  broadcasts_to (dim4_3 (as_additive m)) N ->
  nth_error (caches w) l = Some ([], []) ->
  exists y k v,
    Qwen3Attention_forward self x (Some l) (Some m) (Some p) w
      = (Ok y, mkWorld (set_nth (caches w) l ([k], [v])) (paged w))
    /\ shape3 y = (B, N, out_features (o_proj self))
    /\ dim4_2 k = N /\ dim4_2 v = N.
Proof.
  intros Hws Hx Hcols Hrows Hm0 Hm1 Hm2 Hm3 Hl.
  destruct (forward_with_cache_run self x B N l (Some m) p w [] []
              Hws Hx Hcols Hrows Hl)
    as (q & k & v & Hq & Hk & Hv & Hrun).
  cbn [app] in Hrun.
  destruct (cached_attention_refines self q [k] [v] B (num_heads self) N
              (head_dim self) m Hq)
    as (a & Ha & Hsa & _); try assumption.
  { constructor; [exact Hk | constructor]. }
  { constructor; [exact Hv | constructor]. }
  { discriminate. }
  { reflexivity. }
  assert (Has : shape4 a = (B, num_heads self, N, head_dim self)).
  { rewrite Hsa. unfold spec_cached_attention, shape4.
    cbn [dim4_0 dim4_1 dim4_2 dim4_3]. unfold shape4 in Hq.
    injection Hq as -> -> _ ->. reflexivity. }
  destruct (merge_heads_spec self a B N Hws Has) as (y & Hy & Hys & _).
  exists y, k, v. split; [| split; [exact Hys |]].
  - rewrite Hrun, Ha. cbn [bind]. rewrite Hy. reflexivity.
  - unfold shape4 in Hk, Hv. split; congruence.
Qed.

Lemma decoder_layer_init_inv (config : Qwen3Config F) (w : LayerInit F)
    (layer : Qwen3DecoderLayer F) :
  Qwen3DecoderLayer_init config "sdpa" w = Ok layer ->
  exists a mlp,
    Qwen3Attention_init config (init_attn w) = Ok a
    /\ Qwen3MLP_init config (init_gate w) (init_up w) (init_down w) = Ok mlp
    /\ layer
       = mkDecoderLayer (hidden_size config) (StandardAttention a) mlp
           (Qwen3RMSNorm_init (hidden_size config) (rms_norm_eps config))
           (Qwen3RMSNorm_init (hidden_size config) (rms_norm_eps config))
           (Qwen3RMSNorm_init (hidden_size config) (rms_norm_eps config)).
Proof.
  unfold Qwen3DecoderLayer_init. cbn [String.eqb Ascii.eqb Bool.eqb].
  intros H. apply bind_ok_inv in H. destruct H as (attn & Hattn & H).
  apply bind_ok_inv in H. destruct H as (mlp & Hmlp & H).
  apply bind_ok_inv in Hattn. destruct Hattn as (a & Ha & Hattn).
  injection Hattn as <-. injection H as <-.
  exists a, mlp. auto.
Qed.

(** The decoder layer after the attention: residual, norm, MLP,
    residual. *)
Lemma decoder_layer_tail (config : Qwen3Config F) (mlp : Qwen3MLP F)
    (wg wu wd : nat -> nat -> F) (residual y : T3 F) (B N : nat) :
  Qwen3MLP_init config wg wu wd = Ok mlp ->
  entrywise (act_fn mlp) ->
  shape3 residual = (B, N, hidden_size config) ->
  shape3 y = (B, N, hidden_size config) ->
  exists out,
    (hidden_states <- bin3 fadd residual y ;;
     let residual := hidden_states in
     hidden_states <-
       Qwen3RMSNorm_forward3
         (Qwen3RMSNorm_init (hidden_size config) (rms_norm_eps config))
         hidden_states ;;
     hidden_states <- Qwen3MLP_forward mlp hidden_states ;;
     bin3 fadd residual hidden_states) = Ok out
    /\ shape3 out = (B, N, hidden_size config).
Proof.
  intros Hmlp Hact Hr Hy.
  assert (Hadd : forall a b : T3 F,
            shape3 a = (B, N, hidden_size config) ->
            shape3 b = (B, N, hidden_size config) ->
            exists c, bin3 fadd a b = Ok c
                      /\ shape3 c = (B, N, hidden_size config)).
  { intros a b Ha Hb. destruct a as [a0 a1 a2 af]. destruct b as [b0 b1 b2 bf].
    unfold shape3 in Ha, Hb. cbn [dim3_0 dim3_1 dim3_2] in Ha, Hb.
    injection Ha as -> -> ->. injection Hb as -> -> ->.
    unfold bin3. cbn [dim3_0 dim3_1 dim3_2]. rewrite !bdim_refl. cbn [bind].
    eexists. split; reflexivity. }
  destruct (Hadd residual y Hr Hy) as (r1 & -> & Hr1). cbn [bind].
  destruct (rms_norm3_same_width
              (Qwen3RMSNorm_init (hidden_size config) (rms_norm_eps config))
              r1) as (n1 & -> & Hn1 & _).
  { cbn. unfold shape3 in Hr1. congruence. }
  cbn [bind]. rewrite Hr1 in Hn1.
  destruct (mlp_init_forward config wg wu wd mlp n1 Hmlp)
    as (Hok & _).
  destruct (Hok Hact) as (m1 & -> & Hm1).
  { unfold shape3 in Hn1. congruence. }
  cbn [bind]. rewrite Hn1 in Hm1.
  apply Hadd; assumption.
Qed.

Lemma decoder_layer_head (config : Qwen3Config F)
    (input_emb hidden_states : T3 F) (B N : nat) :
  shape3 input_emb = (B, N, hidden_size config) ->
  shape3 hidden_states = (B, N, hidden_size config) ->
  exists hs emb x,
    Qwen3RMSNorm_forward3
      (Qwen3RMSNorm_init (hidden_size config) (rms_norm_eps config))
      hidden_states = Ok hs
    /\ Qwen3RMSNorm_forward3
         (Qwen3RMSNorm_init (hidden_size config) (rms_norm_eps config))
         input_emb = Ok emb
    /\ cat3_last emb hs = Ok x
    /\ shape3 x = (B, N, hidden_size config * 2).
Proof.
  intros He Hh.
  destruct (rms_norm3_same_width
              (Qwen3RMSNorm_init (hidden_size config) (rms_norm_eps config))
              hidden_states) as (hs & Hhs & Hs1 & _).
  { cbn. unfold shape3 in Hh. congruence. }
  destruct (rms_norm3_same_width
              (Qwen3RMSNorm_init (hidden_size config) (rms_norm_eps config))
              input_emb) as (emb & Hemb & Hs2 & _).
  { cbn. unfold shape3 in He. congruence. }
  rewrite Hh in Hs1. rewrite He in Hs2.
  destruct hs as [a0 a1 a2 af]. destruct emb as [b0 b1 b2 bf].
  unfold shape3 in Hs1, Hs2. cbn [dim3_0 dim3_1 dim3_2] in Hs1, Hs2.
  injection Hs1 as -> -> ->. injection Hs2 as -> -> ->.
  eexists _, _, _. split; [exact Hhs |]. split; [exact Hemb |].
  unfold cat3_last. cbn [dim3_0 dim3_1 dim3_2]. rewrite !Nat.eqb_refl.
  cbn [andb]. split; [reflexivity |].
  unfold shape3. cbn [dim3_0 dim3_1 dim3_2]. f_equal. lia.
Qed.

(** The layer built by the constructor, on inputs of the model width,
    without cache or on an empty one. *)
Lemma decoder_layer_returns (config : Qwen3Config F) (w : LayerInit F)
    (layer : Qwen3DecoderLayer F) (a : Qwen3Attention F)
    (input_emb hidden_states : T3 F) (B N : nat) (m : mask F) (p : T2 Z)
    (cache_hidden : option loc) (h : world) :
  Qwen3DecoderLayer_init config "sdpa" w = Ok layer ->
  self_attn layer = StandardAttention a ->
  entrywise (act_fn (mlp layer)) ->
  num_attention_heads config mod num_key_value_heads config = 0 ->
  head_dim a = 2 * len1 (inv_freq (rotary_emb a)) ->
  shape3 input_emb = (B, N, hidden_size config) ->
  shape3 hidden_states = (B, N, hidden_size config) ->
  cols2 p = N ->
  broadcasts_to (rows2 p) B ->
  (exists am, m = AdditiveMask am) ->
  broadcasts_to (dim4_0 (as_additive m)) B ->
  broadcasts_to (dim4_1 (as_additive m)) (num_attention_heads config) ->
  broadcasts_to (dim4_2 (as_additive m)) N ->
  broadcasts_to (dim4_3 (as_additive m)) N ->
  match cache_hidden with
  | None => True
  | Some l => nth_error (caches h) l = Some ([], [])
  end ->
  exists out h',
    Qwen3DecoderLayer_forward layer input_emb hidden_states cache_hidden
      (Some m) (Some p) None h = (Ok out, h')
    /\ shape3 out = (B, N, hidden_size config)
    /\ match cache_hidden with
       | None => h' = h
       | Some l =>
           exists k v,
             dim4_2 k = N /\ dim4_2 v = N
             /\ h' = mkWorld (set_nth (caches h) l ([k], [v])) (paged h)
       end.
Proof.
  intros Hinit Hattn Hact Hmod Hrope He Hh Hcols Hrows [am Ham]
         Hm0 Hm1 Hm2 Hm3 Hc.
  destruct (decoder_layer_init_inv config w layer Hinit)
    as (a' & mlp0 & Ha & Hmlp & Hlayer).
  subst layer. cbn [self_attn] in Hattn. injection Hattn as ->.
  cbn [mlp] in Hact.
  destruct (attention_init_well_shaped config (init_attn w) a Ha Hmod Hrope)
    as (Hws & Hin & Hout).
  assert (Hheads : num_heads a = num_attention_heads config).
  { destruct (attention_init_inv config (init_attn w) a Ha)
      as (_ & _ & r & _ & Hself). cbv zeta in Hself. subst a. reflexivity. }
  destruct (decoder_layer_head config input_emb hidden_states B N He Hh)
    as (hs & emb & x & Hhs & Hemb & Hx & Hxs).
  rewrite <- Hin in Hxs. rewrite <- Hheads in Hm1.
  unfold Qwen3DecoderLayer_forward.
  cbn [hidden_norm input_layernorm post_attention_layernorm self_attn mlp].
  rewrite Hhs, bindM_lift_ok, Hemb, bindM_lift_ok, Hx, bindM_lift_ok.
  cbn [self_attn_forward].
  destruct cache_hidden as [l |].
  - destruct (first_cached_step_returns a x B N l m p h Hws Hxs Hcols Hrows
                Hm0 Hm1 Hm2 Hm3 Hc) as (y & k & v & Hy & Hys & Hkn & Hvn).
    rewrite Hout in Hys.
    destruct (decoder_layer_tail config mlp0 _ _ _ hidden_states y B N
                Hmlp Hact Hh Hys) as (out & Hout' & Houts).
    exists out. eexists. erewrite bindM_ok by exact Hy.
    split; [| split; [exact Houts | exists k, v; auto]].
    apply bind_ok_inv in Hout'. destruct Hout' as (r1 & Hr1 & Hrest).
    rewrite Hr1, bindM_lift_ok. unfold liftM. cbv zeta in Hrest.
    rewrite Hrest. reflexivity.
  - subst m. cbn [as_additive] in Hm0, Hm1, Hm2, Hm3.
    destruct (no_cache_pass_spec a x B N p am h Hws Hxs Hcols Hrows
                Hm0 Hm1 Hm2 Hm3)
      as (q0 & k0 & v0 & Q & K' & y & _ & _ & _ & _ & Hy & Hys & _).
    rewrite Hout in Hys.
    destruct (decoder_layer_tail config mlp0 _ _ _ hidden_states y B N
                Hmlp Hact Hh Hys) as (out & Hout' & Houts).
    exists out, h. erewrite bindM_ok by exact Hy.
    split; [| split; [exact Houts | reflexivity]].
    apply bind_ok_inv in Hout'. destruct Hout' as (r1 & Hr1 & Hrest).
    rewrite Hr1, bindM_lift_ok. unfold liftM. cbv zeta in Hrest.
    rewrite Hrest. reflexivity.
Qed.

End LayerReturns.

(** ** What a call in cache-accumulation mode stores *)

Section CacheAppend.

Context {F : Type} {SF : Scalar F} {EX : Collaborators F}.

(** C3. A call of Qwen3Attention.forward in cache-accumulation mode on
    a well-shaped step, for a rope type whose frequencies stay as
    constructed, rotates at the position ids plus the length of the key
    list at entry and stores behind the reference it was given the key
    list and the value list each extended by exactly one entry, the
    rotated and grouped-query-expanded key and the expanded value of
    this step, whether the attention that follows returns or raises;
    the earlier entries, every other object and the paged caches stay
    as they were, and lists of equal length stay of equal length.  On
    an empty cache with an additive mask that broadcasts to the
    attention weights the call returns.  Hence after a rollout from an
    empty cache each list holds as many entries as there were steps. *)
Theorem forward_appends_step_to_cache (self : Qwen3Attention F)
    (hidden_states : T3 F) (B T : nat) (l : loc)
    (attention_mask : option (mask F)) (p : T2 Z) (w : world)
    (keys values : list (T4 F)) :
  attention_well_shaped self ->
  static_rope (rotary_emb self) = true ->
  shape3 hidden_states = (B, T, in_features (q_proj self)) ->
  cols2 p = T ->
  broadcasts_to (rows2 p) B ->
  nth_error (caches w) l = Some (keys, values) ->
  exists r w' q0 k0 v0 q k,
    Qwen3Attention_forward self hidden_states (Some l) attention_mask
      (Some p) w = (r, w')
    /\ project_heads self hidden_states = Ok (q0, k0, v0)
    /\ rotate self q0 k0 (add_offset p (length keys)) = Ok (q, k)
    /\ nth_error (caches w') l
       = Some (keys ++ [repeat_kv k (num_key_value_groups self)],
               values ++ [repeat_kv v0 (num_key_value_groups self)])
    /\ (forall l', l' <> l ->
          nth_error (caches w') l' = nth_error (caches w) l')
    /\ paged w' = paged w
    /\ (length keys = length values ->
        length (keys ++ [repeat_kv k (num_key_value_groups self)])
        = length (values ++ [repeat_kv v0 (num_key_value_groups self)]))
    /\ (forall m,
          attention_mask = Some m -> keys = [] -> values = [] ->
          broadcasts_to (dim4_0 (as_additive m)) B ->
          broadcasts_to (dim4_1 (as_additive m)) (num_heads self) ->
          broadcasts_to (dim4_2 (as_additive m)) T ->
          broadcasts_to (dim4_3 (as_additive m)) T ->
          exists out, r = Ok out)
    /\ (forall steps w0 w1 outs,
          nth_error (caches w0) l = Some ([], []) ->
          rollout self steps l attention_mask (Some p) w0 = (Ok outs, w1) ->
          exists ks vs,
            nth_error (caches w1) l = Some (ks, vs)
            /\ length ks = length steps /\ length vs = length steps).
Proof.
  intros Hws _ Hx Hcols Hrows Hl.
  assert (Hlt : l < length (caches w))
    by (eapply nth_error_in_range; exact Hl).
  destruct (forward_with_cache_run_full self hidden_states B T l
              attention_mask p w keys values Hws Hx Hcols Hrows Hl)
    as (q0 & k0 & v0 & q & k & Hproj & Hrot & _ & _ & _ & _ & _ & Hrun).
  eexists _, _, q0, k0, v0, q, k.
  split; [exact Hrun |]. split; [exact Hproj |]. split; [exact Hrot |].
  cbn [caches paged].
  split; [apply nth_error_set_nth_same; exact Hlt |].
  split; [intros l' Hl'; apply nth_error_set_nth_other; congruence |].
  split; [reflexivity |].
  split; [intros Hlen; rewrite !length_app; simpl; lia |].
  split.
  - intros m -> -> -> Hm0 Hm1 Hm2 Hm3.
    destruct (first_cached_step_returns self hidden_states B T l m p w
                Hws Hx Hcols Hrows Hm0 Hm1 Hm2 Hm3 Hl)
      as (y & k' & v' & Hy & _).
    rewrite Hrun in Hy. exists y. congruence.
  - intros steps w0 w1 outs Hl0 Hroll.
    destruct (rollout_extends_cache self steps l attention_mask (Some p)
                w0 w1 [] [] outs Hl0 Hroll)
      as (ks & vs & H1 & H2 & H3 & _).
    exists ks, vs. auto.
Qed.

End CacheAppend.

Section ModelReturns.

Context {F : Type} {SF : Scalar F} {EX : Collaborators F}.

Lemma model_init_inv (config : Qwen3Config F) (attention_backend : string)
    (w : ModelInit F) (self : Qwen3ForCausalLMEagle3 F) :
  Qwen3ForCausalLMEagle3_init config attention_backend w = Ok self ->
  exists layer,
    Qwen3DecoderLayer_init config attention_backend (init_layer w) = Ok layer
    /\ self
       = mkEagle3 config layer
           (match target_hidden_size config with
            | Some target =>
                mkLinear (target * 3) (hidden_size config) (init_fc w)
            | None =>
                mkLinear (hidden_size config * 3) (hidden_size config)
                         (init_fc w)
            end)
           (Qwen3RMSNorm_init (hidden_size config) (rms_norm_eps config))
           (mkLinear (hidden_size config) (draft_vocab_size config)
                     (init_lm_head w)).
Proof.
  unfold Qwen3ForCausalLMEagle3_init. intros H.
  apply bind_ok_inv in H. destruct H as (layer & Hlayer & H).
  injection H as <-. exists layer. auto.
Qed.

Lemma set_nth_last {A} (l : list A) (x y : A) :
  set_nth (l ++ [x]) (length l) y = l ++ [y].
Proof.
  induction l as [| z t IH]; simpl; [reflexivity | rewrite IH; reflexivity].
Qed.

(** X15. The decoder layer built with the sdpa backend, with a rope
    type whose frequencies stay as constructed and an activation that
    works entry by entry, on an input embedding and hidden states of
    shape (B, N, hidden_size) and without cache, returns a tensor of
    shape (B, N, hidden_size) and changes no state. *)
Theorem decoder_layer_keeps_hidden_shape (config : Qwen3Config F)
    (w : LayerInit F) (layer : Qwen3DecoderLayer F) (a : Qwen3Attention F)
    (input_emb hidden_states : T3 F) (B N : nat) (m : T4 (score F))
    (p : T2 Z) (h : world) :
  Qwen3DecoderLayer_init config "sdpa" w = Ok layer ->
  self_attn layer = StandardAttention a ->
  static_rope (rotary_emb a) = true ->
  entrywise (act_fn (mlp layer)) ->
  num_attention_heads config mod num_key_value_heads config = 0 ->
  head_dim a = 2 * len1 (inv_freq (rotary_emb a)) ->
  shape3 input_emb = (B, N, hidden_size config) ->
  shape3 hidden_states = (B, N, hidden_size config) ->
  cols2 p = N ->
  broadcasts_to (rows2 p) B ->
  broadcasts_to (dim4_0 m) B ->
  broadcasts_to (dim4_1 m) (num_attention_heads config) ->
  broadcasts_to (dim4_2 m) N ->
  broadcasts_to (dim4_3 m) N ->
  exists out,
    Qwen3DecoderLayer_forward layer input_emb hidden_states None
      (Some (AdditiveMask m)) (Some p) None h = (Ok out, h)
    /\ shape3 out = (B, N, hidden_size config).
Proof.
  intros Hinit Hattn _ Hact Hmod Hrope He Hh Hcols Hrows Hm0 Hm1 Hm2 Hm3.
  destruct (decoder_layer_returns config w layer a input_emb hidden_states
              B N (AdditiveMask m) p None h Hinit Hattn Hact Hmod Hrope He Hh
              Hcols Hrows (ex_intro _ m eq_refl) Hm0 Hm1 Hm2 Hm3 I)
    as (out & h' & Hrun & Hs & ->).
  exists out. split; assumption.
Qed.

(** X16. Qwen3ForCausalLMEagle3.forward on a model with the sdpa
    backend, a rope type whose frequencies stay as constructed and an
    activation that works entry by entry returns a tensor of shape
    (B, N, hidden_size) for every
    ttt_length, when the hidden states have the width fc reads, the
    input embedding has width hidden_size, the sequence is not empty
    and the prepared mask broadcasts to the attention weights.  With
    ttt_length = 1 no state changes; otherwise one cache is added, which
    holds one key and one value. *)
Theorem forward_returns_hidden_shape (config : Qwen3Config F)
    (w : ModelInit F) (self : Qwen3ForCausalLMEagle3 F) (a : Qwen3Attention F)
    (hidden_states inputs_embeds : T3 F) (attention_mask : option (T2 bool))
    (ttt_length : Z) (B N : nat) (m : T4 (score F)) (h : world) :
  Qwen3ForCausalLMEagle3_init config "sdpa" w = Ok self ->
  self_attn (midlayer self) = StandardAttention a ->
  static_rope (rotary_emb a) = true ->
  entrywise (act_fn (mlp (midlayer self))) ->
  num_attention_heads config mod num_key_value_heads config = 0 ->
  head_dim a = 2 * len1 (inv_freq (rotary_emb a)) ->
  shape3 hidden_states = (B, N, in_features (fc self)) ->
  shape3 inputs_embeds = (B, N, hidden_size config) ->
  N <> 0 ->
  prepare_decoder_attention_mask
    (match attention_mask with
     | Some given => given
     | None => mkT2 B N (fun _ _ => true)
     end) hidden_states B N 0 = Ok (AdditiveMask m) ->
  broadcasts_to (dim4_0 m) B ->
  broadcasts_to (dim4_1 m) (num_attention_heads config) ->
  broadcasts_to (dim4_2 m) N ->
  broadcasts_to (dim4_3 m) N ->
  exists out h',
    Qwen3ForCausalLMEagle3_forward self hidden_states inputs_embeds
      attention_mask ttt_length h = (Ok out, h')
    /\ shape3 out = (B, N, hidden_size config)
    /\ (ttt_length = 1%Z -> h' = h)
    /\ (ttt_length <> 1%Z ->
        exists k v,
          h' = mkWorld (caches h ++ [([k], [v])]) (paged h)).
Proof.
  intros Hinit Hattn _ Hact Hmod Hrope Hh He HN Hmask Hm0 Hm1 Hm2 Hm3.
  destruct (model_init_inv config "sdpa" w self Hinit)
    as (layer & Hlayer & Hself).
  assert (Hmid : midlayer self = layer) by (subst self; reflexivity).
  rewrite Hmid in Hact.
  assert (Hnorm : norm self
                  = Qwen3RMSNorm_init (hidden_size config)
                      (rms_norm_eps config)) by (subst self; reflexivity).
  assert (Hfc : out_features (fc self) = hidden_size config).
  { subst self. cbn [fc]. destruct (target_hidden_size config); reflexivity. }
  rewrite Hmid in Hattn.
  assert (Ed : dim3_0 hidden_states = B /\ dim3_1 hidden_states = N
               /\ dim3_2 hidden_states = in_features (fc self)).
  { unfold shape3 in Hh. injection Hh as -> -> ->. auto. }
  destruct Ed as (E0 & E1 & E2).
  destruct (linear_forward_shape (fc self) hidden_states E2)
    as (hs & Hhs & Hhss & _).
  rewrite E0, E1, Hfc in Hhss.
  unfold Qwen3ForCausalLMEagle3_forward. rewrite E0, E1, Hmid, Hnorm.
  assert (Hfinal : forall out0 : T3 F,
            shape3 out0 = (B, N, hidden_size config) ->
            exists out,
              Qwen3RMSNorm_forward3
                (Qwen3RMSNorm_init (hidden_size config) (rms_norm_eps config))
                out0 = Ok out
              /\ shape3 out = (B, N, hidden_size config)).
  { intros out0 Ho.
    destruct (rms_norm3_same_width
                (Qwen3RMSNorm_init (hidden_size config) (rms_norm_eps config))
                out0) as (out & Hout & Hs & _).
    { cbn. unfold shape3 in Ho. congruence. }
    exists out. split; [exact Hout | congruence]. }
  assert (Hguard : (N =? 0) = false) by (apply Nat.eqb_neq; exact HN).
  unfold make_cache_hidden.
  destruct (Z.eqb_spec ttt_length 1) as [Httt | Httt].
  - rewrite (bindM_ok _ _ h h None) by reflexivity.
    rewrite Hguard. cbn [negb guard]. rewrite bindM_lift_ok.
    rewrite Hmask, bindM_lift_ok, Hhs, bindM_lift_ok.
    destruct (decoder_layer_returns config (init_layer w) layer a
                inputs_embeds hs B N (AdditiveMask m)
                (mkT2 1 N (fun _ t => Z.of_nat t)) None h Hlayer Hattn Hact
                Hmod Hrope He Hhss eq_refl (or_intror eq_refl)
                (ex_intro _ m eq_refl) Hm0 Hm1 Hm2 Hm3 I)
      as (out0 & h' & Hrun & Hs & ->).
    destruct (Hfinal out0 Hs) as (out & Hout & Houts).
    exists out, h. erewrite bindM_ok by exact Hrun.
    unfold liftM. rewrite Hout.
    split; [reflexivity |]. split; [exact Houts |].
    split; [reflexivity | intros; contradiction].
  - rewrite (bindM_ok _ _ h
               (mkWorld (caches h ++ [([], [])]) (paged h))
               (Some (length (caches h)))) by reflexivity.
    rewrite Hguard. cbn [negb guard]. rewrite bindM_lift_ok.
    rewrite Hmask, bindM_lift_ok, Hhs, bindM_lift_ok.
    destruct (decoder_layer_returns config (init_layer w) layer a
                inputs_embeds hs B N (AdditiveMask m)
                (mkT2 1 N (fun _ t => Z.of_nat t))
                (Some (length (caches h)))
                (mkWorld (caches h ++ [([], [])]) (paged h))
                Hlayer Hattn Hact Hmod
                Hrope He Hhss eq_refl (or_intror eq_refl)
                (ex_intro _ m eq_refl) Hm0 Hm1 Hm2 Hm3)
      as (out0 & h' & Hrun & Hs & k & v & _ & _ & ->).
    { cbn [caches]. rewrite nth_error_app2 by lia.
      rewrite Nat.sub_diag. reflexivity. }
    destruct (Hfinal out0 Hs) as (out & Hout & Houts).
    exists out. eexists. erewrite bindM_ok by exact Hrun.
    unfold liftM. rewrite Hout.
    split; [reflexivity |]. split; [exact Houts |].
    split; [intros; contradiction |].
    intros _. exists k, v. cbn [caches paged]. rewrite set_nth_last.
    reflexivity.
Qed.

(** X17. backbone on a model with the sdpa backend, a rope type whose
    frequencies stay as constructed and an activation that works entry
    by entry, given an empty cache, returns a tensor of shape
    (B, N, hidden_size) and leaves in the cache exactly one key and one
    value, of sequence length N. *)
Theorem backbone_fills_an_empty_cache (config : Qwen3Config F)
    (w : ModelInit F) (self : Qwen3ForCausalLMEagle3 F) (a : Qwen3Attention F)
    (input_embeds hidden_states : T3 F) (B N : nat) (m : T4 (score F))
    (p : T2 Z) (l : loc) (h : world) :
  Qwen3ForCausalLMEagle3_init config "sdpa" w = Ok self ->
  self_attn (midlayer self) = StandardAttention a ->
  static_rope (rotary_emb a) = true ->
  entrywise (act_fn (mlp (midlayer self))) ->
  num_attention_heads config mod num_key_value_heads config = 0 ->
  head_dim a = 2 * len1 (inv_freq (rotary_emb a)) ->
  shape3 input_embeds = (B, N, hidden_size config) ->
  shape3 hidden_states = (B, N, hidden_size config) ->
  cols2 p = N ->
  broadcasts_to (rows2 p) B ->
  broadcasts_to (dim4_0 m) B ->
  broadcasts_to (dim4_1 m) (num_attention_heads config) ->
  broadcasts_to (dim4_2 m) N ->
  broadcasts_to (dim4_3 m) N ->
  nth_error (caches h) l = Some ([], []) ->
  exists out k v,
    backbone self input_embeds hidden_states (Some l)
      (Some (AdditiveMask m)) (Some p) None h
    = (Ok out, mkWorld (set_nth (caches h) l ([k], [v])) (paged h))
    /\ shape3 out = (B, N, hidden_size config)
    /\ dim4_2 k = N /\ dim4_2 v = N.
Proof.
  intros Hinit Hattn _ Hact Hmod Hrope He Hh Hcols Hrows Hm0 Hm1 Hm2 Hm3 Hl.
  destruct (model_init_inv config "sdpa" w self Hinit)
    as (layer & Hlayer & Hself).
  assert (Hmid : midlayer self = layer) by (subst self; reflexivity).
  rewrite Hmid in Hattn, Hact. unfold backbone. rewrite Hmid.
  destruct (decoder_layer_returns config (init_layer w) layer a
              input_embeds hidden_states B N (AdditiveMask m) p (Some l) h
              Hlayer Hattn Hact Hmod Hrope He Hh Hcols Hrows
              (ex_intro _ m eq_refl) Hm0 Hm1 Hm2 Hm3 Hl)
    as (out & h' & Hrun & Hs & k & v & Hk & Hv & ->).
  exists out, k, v. auto.
Qed.

(** X18. compute_logits of a constructed model returns a tensor of
    shape (B, N, draft_vocab_size) on an input whose last dimension is
    hidden_size, or 1, which the norm broadcasts; it raises RuntimeError
    on every other width. *)
Theorem compute_logits_shape (config : Qwen3Config F)
    (attention_backend : string) (w : ModelInit F)
    (self : Qwen3ForCausalLMEagle3 F) (x : T3 F) :
  Qwen3ForCausalLMEagle3_init config attention_backend w = Ok self ->
  ((dim3_2 x = hidden_size config \/ dim3_2 x = 1) ->
   exists y,
     compute_logits self x = Ok y
     /\ shape3 y = (dim3_0 x, dim3_1 x, draft_vocab_size config))
  /\ (dim3_2 x <> hidden_size config -> dim3_2 x <> 1 ->
      compute_logits self x = Err RuntimeError).
Proof.
  intros Hinit.
  destruct (model_init_inv config attention_backend w self Hinit)
    as (layer & _ & ->).
  unfold compute_logits. cbn [norm lm_head].
  unfold Qwen3RMSNorm_forward3, Qwen3RMSNorm_init.
  cbn [norm_weight len1 at1 variance_epsilon].
  split.
  - intros Hx.
    assert (Hb : bdim (hidden_size config) (dim3_2 x)
                 = Ok (hidden_size config)).
    { destruct Hx as [-> | ->]; [apply bdim_refl |].
      unfold bdim. destruct (hidden_size config =? 1) eqn:E.
      - apply Nat.eqb_eq in E. rewrite E. reflexivity.
      - destruct (hidden_size config =? 1) eqn:E'; [discriminate |].
        reflexivity. }
    rewrite Hb. cbn [bind]. unfold Linear_forward.
    cbn [dim3_0 dim3_1 dim3_2 in_features out_features].
    rewrite Nat.eqb_refl. cbn [guard bind].
    eexists. split; reflexivity.
  - intros Hx H1. unfold bdim.
    destruct (Nat.eqb_spec (hidden_size config) (dim3_2 x));
      [congruence |].
    destruct (Nat.eqb_spec (hidden_size config) 1) as [E |].
    + cbn [bind]. unfold Linear_forward.
      cbn [dim3_0 dim3_1 dim3_2 in_features out_features].
      destruct (Nat.eqb_spec (dim3_2 x) (hidden_size config));
        [congruence | reflexivity].
    + destruct (Nat.eqb_spec (dim3_2 x) 1); [contradiction | reflexivity].
Qed.

End ModelReturns.

(** ** The first step of a rollout *)

Section FirstStep.

Context {F : Type} {SF : Scalar F} {EX : Collaborators F}.
Context {EXACT : ExactScalar F}.





End FirstStep.

(** ** The samplers *)

Section FixedSizeFits.

Context {ENV : SamplerEnv}.

Lemma sample_loop_fits (sample_size : Z) (validate : bool)
    (items : list (nat * string)) :
  forall st,
    (Z.of_nat (length (reservoir st))
     + Z.of_nat (length (valid_items validate items)) <= sample_size)%Z ->
    sample_loop sample_size validate items st
    = Ok (mkSampler (reservoir st ++ valid_items validate items)
            (valid_seen st + Z.of_nat (length (valid_items validate items)))
            (total_seen st + Z.of_nat (length items))
            (generator st)).
Proof.
  induction items as [| [pos raw] rest IH]; intros st Hfit.
  - cbn [sample_loop valid_items filter length Z.of_nat].
    rewrite app_nil_r, !Z.add_0_r. destruct st; reflexivity.
  - cbn [sample_loop sample_step valid_items filter snd] in *.
    fold (valid_items validate rest) in *.
    destruct (validate && negb (validate_jsonl_line raw)); cbn [negb] in *.
    + cbn [bind]. rewrite IH by (cbn [reservoir]; exact Hfit).
      cbn [reservoir valid_seen total_seen generator length].
      do 2 f_equal. lia.
    + cbn [length] in Hfit.
      destruct (Z.ltb_spec (Z.of_nat (length (reservoir st))) sample_size)
        as [_ | Hge]; [| lia].
      cbn [bind]. rewrite IH.
      * cbn [reservoir valid_seen total_seen generator length].
        rewrite <- app_assoc. cbn [app]. f_equal. f_equal; lia.
      * cbn [reservoir]. rewrite length_app. cbn [length]. lia.
Qed.

Lemma sort_by_pos_increasing (l : list (nat * string)) :
  increasing l -> sort_by_pos l = l.
Proof.
  unfold increasing. induction l as [| x t IH]; intros Hs; [reflexivity |].
  inversion Hs as [| ? ? Hs' Hall]; subst.
  cbn [sort_by_pos fold_right]. fold (sort_by_pos t). rewrite (IH Hs').
  destruct t as [| y t']; [reflexivity |].
  cbn [insert_by_pos]. inversion Hall as [| ? ? Hxy _]; subst.
  destruct (Nat.leb_spec (fst x) (fst y)); [reflexivity | lia].
Qed.

(** X20. When sample_size is at least the number of valid lines,
    sample_fixed_size writes all the valid lines in the order of the
    input and returns the two counts, whatever the generator and the
    seed. *)
Theorem sample_fixed_size_keeps_all_when_they_fit (input : list string)
    (sample_size seed : Z) (validate : bool) :
  (Z.of_nat (length (valid_lines validate input)) <= sample_size)%Z ->
  sample_fixed_size input sample_size seed validate
  = Ok (valid_lines validate input,
        (Z.of_nat (length input),
         Z.of_nat (length (valid_lines validate input)))).
Proof.
  intros Hfit. unfold sample_fixed_size.
  rewrite sample_loop_fits
    by (cbn [reservoir length Z.of_nat]; rewrite length_valid_items; lia).
  cbn [bind reservoir total_seen valid_seen app].
  rewrite sort_by_pos_increasing
    by (apply increasing_filter; apply increasing_combine_seq).
  unfold iter_lines at 1. rewrite valid_items_lines, length_valid_items.
  unfold iter_lines. rewrite length_combine, length_seq, Nat.min_id.
  reflexivity.
Qed.

End FixedSizeFits.

Section FractionProofs.

Context {ENV : SamplerEnv} {RF : RandomFloat ENV}.

Lemma subseq_refl {A} (l : list A) : subseq l l.
Proof. induction l; constructor; assumption. Qed.

Lemma subseq_length {A} (l1 l2 : list A) :
  subseq l1 l2 -> length l1 <= length l2.
Proof. induction 1; simpl; lia. Qed.

Lemma fraction_loop_spec (fraction : PrimFloat.float) (validate : bool)
    (items : list (nat * string)) :
  forall st,
    let st' := fold_left (fraction_step fraction validate) items st in
    fraction_total_seen st'
    = (fraction_total_seen st + Z.of_nat (length items))%Z
    /\ fraction_valid_seen st'
       = (fraction_valid_seen st
          + Z.of_nat (length (valid_items validate items)))%Z
    /\ exists kept,
         written_lines st' = written_lines st ++ kept
         /\ subseq kept (map snd (valid_items validate items))
         /\ written st' = (written st + Z.of_nat (length kept))%Z.
Proof.
  induction items as [| [pos raw] rest IH]; intros st; cbv zeta.
  - cbn [fold_left length valid_items filter map Z.of_nat].
    split; [lia |]. split; [lia |]. exists [].
    rewrite app_nil_r. split; [reflexivity |].
    split; [constructor | cbn; lia].
  - cbn [fold_left valid_items filter snd].
    fold (valid_items validate rest).
    remember (fraction_step fraction validate st (pos, raw)) as st1 eqn:Hst1.
    specialize (IH st1).
    cbv zeta in IH. destruct IH as (Ht & Hv & kept & Hout & Hsub & Hw).
    rewrite Ht, Hv, Hout, Hw. clear Ht Hv Hout Hw.
    unfold fraction_step in Hst1.
    destruct (validate && negb (validate_jsonl_line raw)); cbn [negb].
    + subst st1.
      cbn [fraction_total_seen fraction_valid_seen written_lines written].
      split; [cbn [length]; lia |]. split; [reflexivity |].
      exists kept. auto.
    + destruct (random_random (fraction_generator st)) as [r g].
      destruct (PrimFloat.ltb r fraction); subst st1;
        cbn [fraction_total_seen fraction_valid_seen written_lines written].
      * split; [cbn [length]; lia |].
        split; [cbn [length]; lia |].
        exists (raw :: kept). rewrite <- app_assoc.
        split; [reflexivity |]. cbn [map snd].
        split; [apply subseq_take; exact Hsub |].
        cbn [length]. lia.
      * split; [cbn [length]; lia |].
        split; [cbn [length]; lia |].
        exists kept. split; [reflexivity |]. cbn [map snd].
        split; [apply subseq_skip; exact Hsub | reflexivity].
Qed.

(** The run of the fraction sampler, with its counters. *)
Lemma sample_fraction_run (input : list string)
    (fraction : PrimFloat.float) (seed : Z) (validate : bool) :
  if fraction_in_range fraction then
    exists out,
      sample_fraction input fraction seed validate
      = Ok (out, (Z.of_nat (length input),
                  Z.of_nat (length (valid_lines validate input)),
                  Z.of_nat (length out)))
      /\ subseq out (valid_lines validate input)
      /\ length out <= length (valid_lines validate input) <= length input
  else
    sample_fraction input fraction seed validate = Err AssertionError.
Proof.
  unfold sample_fraction.
  destruct (fraction_in_range fraction); [| reflexivity].
  cbn [guard bind]. cbv zeta.
  destruct (fraction_loop_spec fraction validate (iter_lines input)
              (mkFraction [] 0 0 0 (random_seed seed)))
    as (Ht & Hv & kept & Hout & Hsub & Hw).
  cbn [fraction_total_seen fraction_valid_seen written_lines written app]
    in Ht, Hv, Hout, Hw.
  unfold iter_lines in Hsub at 1. rewrite valid_items_lines in Hsub.
  rewrite length_valid_items in Hv.
  exists kept. rewrite Ht, Hv, Hout, Hw.
  unfold iter_lines. rewrite length_combine, length_seq, Nat.min_id.
  split; [reflexivity |]. split; [exact Hsub |].
  split; [apply subseq_length; exact Hsub |].
  unfold valid_lines. apply filter_length_le.
Qed.

(** X21. sample_fraction raises AssertionError unless
    0.0 < fraction <= 1.0.  Otherwise it returns the number of lines,
    of valid lines and of lines written, and the lines written are
    valid lines in the order of the input. *)
Theorem sample_fraction_counts_and_order (input : list string)
    (fraction : PrimFloat.float) (seed : Z) (validate : bool) :
  if fraction_in_range fraction then
    exists out,
      sample_fraction input fraction seed validate
      = Ok (out, (Z.of_nat (length input),
                  Z.of_nat (length (valid_lines validate input)),
                  Z.of_nat (length out)))
      /\ subseq out (valid_lines validate input)
      /\ length out <= length (valid_lines validate input) <= length input
  else
    sample_fraction input fraction seed validate = Err AssertionError.
Proof. exact (sample_fraction_run input fraction seed validate). Qed.

Lemma fraction_loop_keeps_all (validate : bool)
    (items : list (nat * string)) :
  (forall g, PrimFloat.ltb (fst (random_random g)) PrimFloat.one = true) ->
  forall st,
    written_lines (fold_left (fraction_step PrimFloat.one validate) items st)
    = written_lines st ++ map snd (valid_items validate items).
Proof.
  intros Hunit. induction items as [| [pos raw] rest IH]; intros st.
  - cbn. rewrite app_nil_r. reflexivity.
  - cbn [fold_left valid_items filter snd].
    fold (valid_items validate rest). rewrite IH.
    unfold fraction_step at 1.
    destruct (validate && negb (validate_jsonl_line raw)); cbn [negb].
    + reflexivity.
    + pose proof (Hunit (fraction_generator st)) as Hlt.
      destruct (random_random (fraction_generator st)) as [r g].
      cbn [fst] in Hlt. rewrite Hlt. cbn [written_lines map snd].
      rewrite <- app_assoc. reflexivity.
Qed.

(** X22. With fraction = 1.0, and random.random() below 1.0 as
    documented, sample_fraction writes every valid line. *)
Theorem sample_fraction_one_keeps_every_valid_line (input : list string)
    (seed : Z) (validate : bool) :
  (forall g, PrimFloat.ltb (fst (random_random g)) PrimFloat.one = true) ->
  sample_fraction input PrimFloat.one seed validate
  = Ok (valid_lines validate input,
        (Z.of_nat (length input),
         Z.of_nat (length (valid_lines validate input)),
         Z.of_nat (length (valid_lines validate input)))).
Proof.
  intros Hunit. unfold sample_fraction.
  replace (fraction_in_range PrimFloat.one) with true by reflexivity.
  cbn [guard bind]. cbv zeta.
  destruct (fraction_loop_spec PrimFloat.one validate (iter_lines input)
              (mkFraction [] 0 0 0 (random_seed seed)))
    as (Ht & Hv & kept & Hout & _ & Hw).
  rewrite (fraction_loop_keeps_all validate (iter_lines input) Hunit) in Hout.
  cbn [fraction_total_seen fraction_valid_seen written_lines written app]
    in Ht, Hv, Hout, Hw.
  subst kept. rewrite Ht, Hv, Hw.
  rewrite (fraction_loop_keeps_all validate (iter_lines input) Hunit).
  cbn [written_lines app]. rewrite length_map, length_valid_items.
  unfold iter_lines at 1. rewrite valid_items_lines.
  unfold iter_lines. rewrite length_combine, length_seq, Nat.min_id.
  reflexivity.
Qed.

Lemma fraction_step_ignores_position (fraction : PrimFloat.float)
    (validate : bool) (st : fraction_sampler) (p p' : nat) (raw : string) :
  fraction_step fraction validate st (p, raw)
  = fraction_step fraction validate st (p', raw).
Proof. reflexivity. Qed.

(** The state of the loop but for the count of all lines. *)
Lemma fraction_loop_prefiltered (fraction : PrimFloat.float)
    (items : list (nat * string)) :
  forall (items' : list (nat * string)) (st st' : fraction_sampler),
    map snd items' = map snd (valid_items true items) ->
    written_lines st = written_lines st' ->
    fraction_valid_seen st = fraction_valid_seen st' ->
    written st = written st' ->
    fraction_generator st = fraction_generator st' ->
    let r := fold_left (fraction_step fraction true) items st in
    let r' := fold_left (fraction_step fraction false) items' st' in
    written_lines r = written_lines r'
    /\ fraction_valid_seen r = fraction_valid_seen r'
    /\ written r = written r'.
Proof.
  induction items as [| [pos raw] rest IH];
    intros items' st st' Hitems Hl Hv Hw Hg; cbv zeta.
  - cbn [valid_items filter map] in Hitems.
    destruct items'; [| discriminate]. cbn [fold_left]. auto.
  - cbn [fold_left valid_items filter snd] in *.
    fold (valid_items true rest) in *.
    destruct (validate_jsonl_line raw) eqn:Hvalid;
      cbn [andb negb] in Hitems.
    + destruct items' as [| [pos' raw'] rest']; [discriminate |].
      cbn [map snd] in Hitems. injection Hitems as -> Hrest.
      cbn [fold_left]. apply IH; [exact Hrest | | | |];
        unfold fraction_step; rewrite Hvalid; cbn [andb negb];
        rewrite <- Hg;
        destruct (random_random (fraction_generator st)) as [r g];
        destruct (PrimFloat.ltb r fraction);
        cbn [written_lines fraction_valid_seen written fraction_generator];
        congruence.
    + apply IH; [exact Hitems | | | |];
        unfold fraction_step; rewrite Hvalid; cbn [andb negb];
        cbn [written_lines fraction_valid_seen written fraction_generator];
        assumption.
Qed.

(** X23. Invalid lines do not disturb the fraction sample: with
    validation the lines written and the counts of valid and of written
    lines are those of a run without validation on the valid lines
    alone. *)
Theorem sample_fraction_skips_invalid_lines (input : list string)
    (fraction : PrimFloat.float) (seed : Z) :
  if fraction_in_range fraction then
    exists out valid,
      sample_fraction input fraction seed true
      = Ok (out, (Z.of_nat (length input), valid, Z.of_nat (length out)))
      /\ sample_fraction (valid_lines true input) fraction seed false
         = Ok (out, (valid, valid, Z.of_nat (length out)))
  else
    sample_fraction input fraction seed true = Err AssertionError
    /\ sample_fraction (valid_lines true input) fraction seed false
       = Err AssertionError.
Proof.
  pose proof (sample_fraction_run input fraction seed true)
    as H1.
  pose proof (sample_fraction_run (valid_lines true input)
                fraction seed false) as H2.
  destruct (fraction_in_range fraction) eqn:Hrange; [| auto].
  destruct H1 as (out & Hrun & _). destruct H2 as (out' & Hrun' & _).
  assert (Hitems : map snd (iter_lines (valid_lines true input))
                   = map snd (valid_items true (iter_lines input))).
  { unfold iter_lines. rewrite map_snd_combine_seq, valid_items_lines.
    reflexivity. }
  destruct (fraction_loop_prefiltered fraction (iter_lines input)
              (iter_lines (valid_lines true input))
              (mkFraction [] 0 0 0 (random_seed seed))
              (mkFraction [] 0 0 0 (random_seed seed))
              Hitems eq_refl eq_refl eq_refl eq_refl)
    as (Hl & Hv & Hw).
  assert (Hout : out = out').
  { unfold sample_fraction in Hrun, Hrun'. rewrite Hrange in Hrun, Hrun'.
    cbn [guard bind] in Hrun, Hrun'. cbv zeta in Hrun, Hrun'.
    injection Hrun as <- _ _ _. injection Hrun' as <- _ _ _. exact Hl. }
  subst out'.
  assert (Hvalid : valid_lines false (valid_lines true input)
                   = valid_lines true input).
  { unfold valid_lines at 1.
    generalize (valid_lines true input) as l.
    induction l as [| x t IHt]; [reflexivity |].
    cbn [filter andb negb] in *. rewrite IHt. reflexivity. }
  rewrite Hvalid in Hrun'.
  exists out, (Z.of_nat (length (valid_lines true input))).
  split; [exact Hrun | exact Hrun'].
Qed.

End FractionProofs.

Section Prefiltered.

Context {ENV : SamplerEnv}.

Lemma Forall2_set_nth {A B} (R : A -> B -> Prop) (l : list A) (l' : list B)
    (i : nat) (x : A) (y : B) :
  Forall2 R l l' -> R x y -> Forall2 R (set_nth l i x) (set_nth l' i y).
Proof.
  intros H. revert i. induction H as [| a b l l' Hab H IH]; intros i Hxy.
  - destruct i; constructor.
  - destruct i; cbn [set_nth]; constructor; auto.
Qed.

Lemma list_assign_related (R : nat * string -> nat * string -> Prop)
    (l l' : list (nat * string)) (i : Z) (x y : nat * string) :
  Forall2 R l l' -> R x y ->
  match list_assign l i x, list_assign l' i y with
  | Ok r, Ok r' => Forall2 R r r'
  | Err e, Err e' => e = e'
  | _, _ => False
  end.
Proof.
  intros Hl Hxy. unfold list_assign.
  rewrite <- (Forall2_length Hl).
  destruct ((0 <=? i)%Z && (i <? Z.of_nat (length l))%Z).
  - apply Forall2_set_nth; assumption.
  - destruct ((- Z.of_nat (length l) <=? i)%Z && (i <? 0)%Z).
    + apply Forall2_set_nth; assumption.
    + reflexivity.
Qed.

Lemma sample_loop_prefiltered (R : nat * string -> nat * string -> Prop)
    (sample_size : Z) (items : list (nat * string)) :
  forall (items' : list (nat * string)) (st st' : sampler),
    Forall2 R (valid_items true items) items' ->
    same_sample R st st' ->
    match sample_loop sample_size true items st,
          sample_loop sample_size false items' st' with
    | Ok r, Ok r' => same_sample R r r'
    | Err e, Err e' => e = e'
    | _, _ => False
    end.
Proof.
  induction items as [| [pos raw] rest IH];
    intros items' st st' Hitems (Hres & Hval & Hgen).
  - cbn [valid_items filter] in Hitems. inversion Hitems; subst.
    cbn [sample_loop]. split; [exact Hres | auto].
  - cbn [valid_items filter snd] in Hitems.
    fold (valid_items true rest) in Hitems.
    cbn [sample_loop sample_step].
    destruct (validate_jsonl_line raw) eqn:Hvalid; cbn [andb negb] in *.
    + inversion Hitems as [| a [pos' raw'] l l' Hab Hrest]; subst.
      cbn [sample_loop sample_step andb].
      rewrite <- (Forall2_length Hres), <- Hval, <- Hgen.
      destruct (Z.of_nat (length (reservoir st)) <? sample_size)%Z.
      * cbn [bind]. apply IH; [exact Hrest |].
        split; [| auto]. cbn [reservoir].
        apply Forall2_app; [exact Hres | constructor; [exact Hab | constructor]].
      * destruct (random_randint 1 (valid_seen st + 1) (generator st))
          as [j g].
        destruct (j <=? sample_size)%Z.
        -- pose proof (list_assign_related R (reservoir st) (reservoir st')
                         (j - 1) (pos, raw) (pos', raw') Hres Hab) as Hassign.
           destruct (list_assign (reservoir st) (j - 1) (pos, raw)) as [r | e];
             destruct (list_assign (reservoir st') (j - 1) (pos', raw'))
               as [r' | e']; try contradiction; cbn [bind].
           ++ apply IH; [exact Hrest |]. split; [exact Hassign | auto].
           ++ exact Hassign.
        -- cbn [bind]. apply IH; [exact Hrest |]. split; [exact Hres | auto].
    + cbn [bind]. apply IH; [exact Hitems |]. split; [exact Hres | auto].
Qed.

Lemma in_sort_by_pos (z : nat * string) (l : list (nat * string)) :
  In z (sort_by_pos l) <-> In z l.
Proof.
  induction l as [| x t IH]; [reflexivity |].
  cbn [sort_by_pos fold_right]. fold (sort_by_pos t).
  rewrite in_insert_by_pos, IH. cbn [In]. split; intros [H | H]; auto.
Qed.

Lemma insert_by_pos_related (R : nat * string -> nat * string -> Prop)
    (x y : nat * string) (l l' : list (nat * string)) :
  (forall a b, In a l -> R a b -> (fst x <=? fst a) = (fst y <=? fst b)) ->
  R x y -> Forall2 R l l' ->
  Forall2 R (insert_by_pos x l) (insert_by_pos y l').
Proof.
  intros Hord Hxy H. induction H as [| a b l l' Hab H IH].
  - cbn. constructor; [exact Hxy | constructor].
  - cbn [insert_by_pos].
    rewrite <- (Hord a b (or_introl eq_refl) Hab).
    destruct (fst x <=? fst a).
    + constructor; [exact Hxy |]. constructor; assumption.
    + constructor; [exact Hab |]. apply IH.
      intros a0 b0 Hin. apply Hord. right. exact Hin.
Qed.

Lemma sort_by_pos_related (R : nat * string -> nat * string -> Prop)
    (l l' : list (nat * string)) :
  (forall a b a0 b0, R a b -> R a0 b0 ->
     (fst a <=? fst a0) = (fst b <=? fst b0)) ->
  Forall2 R l l' -> Forall2 R (sort_by_pos l) (sort_by_pos l').
Proof.
  intros Hord H. induction H as [| a b l l' Hab H IH]; [constructor |].
  cbn [sort_by_pos fold_right]. fold (sort_by_pos l) (sort_by_pos l').
  apply insert_by_pos_related; [| exact Hab | exact IH].
  intros a0 b0 _ Hab0. apply Hord; assumption.
Qed.

Lemma combine_increasing_compat (a b : list nat) :
  StronglySorted lt a -> StronglySorted lt b ->
  forall p p' q q',
    In (p, p') (combine a b) -> In (q, q') (combine a b) ->
    (p <=? q) = (p' <=? q').
Proof.
  intros Ha. revert b. induction Ha as [| x a Ha IH Hx]; intros b Hb.
  - intros p p' q q' [].
  - destruct b as [| y b]; [intros p p' q q' [] |].
    inversion Hb as [| ? ? Hb' Hy]; subst.
    rewrite Forall_forall in Hx, Hy.
    intros p p' q q' [Hp | Hp] [Hq | Hq].
    + injection Hp as <- <-. injection Hq as <- <-.
      rewrite !Nat.leb_refl. reflexivity.
    + injection Hp as <- <-.
      pose proof (Hx _ (in_combine_l _ _ _ _ Hq)).
      pose proof (Hy _ (in_combine_r _ _ _ _ Hq)).
      destruct (Nat.leb_spec x q); destruct (Nat.leb_spec y q'); lia.
    + injection Hq as <- <-.
      pose proof (Hx _ (in_combine_l _ _ _ _ Hp)).
      pose proof (Hy _ (in_combine_r _ _ _ _ Hp)).
      destruct (Nat.leb_spec p x); destruct (Nat.leb_spec p' y); lia.
    + apply (IH b Hb'); assumption.
Qed.

Lemma increasing_map_fst (l : list (nat * string)) :
  increasing l -> StronglySorted lt (map fst l).
Proof.
  unfold increasing. induction 1 as [| x l Hl IH Hx]; cbn [map];
    constructor; [exact IH |].
  rewrite Forall_forall in *. intros p Hp. apply in_map_iff in Hp.
  destruct Hp as (z & <- & Hz). apply Hx. exact Hz.
Qed.

Lemma Forall2_combine_fst (l l' : list (nat * string)) :
  map snd l = map snd l' ->
  Forall2 (fun a b =>
             snd a = snd b
             /\ In (fst a, fst b) (combine (map fst l) (map fst l'))) l l'.
Proof.
  revert l'. induction l as [| x t IH]; intros [| y t'] H;
    try discriminate; [constructor |].
  cbn [map] in H. injection H as Hxy Ht.
  cbn [map combine]. constructor.
  - split; [exact Hxy | left; reflexivity].
  - eapply Forall2_impl; [| apply IH; exact Ht].
    intros a b [Hs Hin]. split; [exact Hs | right; exact Hin].
Qed.

Lemma Forall2_map_snd (R : nat * string -> nat * string -> Prop)
    (l l' : list (nat * string)) :
  (forall a b, R a b -> snd a = snd b) ->
  Forall2 R l l' -> map snd l = map snd l'.
Proof.
  intros HR H. induction H as [| a b l l' Hab H IH]; [reflexivity |].
  cbn [map]. rewrite (HR a b Hab), IH. reflexivity.
Qed.

(** [random.randint(a, b)] returns an integer between [a] and [b]. *)
Hypothesis randint_in_range :
  forall a b g, (a <= b)%Z ->
    (a <= fst (random_randint a b g) <= b)%Z.

(** The run of the fixed-size sampler, with its counters. *)
Lemma sample_fixed_size_run (input : list string) (sample_size seed : Z)
    (validate : bool) :
  exists st,
    sample_loop sample_size validate (iter_lines input)
      (mkSampler [] 0 0 (random_seed seed)) = Ok st
    /\ total_seen st = Z.of_nat (length input)
    /\ valid_seen st = Z.of_nat (length (valid_lines validate input))
    /\ length (reservoir st)
       = Nat.min (Z.to_nat sample_size)
                 (length (valid_lines validate input))
    /\ length (sort_by_pos (reservoir st)) = length (reservoir st).
Proof.
  assert (Hinit : sampler_invariant sample_size validate []
                    (mkSampler [] 0 0 (random_seed seed))).
  { unfold sampler_invariant. cbn [total_seen valid_seen reservoir length
                                    valid_items filter map].
    split; [reflexivity |]. split; [reflexivity |].
    split; [rewrite Nat.min_0_r; reflexivity |].
    split; [intros x [] | constructor]. }
  pose proof (increasing_combine_seq input 1) as Hinc.
  fold (iter_lines input) in Hinc.
  destruct (sample_loop_invariant randint_in_range sample_size validate
              (iter_lines input) [] _ Hinit Hinc)
    as (st & Hloop & Htot & Hval & Hlen & Hincl & Hnd).
  cbn [app] in Htot, Hval, Hlen, Hincl.
  destruct (sort_by_pos_spec (reservoir st) Hnd) as (_ & Hslen & _).
  rewrite length_valid_items in Hval, Hlen.
  exists st. split; [exact Hloop |]. split; [| auto].
  rewrite Htot. unfold iter_lines. rewrite length_combine, length_seq.
  rewrite Nat.min_id. reflexivity.
Qed.

(** X24. Invalid lines do not disturb the fixed-size sample: with
    validation the lines written and the count of valid lines are those
    of a run without validation on the valid lines alone. *)
Theorem sample_fixed_size_skips_invalid_lines (input : list string)
    (sample_size seed : Z) :
  exists out,
    sample_fixed_size input sample_size seed true
    = Ok (out, (Z.of_nat (length input),
                Z.of_nat (length (valid_lines true input))))
    /\ sample_fixed_size (valid_lines true input) sample_size seed false
       = Ok (out, (Z.of_nat (length (valid_lines true input)),
                   Z.of_nat (length (valid_lines true input)))).
Proof.
  destruct (sample_fixed_size_run input sample_size seed true)
    as (st & Hloop & Htot & Hval & _).
  destruct (sample_fixed_size_run (valid_lines true input) sample_size seed
              false) as (st' & Hloop' & Htot' & Hval' & _).
  set (VI := valid_items true (iter_lines input)).
  set (items' := iter_lines (valid_lines true input)).
  set (R := fun a b : nat * string =>
              snd a = snd b
              /\ In (fst a, fst b) (combine (map fst VI) (map fst items'))).
  assert (Hitems : Forall2 R VI items').
  { apply Forall2_combine_fst. unfold VI, items', iter_lines.
    rewrite valid_items_lines, map_snd_combine_seq. reflexivity. }
  assert (Hord : forall a b a0 b0, R a b -> R a0 b0 ->
            (fst a <=? fst a0) = (fst b <=? fst b0)).
  { intros a b a0 b0 [_ H1] [_ H2].
    apply (combine_increasing_compat (map fst VI) (map fst items'));
      try assumption; apply increasing_map_fst.
    - apply increasing_filter. apply increasing_combine_seq.
    - apply increasing_combine_seq. }
  pose proof (sample_loop_prefiltered R sample_size (iter_lines input)
                items' (mkSampler [] 0 0 (random_seed seed))
                (mkSampler [] 0 0 (random_seed seed)) Hitems) as Hrel.
  fold items' in Hloop'. rewrite Hloop, Hloop' in Hrel.
  destruct Hrel as (Hres & Hv & _).
  { split; [constructor | auto]. }
  exists (map snd (sort_by_pos (reservoir st))).
  unfold sample_fixed_size. fold items'. rewrite Hloop, Hloop'.
  cbn [bind]. rewrite Htot, Hval, Htot', Hval'.
  split; [reflexivity |].
  rewrite (Forall2_map_snd R _ _ (fun a b H => proj1 H)
             (sort_by_pos_related R _ _ Hord Hres)).
  assert (Hvalid : valid_lines false (valid_lines true input)
                   = valid_lines true input).
  { unfold valid_lines at 1.
    generalize (valid_lines true input) as l.
    induction l as [| x t IHt]; [reflexivity |].
    cbn [filter andb negb] in *. rewrite IHt. reflexivity. }
  rewrite Hvalid. reflexivity.
Qed.

(** X25. main in fixed-size mode reports min(size, valid) lines as
    written while min(max(size, 0), valid) are: the report is right
    exactly when size is not negative.  In fraction mode it reports the
    number of lines written, or raises AssertionError for a fraction
    outside (0, 1]. *)
Theorem main_reports_what_it_wrote (RF : RandomFloat ENV)
    (args : Namespace) (input : list string) :
  match args_size args, args_fraction args with
  | Some size, _ =>
      exists out valid,
        main args input
        = Ok (out, FixedReport size (Z.min size valid) valid
                     (Z.of_nat (length input)))
        /\ valid = Z.of_nat (length (valid_lines (args_validate args) input))
        /\ Z.of_nat (length out) = Z.min (Z.max size 0) valid
        /\ (Z.min size valid = Z.of_nat (length out) <-> (0 <= size)%Z)
  | None, Some fraction =>
      if fraction_in_range fraction then
        exists out,
          main args input
          = Ok (out, FractionReport fraction (Z.of_nat (length out))
                       (Z.of_nat (length (valid_lines (args_validate args)
                                            input)))
                       (Z.of_nat (length input)))
      else main args input = Err AssertionError
  | None, None => main args input = Err TypeError
  end.
Proof.
  unfold main. destruct (args_size args) as [size |].
  - destruct (sample_fixed_size_run input size (args_seed args)
                (args_validate args))
      as (st & Hloop & Htot & Hval & Hlen & Hslen).
    exists (map snd (sort_by_pos (reservoir st))), (valid_seen st).
    unfold sample_fixed_size. rewrite Hloop.
    cbn [bind]. rewrite Htot.
    split; [reflexivity |]. split; [exact Hval |].
    rewrite length_map, Hslen, Hlen, Hval. split; lia.
  - destruct (args_fraction args) as [fraction |]; [| reflexivity].
    pose proof (sample_fraction_run input fraction (args_seed args)
                  (args_validate args)) as Hrun.
    destruct (fraction_in_range fraction).
    + destruct Hrun as (out & -> & _). exists out. reflexivity.
    + rewrite Hrun. reflexivity.
Qed.

End Prefiltered.

(** ** The statements on the toy model and the toy sampler *)

Section Witnesses.

Local Existing Instance R_scalar.
Local Existing Instance toy_collaborators.

Lemma rotary_scores_invariant_under_position_shift_witness :
  shape4 toy_heads = (1, 1, 1, 2 * len1 (inv_freq (rotary_emb toy_attention)))
  /\ cols2 toy_positions = 1
  /\ broadcasts_to (rows2 toy_positions) 1
  /\ exists s s',
       rotary_scores (rotary_emb toy_attention) toy_positions toy_heads
         toy_heads = Ok s
       /\ rotary_scores (rotary_emb toy_attention)
            (add_offset toy_positions 3) toy_heads toy_heads = Ok s'
       /\ teq4 s s'.
Proof.
  assert (H1 : shape4 toy_heads
               = (1, 1, 1, 2 * len1 (inv_freq (rotary_emb toy_attention))))
    by reflexivity.
  assert (H2 : broadcasts_to (rows2 toy_positions) 1) by (left; reflexivity).
  split; [exact H1 |]. split; [reflexivity |]. split; [exact H2 |].
  exact (rotary_scores_invariant_under_position_shift
           (rotary_emb toy_attention) toy_positions 3 toy_heads toy_heads
           1 1 1 H1 H1 eq_refl H2).
Defined.

Lemma rotary_scales_dot_products_at_one_position_witness :
  shape4 toy_heads = (1, 1, 1, 2 * len1 (inv_freq (rotary_emb toy_attention)))
  /\ cols2 toy_positions = 1
  /\ broadcasts_to (rows2 toy_positions) 1
  /\ exists cos sin q' k',
       Qwen3RotaryEmbedding_forward (rotary_emb toy_attention) toy_positions
         = Ok (cos, sin)
       /\ apply_rotary_pos_emb toy_heads toy_heads cos sin = Ok (q', k').
Proof.
  assert (H1 : shape4 toy_heads
               = (1, 1, 1, 2 * len1 (inv_freq (rotary_emb toy_attention))))
    by reflexivity.
  assert (H2 : broadcasts_to (rows2 toy_positions) 1) by (left; reflexivity).
  split; [exact H1 |]. split; [reflexivity |]. split; [exact H2 |].
  destruct (rotary_scales_dot_products_at_one_position
              (rotary_emb toy_attention) toy_positions toy_heads toy_heads
              1 1 1 H1 H1 eq_refl H2) as (cos & sin & q' & k' & Hf & Hr & _).
  exists cos, sin, q', k'. split; assumption.
Defined.

Lemma rms_norm_mean_square_below_one_witness :
  (0 < 1 / 1000000)%R
  /\ 0 < 2
  /\ dim3_2 toy_embeds = 2
  /\ exists y,
       Qwen3RMSNorm_forward3 (Qwen3RMSNorm_init 2 (1 / 1000000)%R) toy_embeds
         = Ok y
       /\ shape3 y = shape3 toy_embeds.
Proof.
  assert (H1 : (0 < 1 / 1000000)%R) by lra.
  assert (H2 : 0 < 2) by lia.
  split; [exact H1 |]. split; [exact H2 |]. split; [reflexivity |].
  destruct (rms_norm_mean_square_below_one 2 (1 / 1000000)%R toy_embeds
              H1 H2 eq_refl) as (y & Hy & Hs & _).
  exists y. split; assumption.
Defined.

Lemma toy_mlp_entrywise : entrywise (act_fn toy_mlp).
Proof.
  exists (F_silu (Collaborators := toy_collaborators)). intros t.
  eexists. split; [reflexivity |]. split; reflexivity.
Qed.

Lemma rotary_tables_cover_head_dim_twice_witness :
  static_rope (rotary_emb toy_attention) = true
  /\ exists cos sin,
       Qwen3RotaryEmbedding_forward (rotary_emb toy_attention) toy_positions
       = Ok (cos, sin)
       /\ shape3 cos = (1, 1, 2).
Proof.
  split; [reflexivity |].
  destruct (rotary_tables_cover_head_dim_twice (rotary_emb toy_attention)
              toy_positions eq_refl) as (cos & sin & Hrun & Hs & _).
  exists cos, sin. split; [exact Hrun | exact Hs].
Defined.

Lemma forward_appends_step_to_cache_witness :
  attention_well_shaped toy_attention
  /\ static_rope (rotary_emb toy_attention) = true
  /\ shape3 toy_step = (1, 1, in_features (q_proj toy_attention))
  /\ nth_error (caches fresh_world) 0 = Some ([], [])
  /\ exists out w' k v,
       Qwen3Attention_forward toy_attention toy_step (Some 0)
         (Some toy_step_mask) (Some toy_positions) fresh_world
       = (Ok out, w')
       /\ nth_error (caches w') 0 = Some ([k], [v]).
Proof.
  assert (H2 : shape3 toy_step = (1, 1, in_features (q_proj toy_attention)))
    by reflexivity.
  assert (H3 : nth_error (caches fresh_world) 0 = Some ([], []))
    by reflexivity.
  split; [exact toy_attention_well_shaped |]. split; [reflexivity |].
  split; [exact H2 |]. split; [exact H3 |].
  destruct (forward_appends_step_to_cache toy_attention toy_step 1 1 0
              (Some toy_step_mask) toy_positions fresh_world [] []
              toy_attention_well_shaped eq_refl H2 eq_refl
              (or_introl eq_refl) H3)
    as (r & w' & q0 & k0 & v0 & q & k & Hrun & _ & _ & Hcache & _ & _ & _
        & Hret & _).
  destruct (Hret toy_step_mask eq_refl eq_refl eq_refl (or_introl eq_refl)
              (or_introl eq_refl) (or_introl eq_refl) (or_introl eq_refl))
    as (out & Hout).
  rewrite Hout in Hrun.
  exists out, w'. eexists _, _. split; [exact Hrun | exact Hcache].
Defined.

Lemma mlp_keeps_hidden_width_witness :
  Qwen3MLP_init toy_config (fun _ _ => 1%R) (fun _ _ => 1%R)
    (fun _ _ => 1%R) = Ok toy_mlp
  /\ entrywise (act_fn toy_mlp)
  /\ dim3_2 toy_embeds = hidden_size toy_config
  /\ exists y,
       Qwen3MLP_forward toy_mlp toy_embeds = Ok y
       /\ shape3 y = shape3 toy_embeds.
Proof.
  split; [reflexivity |]. split; [exact toy_mlp_entrywise |].
  split; [reflexivity |].
  assert (Hinit : Qwen3MLP_init toy_config (fun _ _ => 1%R)
                     (fun _ _ => 1%R) (fun _ _ => 1%R) = Ok toy_mlp)
    by reflexivity.
  destruct (mlp_keeps_hidden_width toy_config (fun _ _ => 1%R)
              (fun _ _ => 1%R) (fun _ _ => 1%R) toy_mlp toy_embeds Hinit)
    as (Hok & _).
  exact (Hok toy_mlp_entrywise eq_refl).
Defined.

Lemma mlp_is_position_wise_witness :
  Qwen3MLP_init toy_config (fun _ _ => 1%R) (fun _ _ => 1%R)
    (fun _ _ => 1%R) = Ok toy_mlp
  /\ entrywise (act_fn toy_mlp)
  /\ dim3_2 toy_two_embeds = hidden_size toy_config
  /\ 1 < dim3_1 toy_two_embeds
  /\ exists y yi,
       Qwen3MLP_forward toy_mlp toy_two_embeds = Ok y
       /\ Qwen3MLP_forward toy_mlp (token toy_two_embeds 1) = Ok yi
       /\ teq3 yi (token y 1).
Proof.
  assert (Hinit : Qwen3MLP_init toy_config (fun _ _ => 1%R)
                     (fun _ _ => 1%R) (fun _ _ => 1%R) = Ok toy_mlp)
    by reflexivity.
  assert (H1 : 1 < dim3_1 toy_two_embeds) by (simpl; lia).
  split; [exact Hinit |]. split; [exact toy_mlp_entrywise |].
  split; [reflexivity |]. split; [exact H1 |].
  exact (mlp_is_position_wise toy_config (fun _ _ => 1%R) (fun _ _ => 1%R)
           (fun _ _ => 1%R) toy_mlp toy_two_embeds 1 Hinit toy_mlp_entrywise
           eq_refl H1).
Defined.

Lemma attention_init_sizes_fit_witness :
  Qwen3Attention_init toy_config (init_attn (init_layer toy_init))
    = Ok toy_attention
  /\ num_attention_heads toy_config mod num_key_value_heads toy_config = 0
  /\ head_dim toy_attention
     = 2 * len1 (inv_freq (rotary_emb toy_attention))
  /\ attention_well_shaped toy_attention.
Proof.
  split; [reflexivity |]. split; [reflexivity |]. split; [reflexivity |].
  assert (Hinit : Qwen3Attention_init toy_config
                     (init_attn (init_layer toy_init)) = Ok toy_attention)
    by reflexivity.
  destruct (attention_init_sizes_fit toy_config
              (init_attn (init_layer toy_init)) toy_attention Hinit)
    as (_ & _ & _ & _ & _ & _ & _ & _ & _ & Hws).
  exact (Hws eq_refl eq_refl).
Defined.

Lemma flex_attention_needs_a_paged_cache_witness :
  self_attn toy_flex_layer = BlockSparseAttention toy_attention
  /\ (exists e,
        Qwen3FlexAttention_forward toy_attention toy_step (Some toy_padding)
          (Some toy_positions) None empty_world = (Err e, empty_world))
  /\ (exists e,
        Qwen3DecoderLayer_forward toy_flex_layer toy_embeds toy_step None
          (Some toy_padding) (Some toy_positions) None empty_world
        = (Err e, empty_world)).
Proof.
  split; [reflexivity |].
  exact (flex_attention_needs_a_paged_cache toy_flex_layer toy_attention
           toy_embeds toy_step None (Some toy_padding) (Some toy_positions)
           empty_world eq_refl).
Defined.

Lemma forward_with_flex_backend_always_raises_witness :
  Qwen3ForCausalLMEagle3_init toy_config "flex_attention" toy_init
    = Ok toy_flex_model
  /\ exists e h',
       Qwen3ForCausalLMEagle3_forward toy_flex_model toy_wide_input
         toy_embeds None 1 empty_world = (Err e, h').
Proof.
  split; [reflexivity |].
  assert (Hinit : Qwen3ForCausalLMEagle3_init toy_config "flex_attention"
                     toy_init = Ok toy_flex_model) by reflexivity.
  destruct (forward_with_flex_backend_always_raises toy_config toy_init
              toy_flex_model toy_wide_input toy_embeds None 1 empty_world
              Hinit) as (e & h' & Hrun & _).
  exists e, h'. exact Hrun.
Defined.





Lemma decoder_layer_keeps_hidden_shape_witness :
  Qwen3DecoderLayer_init toy_config "sdpa" (init_layer toy_init)
    = Ok toy_sdpa_layer
  /\ self_attn toy_sdpa_layer = StandardAttention toy_attention
  /\ static_rope (rotary_emb toy_attention) = true
  /\ entrywise (act_fn (mlp toy_sdpa_layer))
  /\ shape3 toy_embeds = (1, 1, hidden_size toy_config)
  /\ exists out,
       Qwen3DecoderLayer_forward toy_sdpa_layer toy_embeds toy_embeds None
         (Some (AdditiveMask toy_mask1)) (Some toy_positions) None empty_world
       = (Ok out, empty_world)
       /\ shape3 out = (1, 1, hidden_size toy_config).
Proof.
  assert (Hinit : Qwen3DecoderLayer_init toy_config "sdpa"
                     (init_layer toy_init) = Ok toy_sdpa_layer)
    by reflexivity.
  split; [exact Hinit |]. split; [reflexivity |]. split; [reflexivity |].
  split; [exact toy_mlp_entrywise |]. split; [reflexivity |].
  exact (decoder_layer_keeps_hidden_shape toy_config (init_layer toy_init)
           toy_sdpa_layer toy_attention toy_embeds toy_embeds 1 1 toy_mask1
           toy_positions empty_world Hinit eq_refl eq_refl toy_mlp_entrywise
           eq_refl eq_refl eq_refl
           eq_refl eq_refl (or_introl eq_refl) (or_introl eq_refl)
           (or_introl eq_refl) (or_introl eq_refl) (or_introl eq_refl)).
Defined.

Lemma forward_returns_hidden_shape_witness :
  Qwen3ForCausalLMEagle3_init toy_config "sdpa" toy_init = Ok toy_sdpa_model
  /\ static_rope (rotary_emb toy_attention) = true
  /\ entrywise (act_fn (mlp (midlayer toy_sdpa_model)))
  /\ shape3 toy_wide_input = (1, 1, in_features (fc toy_sdpa_model))
  /\ shape3 toy_embeds = (1, 1, hidden_size toy_config)
  /\ prepare_decoder_attention_mask (mkT2 1 1 (fun _ _ => true))
       toy_wide_input 1 1 0 = Ok (AdditiveMask toy_mask1)
  /\ exists out h',
       Qwen3ForCausalLMEagle3_forward toy_sdpa_model toy_wide_input
         toy_embeds None 2 empty_world = (Ok out, h')
       /\ shape3 out = (1, 1, hidden_size toy_config).
Proof.
  assert (Hinit : Qwen3ForCausalLMEagle3_init toy_config "sdpa" toy_init
                   = Ok toy_sdpa_model) by reflexivity.
  assert (Hmask : prepare_decoder_attention_mask (mkT2 1 1 (fun _ _ => true))
                    toy_wide_input 1 1 0 = Ok (AdditiveMask toy_mask1))
    by reflexivity.
  split; [exact Hinit |]. split; [reflexivity |].
  split; [exact toy_mlp_entrywise |].
  split; [reflexivity |]. split; [reflexivity |].
  split; [exact Hmask |].
  destruct (forward_returns_hidden_shape toy_config toy_init toy_sdpa_model
              toy_attention toy_wide_input toy_embeds None 2 1 1 toy_mask1
              empty_world Hinit eq_refl eq_refl toy_mlp_entrywise
              eq_refl eq_refl eq_refl eq_refl
              ltac:(discriminate) Hmask (or_introl eq_refl)
              (or_introl eq_refl) (or_introl eq_refl) (or_introl eq_refl))
    as (out & h' & Hrun & Hs & _).
  exists out, h'. split; assumption.
Defined.

Lemma backbone_fills_an_empty_cache_witness :
  Qwen3ForCausalLMEagle3_init toy_config "sdpa" toy_init = Ok toy_sdpa_model
  /\ static_rope (rotary_emb toy_attention) = true
  /\ entrywise (act_fn (mlp (midlayer toy_sdpa_model)))
  /\ shape3 toy_embeds = (1, 1, hidden_size toy_config)
  /\ nth_error (caches fresh_world) 0 = Some ([], [])
  /\ exists out k v,
       backbone toy_sdpa_model toy_embeds toy_embeds (Some 0)
         (Some (AdditiveMask toy_mask1)) (Some toy_positions) None fresh_world
       = (Ok out, mkWorld (set_nth (caches fresh_world) 0 ([k], [v]))
                          (paged fresh_world))
       /\ shape3 out = (1, 1, hidden_size toy_config).
Proof.
  assert (Hinit : Qwen3ForCausalLMEagle3_init toy_config "sdpa" toy_init
                   = Ok toy_sdpa_model) by reflexivity.
  assert (Hl : nth_error (caches fresh_world) 0 = Some ([], []))
    by reflexivity.
  split; [exact Hinit |]. split; [reflexivity |].
  split; [exact toy_mlp_entrywise |].
  split; [reflexivity |]. split; [exact Hl |].
  destruct (backbone_fills_an_empty_cache toy_config toy_init toy_sdpa_model
              toy_attention toy_embeds toy_embeds 1 1 toy_mask1 toy_positions
              0 fresh_world Hinit eq_refl eq_refl toy_mlp_entrywise
              eq_refl eq_refl eq_refl eq_refl
              eq_refl (or_introl eq_refl) (or_introl eq_refl)
              (or_introl eq_refl) (or_introl eq_refl) (or_introl eq_refl) Hl)
    as (out & k & v & Hrun & Hs & _).
  exists out, k, v. split; assumption.
Defined.

Lemma compute_logits_shape_witness :
  Qwen3ForCausalLMEagle3_init toy_config "sdpa" toy_init = Ok toy_sdpa_model
  /\ dim3_2 toy_embeds = hidden_size toy_config
  /\ exists y,
       compute_logits toy_sdpa_model toy_embeds = Ok y
       /\ shape3 y = (1, 1, draft_vocab_size toy_config).
Proof.
  assert (Hinit : Qwen3ForCausalLMEagle3_init toy_config "sdpa" toy_init
                   = Ok toy_sdpa_model) by reflexivity.
  split; [exact Hinit |]. split; [reflexivity |].
  destruct (compute_logits_shape toy_config "sdpa" toy_init toy_sdpa_model
              toy_embeds Hinit) as (Hok & _).
  exact (Hok (or_introl eq_refl)).
Defined.

End Witnesses.

Lemma sample_fixed_size_keeps_all_when_they_fit_witness :
  (Z.of_nat (length (valid_lines (ENV := lcg_env) false ten_lines)) <= 12)%Z
  /\ sample_fixed_size (ENV := lcg_env) ten_lines 12 42 false
     = Ok (valid_lines (ENV := lcg_env) false ten_lines, (10%Z, 10%Z)).
Proof.
  assert (H : (Z.of_nat (length (valid_lines (ENV := lcg_env) false
                                   ten_lines)) <= 12)%Z)
    by (vm_compute; discriminate).
  split; [exact H |].
  exact (sample_fixed_size_keeps_all_when_they_fit (ENV := lcg_env)
           ten_lines 12 42 false H).
Defined.

Lemma lcg_random_below_one (g : Z) :
  PrimFloat.ltb (fst (random_random (RandomFloat := lcg_floats) g))
                PrimFloat.one = true.
Proof.
  cbn [random_random lcg_floats]. unfold lcg_random. cbn [fst].
  destruct (Z.even g); reflexivity.
Qed.

Lemma sample_fraction_one_keeps_every_valid_line_witness :
  (forall g,
     PrimFloat.ltb (fst (random_random (RandomFloat := lcg_floats) g))
                   PrimFloat.one = true)
  /\ sample_fraction (RF := lcg_floats) mixed_lines PrimFloat.one 42 true
     = Ok (["{0}"; "{2}"]%string, (3%Z, 2%Z, 2%Z)).
Proof.
  split; [exact lcg_random_below_one |].
  exact (sample_fraction_one_keeps_every_valid_line (RF := lcg_floats)
           mixed_lines 42 true lcg_random_below_one).
Defined.

Lemma sample_fixed_size_skips_invalid_lines_witness :
  (forall a b g, (a <= b)%Z ->
     (a <= fst (random_randint (SamplerEnv := lcg_env) a b g) <= b)%Z)
  /\ exists out,
       sample_fixed_size (ENV := lcg_env) mixed_lines 1 42 true
       = Ok (out, (3%Z, 2%Z))
       /\ sample_fixed_size (ENV := lcg_env) ["{0}"; "{2}"]%string 1 42 false
          = Ok (out, (2%Z, 2%Z)).
Proof.
  split; [exact lcg_randint_in_range |].
  exact (sample_fixed_size_skips_invalid_lines (ENV := lcg_env)
           lcg_randint_in_range mixed_lines 1 42).
Defined.

Lemma main_reports_what_it_wrote_witness :
  (forall a b g, (a <= b)%Z ->
     (a <= fst (random_randint (SamplerEnv := lcg_env) a b g) <= b)%Z)
  /\ exists out valid,
       main (RF := lcg_floats) size_three ten_lines
       = Ok (out, FixedReport 3 (Z.min 3 valid) valid 10)
       /\ Z.of_nat (length out) = Z.min (Z.max 3 0) valid.
Proof.
  split; [exact lcg_randint_in_range |].
  destruct (main_reports_what_it_wrote (ENV := lcg_env) lcg_randint_in_range
              lcg_floats size_three ten_lines)
    as (out & valid & Hrun & _ & Hlen & _).
  exists out, valid. split; assumption.
Defined.


Section PositionIdsRequired.

Context {F : Type} {SF : Scalar F} {EX : Collaborators F}.

(** X26.  [position_ids] defaults to [None], but neither attention
    returns without it: [Qwen3Attention.forward], with a cache or
    without, and [Qwen3FlexAttention.forward], with a paged cache or
    without, raise whatever the other arguments are, and they raise
    before anything is appended, so the caches are as they were. *)
Theorem attention_needs_position_ids (self : Qwen3Attention F)
    (hidden_states : T3 F) (cache_hidden : option loc)
    (attention_mask : option (mask F)) (past_key_values : option loc)
    (w : world) :
  (exists e,
     Qwen3Attention_forward self hidden_states cache_hidden attention_mask
       None w = (Err e, w))
  /\ (exists e,
        Qwen3FlexAttention_forward self hidden_states attention_mask None
          past_key_values w = (Err e, w)).
Proof.
  split.
  - unfold Qwen3Attention_forward.
    destruct (project_heads self hidden_states) as [[[q0 k0] v0] | e];
      [| eexists; rewrite bindM_lift_err; reflexivity].
    rewrite bindM_lift_ok. destruct cache_hidden as [l |].
    + unfold attention_with_cache, read_cache.
      unfold bindM at 1. unfold bindM at 1.
      destruct (nth_error (caches w) l) as [[keys values] |];
        [| eexists; reflexivity].
      rewrite bindM_lift_err. eexists. reflexivity.
    + unfold attention_without_cache. cbn [bind].
      eexists. rewrite bindM_lift_err. reflexivity.
  - unfold Qwen3FlexAttention_forward, read_paged.
    destruct past_key_values as [p |].
    + unfold bindM at 1. unfold bindM at 1.
      destruct (nth_error (paged w) p) as [c |]; [| eexists; reflexivity].
      unfold retM.
      destruct (project_heads self hidden_states) as [[[q0 k0] v0] | e];
        [| eexists; rewrite bindM_lift_err; reflexivity].
      rewrite bindM_lift_ok.
      destruct (floordiv (get_seq_length c) (dim3_1 hidden_states))
        as [lck | e]; [| eexists; rewrite bindM_lift_err; reflexivity].
      rewrite bindM_lift_ok. eexists. rewrite bindM_lift_err. reflexivity.
    + unfold bindM at 1. unfold retM.
      destruct (project_heads self hidden_states) as [[[q0 k0] v0] | e];
        [| eexists; rewrite bindM_lift_err; reflexivity].
      rewrite bindM_lift_ok.
      destruct (floordiv 0 (dim3_1 hidden_states))
        as [lck | e]; [| eexists; rewrite bindM_lift_err; reflexivity].
      rewrite bindM_lift_ok. eexists. rewrite bindM_lift_err. reflexivity.
Qed.

(** X27.  [Qwen3ForCausalLMEagle3.forward] raises [RuntimeError] on a
    sequence of no position, since the view of the empty [arange] is
    ambiguous.  It raises after [cache_hidden] was chosen: nothing was
    allocated when [ttt_length] is 1, one empty cache otherwise. *)
Theorem forward_rejects_an_empty_sequence
    (self : Qwen3ForCausalLMEagle3 F) (hidden_states inputs_embeds : T3 F)
    (attention_mask : option (T2 bool)) (ttt_length : Z) (w : world) :
  dim3_1 hidden_states = 0 ->
  exists w',
    Qwen3ForCausalLMEagle3_forward self hidden_states inputs_embeds
      attention_mask ttt_length w = (Err RuntimeError, w')
    /\ (ttt_length = 1%Z -> w' = w)
    /\ (ttt_length <> 1%Z ->
        w' = mkWorld (caches w ++ [([], [])]) (paged w)).
Proof.
  intros Hempty. unfold Qwen3ForCausalLMEagle3_forward, make_cache_hidden.
  rewrite Hempty. cbn [Nat.eqb negb guard].
  destruct (Z.eqb_spec ttt_length 1) as [Httt | Httt].
  - exists w. rewrite (bindM_ok _ _ w w None) by reflexivity.
    rewrite bindM_lift_err.
    split; [reflexivity |]. split; [reflexivity | intros; contradiction].
  - eexists.
    rewrite (bindM_ok _ _ w (mkWorld (caches w ++ [([], [])]) (paged w))
               (Some (length (caches w)))) by reflexivity.
    rewrite bindM_lift_err.
    split; [reflexivity |]. split; [intros; contradiction | reflexivity].
Qed.

End PositionIdsRequired.

Section Streaming.

Context {ENV : SamplerEnv} {RF : RandomFloat ENV}.

Lemma iter_lines_app (l1 l2 : list string) :
  iter_lines (l1 ++ l2)
  = iter_lines l1 ++ combine (seq (1 + length l1) (length l2)) l2.
Proof.
  unfold iter_lines. rewrite length_app, seq_app.
  generalize 1 as a. induction l1 as [| x t IH]; intros a.
  - reflexivity.
  - cbn [length seq combine app].
    replace (a + S (length t)) with (S a + length t) by lia.
    rewrite IH. reflexivity.
Qed.

(** X28.  [sample_fraction] streams: what it wrote for a file is a
    prefix of what it writes, with the same fraction, seed and
    [validate], for that file with more lines appended.  The lines
    added to the output are valid lines of the appended part, in their
    order, and the count of written lines grows by their number. *)
Theorem sample_fraction_never_revises_its_output (input more : list string)
    (fraction : PrimFloat.float) (seed : Z) (validate : bool)
    (out : list string) (total valid wrote : Z) :
  sample_fraction input fraction seed validate
    = Ok (out, (total, valid, wrote)) ->
  exists rest total' valid',
    sample_fraction (input ++ more) fraction seed validate
    = Ok (out ++ rest, (total', valid', (wrote + Z.of_nat (length rest))%Z))
    /\ subseq rest (valid_lines validate more).
Proof.
  unfold sample_fraction. destruct (fraction_in_range fraction);
    [| discriminate].
  cbn [guard bind]. cbv zeta. intros Hrun. injection Hrun as <- _ _ <-.
  rewrite iter_lines_app, fold_left_app.
  destruct (fraction_loop_spec fraction validate
              (combine (seq (1 + length input) (length more)) more)
              (fold_left (fraction_step fraction validate) (iter_lines input)
                 (mkFraction [] 0 0 0 (random_seed seed))))
    as (_ & _ & kept & Hout & Hsub & Hw).
  rewrite valid_items_lines in Hsub.
  exists kept. eexists _, _. rewrite Hout, Hw.
  split; [reflexivity | exact Hsub].
Qed.

End Streaming.

Section Causality.

Context {F : Type} {SF : Scalar F} {EX : Collaborators F}.
Context {EXACT : ExactScalar F}.






End Causality.

Section ResidualBlock.

Local Existing Instance R_scalar.

Context {EX : Collaborators R}.

Lemma sumf_R_zero (n : nat) (f : nat -> R) :
  (forall c, c < n -> f c = 0%R) -> sumf n f = 0%R.
Proof.
  induction n as [| n IH]; intros Hf; simpl; [reflexivity |].
  rewrite IH by (intros c Hc; apply Hf; lia). rewrite (Hf n) by lia. ring.
Qed.

Lemma add3_same_shape (a b : T3 R) (B N D : nat) :
  shape3 a = (B, N, D) -> shape3 b = (B, N, D) ->
  exists c,
    bin3 fadd a b = Ok c
    /\ shape3 c = (B, N, D)
    /\ forall i j k, i < B -> j < N -> k < D ->
         at3 c i j k = (at3 a i j k + at3 b i j k)%R.
Proof.
  intros Ha Hb. destruct a as [a0 a1 a2 af]. destruct b as [b0 b1 b2 bf].
  unfold shape3 in Ha, Hb. cbn [dim3_0 dim3_1 dim3_2] in Ha, Hb.
  injection Ha as -> -> ->. injection Hb as -> -> ->.
  unfold bin3. cbn [dim3_0 dim3_1 dim3_2 at3]. rewrite !bdim_refl.
  cbn [bind]. eexists. split; [reflexivity |]. split; [reflexivity |].
  intros i j k Hi Hj Hk. cbn [at3].
  rewrite !(bidx_lt B i Hi), !(bidx_lt N j Hj), !(bidx_lt D k Hk).
  reflexivity.
Qed.

(** X30.  Over the reals [Qwen3DecoderLayer.forward] is a residual
    block around [hidden_states]: in a layer built by the constructor
    with a rope type whose frequencies stay as constructed and an
    activation that works entry by entry, whose [o_proj] and
    [down_proj] weights are all zero, the pass without cache returns
    [hidden_states] itself, entry by entry, whatever [input_emb] and
    the other weights are. *)
Theorem decoder_layer_is_a_residual_block (config : Qwen3Config R)
    (w : LayerInit R) (layer : Qwen3DecoderLayer R) (a : Qwen3Attention R)
    (input_emb hidden_states : T3 R) (B N : nat) (m : T4 (score R))
    (p : T2 Z) (h : world) :
  Qwen3DecoderLayer_init config "sdpa" w = Ok layer ->
  self_attn layer = StandardAttention a ->
  static_rope (rotary_emb a) = true ->
  entrywise (act_fn (mlp layer)) ->
  num_attention_heads config mod num_key_value_heads config = 0 ->
  head_dim a = 2 * len1 (inv_freq (rotary_emb a)) ->
  shape3 input_emb = (B, N, hidden_size config) ->
  shape3 hidden_states = (B, N, hidden_size config) ->
  cols2 p = N ->
  broadcasts_to (rows2 p) B ->
  broadcasts_to (dim4_0 m) B ->
  broadcasts_to (dim4_1 m) (num_attention_heads config) ->
  broadcasts_to (dim4_2 m) N ->
  broadcasts_to (dim4_3 m) N ->
  (forall o c, init_o (init_attn w) o c = 0%R) ->
  (forall o c, init_down w o c = 0%R) ->
  exists out,
    Qwen3DecoderLayer_forward layer input_emb hidden_states None
      (Some (AdditiveMask m)) (Some p) None h = (Ok out, h)
    /\ teq3 out hidden_states.
Proof.
  intros Hinit Hattn _ Hact Hmod Hrope He Hh Hcols Hrows
         Hm0 Hm1 Hm2 Hm3 Ho Hd.
  destruct (decoder_layer_init_inv config w layer Hinit)
    as (a' & mlp0 & Ha & Hmlp & Hlayer).
  subst layer. cbn [self_attn] in Hattn. injection Hattn as ->.
  cbn [mlp] in Hact. destruct Hact as (f & Hact).
  destruct (attention_init_well_shaped config (init_attn w) a Ha Hmod Hrope)
    as (Hws & Hin & Hout).
  destruct (attention_init_inv config (init_attn w) a Ha)
    as (_ & _ & r & _ & Hself). cbv zeta in Hself.
  assert (Hheads : num_heads a = num_attention_heads config)
    by (subst a; reflexivity).
  assert (Hwo : weight (o_proj a) = init_o (init_attn w))
    by (subst a; reflexivity).
  clear Hself.
  destruct (mlp_init_inv config _ _ _ mlp0 Hmlp) as (Hg & Hu & Hdn).
  destruct (decoder_layer_head config input_emb hidden_states B N He Hh)
    as (hs & emb & x & Hhs & Hemb & Hx & Hxs).
  rewrite <- Hin in Hxs. rewrite <- Hheads in Hm1.
  destruct (no_cache_pass_spec a x B N p m h Hws Hxs Hcols Hrows
              Hm0 Hm1 Hm2 Hm3)
    as (q0 & k0 & v0 & Q & K' & y & _ & _ & _ & _ & Hy & Hys & Hyv).
  rewrite Hout in Hys, Hyv.
  assert (Hy0 : forall b t o, b < B -> t < N -> o < hidden_size config ->
            at3 y b t o = 0%R).
  { intros b t o Hb Ht Hoo. rewrite (Hyv b t o Hb Ht Hoo).
    unfold projected_entry. apply sumf_R_zero. intros c _.
    rewrite Hwo, Ho. simpl. ring. }
  destruct (add3_same_shape hidden_states y B N (hidden_size config) Hh Hys)
    as (r1 & Hr1 & Hr1s & Hr1v).
  destruct (rms_norm3_same_width
              (Qwen3RMSNorm_init (hidden_size config) (rms_norm_eps config))
              r1) as (n1 & Hn1 & Hn1s & _).
  { cbn. unfold shape3 in Hr1s. congruence. }
  rewrite Hr1s in Hn1s.
  assert (En1 : dim3_0 n1 = B /\ dim3_1 n1 = N
                /\ dim3_2 n1 = hidden_size config).
  { unfold shape3 in Hn1s. injection Hn1s as -> -> ->. auto. }
  destruct En1 as (N0 & N1 & N2).
  destruct (mlp_forward_shape mlp0 f n1 Hact) as (m1 & Hm1r & Hm1s & Hm1v);
    rewrite ?Hg, ?Hu, ?Hdn; cbn [in_features out_features];
    try reflexivity; try exact N2.
  rewrite N0, N1, Hdn in Hm1s. cbn [out_features] in Hm1s.
  assert (Hm10 : forall b t o, b < B -> t < N -> at3 m1 b t o = 0%R).
  { intros b t o Hb Ht. rewrite Hm1v by (rewrite ?N0, ?N1; assumption).
    apply sumf_R_zero. intros c _. rewrite Hdn. cbn [weight].
    rewrite Hd. simpl. ring. }
  destruct (add3_same_shape r1 m1 B N (hidden_size config) Hr1s Hm1s)
    as (out & Hout' & Houts & Houtv).
  exists out. split.
  - unfold Qwen3DecoderLayer_forward.
    cbn [hidden_norm input_layernorm post_attention_layernorm self_attn
         mlp].
    rewrite Hhs, bindM_lift_ok, Hemb, bindM_lift_ok, Hx, bindM_lift_ok.
    cbn [self_attn_forward]. erewrite bindM_ok by exact Hy.
    rewrite Hr1, bindM_lift_ok. unfold liftM. rewrite Hn1. cbn [bind].
    rewrite Hm1r. cbn [bind]. rewrite Hout'. reflexivity.
  - split; [congruence |].
    assert (Eo : dim3_0 out = B /\ dim3_1 out = N
                 /\ dim3_2 out = hidden_size config).
    { unfold shape3 in Houts. injection Houts as -> -> ->. auto. }
    destruct Eo as (O0 & O1 & O2). rewrite O0, O1, O2.
    intros b t c Hb Ht Hc.
    rewrite (Houtv b t c Hb Ht Hc), (Hr1v b t c Hb Ht Hc),
            (Hy0 b t c Hb Ht Hc), (Hm10 b t c Hb Ht).
    ring.
Qed.

End ResidualBlock.

Section MoreWitnesses.

Local Existing Instance R_scalar.
Local Existing Instance toy_collaborators.


Lemma decoder_layer_is_a_residual_block_witness :
  Qwen3DecoderLayer_init toy_config "sdpa" toy_zero_out_init
    = Ok toy_zero_out_layer
  /\ self_attn toy_zero_out_layer = StandardAttention toy_zero_out_attention
  /\ static_rope (rotary_emb toy_zero_out_attention) = true
  /\ entrywise (act_fn (mlp toy_zero_out_layer))
  /\ shape3 toy_two_embeds = (1, 2, hidden_size toy_config)
  /\ (forall o c, init_o (init_attn toy_zero_out_init) o c = 0%R)
  /\ (forall o c, init_down toy_zero_out_init o c = 0%R)
  /\ exists out,
       Qwen3DecoderLayer_forward toy_zero_out_layer toy_two_embeds
         toy_two_embeds None (Some (AdditiveMask toy_mask2))
         (Some (arange_positions 0 2)) None empty_world
       = (Ok out, empty_world)
       /\ teq3 out toy_two_embeds.
Proof.
  assert (Hinit : Qwen3DecoderLayer_init toy_config "sdpa" toy_zero_out_init
                   = Ok toy_zero_out_layer) by reflexivity.
  assert (Ho : forall o c : nat,
             init_o (init_attn toy_zero_out_init) o c = 0%R)
    by (intros; reflexivity).
  assert (Hd : forall o c : nat, init_down toy_zero_out_init o c = 0%R)
    by (intros; reflexivity).
  split; [exact Hinit |]. split; [reflexivity |]. split; [reflexivity |].
  split; [exact toy_mlp_entrywise |]. split; [reflexivity |].
  split; [exact Ho |]. split; [exact Hd |].
  exact (decoder_layer_is_a_residual_block toy_config toy_zero_out_init
           toy_zero_out_layer toy_zero_out_attention toy_two_embeds
           toy_two_embeds 1 2 toy_mask2 (arange_positions 0 2) empty_world
           Hinit eq_refl eq_refl toy_mlp_entrywise
           eq_refl eq_refl eq_refl eq_refl eq_refl
           (or_introl eq_refl) (or_introl eq_refl) (or_introl eq_refl)
           (or_introl eq_refl) (or_introl eq_refl) Ho Hd).
Defined.

Lemma forward_rejects_an_empty_sequence_witness :
  dim3_1 toy_empty_input = 0
  /\ exists w',
       Qwen3ForCausalLMEagle3_forward toy_sdpa_model toy_empty_input
         toy_embeds None 7 empty_world = (Err RuntimeError, w')
       /\ w' = mkWorld [([], [])] [].
Proof.
  split; [reflexivity |].
  destruct (forward_rejects_an_empty_sequence toy_sdpa_model toy_empty_input
              toy_embeds None 7 empty_world eq_refl)
    as (w' & Hrun & _ & Hcache).
  exists w'. split; [exact Hrun |].
  apply Hcache. discriminate.
Defined.

End MoreWitnesses.

Lemma sample_fraction_never_revises_its_output_witness :
  sample_fraction (RF := lcg_floats) mixed_lines one_half 42 true
    = Ok (["{0}"]%string, (3%Z, 2%Z, 1%Z))
  /\ exists rest total' valid',
       sample_fraction (RF := lcg_floats) (mixed_lines ++ ten_lines) one_half 42
         true
       = Ok (["{0}"]%string ++ rest,
             (total', valid', (1 + Z.of_nat (length rest))%Z))
       /\ subseq rest (valid_lines (ENV := lcg_env) true ten_lines).
Proof.
  assert (H : sample_fraction (RF := lcg_floats) mixed_lines one_half 42 true
              = Ok (["{0}"]%string, (3%Z, 2%Z, 1%Z)))
    by (vm_compute; reflexivity).
  split; [exact H |].
  exact (sample_fraction_never_revises_its_output (RF := lcg_floats)
           mixed_lines ten_lines one_half 42 true ["{0}"]%string 3 2 1 H).
Defined.

